(** * Maya: the monitoring-and-dispatch core, embedded in Rocq

  A shallow embedding of three Python classes of the repository,

  - [AlertSystem]    (files/alerts.py):  cooldown-gated alerts and the
                                         JSON-lines alert log,
  - [SensorHub]      (files/sensors.py): sensor registry, probe and the
                                         polling loop,
  - [VoiceAssistant] (files/voice.py):   wake-word state machine and
                                         keyword command dispatch,

  followed by the properties of the specification that concern them.

  Conventions.  A coroutine is modelled by the function from the state
  before the call (and the outcome of the I/O it performs) to the state
  after it, together with the list of calls it made to its collaborators
  (sinks, subscribers, the speech engine) in the order it made them.
  The Python dictionaries that the claims index by key only are [gmap]s;
  the command table, whose iteration order decides the outcome, is an
  association list in insertion order.

  Text.  A [string] stands for a Python [str] whose characters are code
  points below 256, one character per code point.  On that range the
  string operations below ([strip], [lower], [in], [split]) are those of
  Python.  Sensor names and values are only stored and handed on, never
  inspected, so any text may stand there.

  Time.  A [datetime] is its number of microseconds on the time line, a
  [timedelta] the difference of two.  [total_seconds()] and the division
  that turns seconds into hours yield binary64 floats; they are computed
  as Python computes them, by [PyFloat], and compared with the whole
  numbers of the configuration as Python compares a float with an
  [int]. *)

From Stdlib Require Import ZArith NArith String Ascii List Bool Lia.
From stdpp Require Import gmap strings list.

Set Warnings "-register-all".

Open Scope string_scope.
Open Scope list_scope.
Open Scope Z_scope.

(* ================================================================== *)
(** * Python [str] operations *)
(* ================================================================== *)

Module PyStr.

(** Line feed and carriage return. *)
Definition LF : ascii := "010"%char.
Definition CR : ascii := "013"%char.

(** [str.isspace] on one character: U+0009..U+000D, U+001C..U+0020,
    U+0085 and U+00A0. *)
Definition is_space (c : ascii) : bool :=
  let n := N_of_ascii c in
  (((9 <=? n) && (n <=? 13)) || ((28 <=? n) && (n <=? 32))
   || (n =? 133) || (n =? 160))%N.

Definition is_empty (s : string) : bool :=
  match s with EmptyString => true | String _ _ => false end.

Fixpoint lstrip (s : string) : string :=
  match s with
  | EmptyString => EmptyString
  | String c r => if is_space c then lstrip r else s
  end.

Fixpoint rstrip (s : string) : string :=
  match s with
  | EmptyString => EmptyString
  | String c r =>
      let r' := rstrip r in
      if is_empty r' && is_space c then EmptyString else String c r'
  end.

(** [s.strip()] *)
Definition strip (s : string) : string := rstrip (lstrip s).

(** [str.lower] on one character: A..Z, and the capital letters of the
    Latin-1 supplement (U+00C0..U+00DE without the multiplication sign
    U+00D7), move up by 32. *)
Definition lower_char (c : ascii) : ascii :=
  let n := N_of_ascii c in
  if (((65 <=? n) && (n <=? 90))
      || ((192 <=? n) && (n <=? 222) && negb (n =? 215)))%N
  then ascii_of_N (n + 32) else c.

(** [s.lower()] *)
Fixpoint lower (s : string) : string :=
  match s with
  | EmptyString => EmptyString
  | String c r => String (lower_char c) (lower r)
  end.

(** [k in s]: [k] occurs in [s] as a contiguous substring. *)
Fixpoint contains (k s : string) : bool :=
  String.prefix k s
  || match s with
     | EmptyString => false
     | String _ r => contains k r
     end.

Fixpoint drop (n : nat) (s : string) : string :=
  match n, s with
  | O, _ => s
  | S n', String _ r => drop n' r
  | S _, EmptyString => EmptyString
  end.

(** What follows the leftmost occurrence of [sep] in [s], if any. *)
Fixpoint find_after (sep s : string) : option string :=
  if String.prefix sep s then Some (drop (String.length sep) s)
  else match s with
       | EmptyString => None
       | String _ r => find_after sep r
       end.

(** [s.split(sep, 1)[-1]].  [None] is the [ValueError] that [split]
    raises on an empty separator; a string without [sep] is split into
    itself alone. *)
Definition split1_last (sep s : string) : option string :=
  if is_empty sep then None
  else Some (default s (find_after sep s)).

(** [sep.join(parts)] *)
Fixpoint join (sep : string) (parts : list string) : string :=
  match parts with
  | [] => EmptyString
  | [p] => p
  | p :: rest => p +:+ sep +:+ join sep rest
  end.

(** The lines of a text file opened with [open(path)], as the iteration
    [for line in f] yields them: universal newlines, so a line ends at
    "\n", "\r" or "\r\n", each handed over as "\n"; a last line without
    a line end is yielded as it is.  [cur] is the line being read. *)
Fixpoint lines_from (cur : string) (s : string) : list string :=
  match s with
  | EmptyString => if is_empty cur then [] else [cur]
  | String c r =>
      if Ascii.eqb c LF then (cur +:+ String LF EmptyString) :: lines_from EmptyString r
      else if Ascii.eqb c CR then
        match r with
        | String c' r' =>
            if Ascii.eqb c' LF
            then (cur +:+ String LF EmptyString) :: lines_from EmptyString r'
            else (cur +:+ String LF EmptyString) :: lines_from EmptyString r
        | EmptyString => [cur +:+ String LF EmptyString]
        end
      else lines_from (cur +:+ String c EmptyString) r
  end.

Definition lines (s : string) : list string := lines_from EmptyString s.

(** A text without a line end in it. *)
Fixpoint one_line (s : string) : bool :=
  match s with
  | EmptyString => true
  | String c r => negb (Ascii.eqb c LF) && negb (Ascii.eqb c CR) && one_line r
  end.

(** A text that is empty or ends with a line feed: every line of it is
    complete. *)
Fixpoint line_ended (s : string) : bool :=
  match s with
  | EmptyString => true
  | String c EmptyString => Ascii.eqb c LF
  | String _ r => line_ended r
  end.

(** Python slice [l[-count:]].  A positive [count] keeps the last
    [count] items (all of them when the list is shorter); [-0] is [0],
    so [l[-0:]] is [l[0:]], the whole list; a negative [count] makes
    the start index [-count] positive, and the slice drops that many
    items from the front. *)
Definition slice_from_neg {A} (count : Z) (l : list A) : list A :=
  if 0 <? count then skipn (length l - Z.to_nat count) l
  else skipn (Z.to_nat (- count)) l.

End PyStr.

(* ================================================================== *)
(** * Python dictionaries kept in insertion order *)
(* ================================================================== *)

(** [d[k] = v] on a dictionary kept as an association list: an existing
  key keeps its place and takes the new value, a new key goes last. *)
Fixpoint dict_set {K V} `{EqDecision K} (k : K) (v : V) (d : list (K * V))
: list (K * V) :=
match d with
| [] => [(k, v)]
| (k', v') :: rest =>
    if decide (k' = k) then (k, v) :: rest
    else (k', v') :: dict_set k v rest
end.

(** [d.get(k)] *)
Fixpoint dict_get {K V} `{EqDecision K} (k : K) (d : list (K * V)) : option V :=
match d with
| [] => None
| (k', v') :: rest => if decide (k' = k) then Some v' else dict_get k rest
end.

(** [dict(pairs)]: later pairs overwrite earlier ones. *)
Definition dict_of_pairs {K V} `{EqDecision K} (pairs : list (K * V))
: list (K * V) :=
fold_left (fun d kv => dict_set (fst kv) (snd kv) d) pairs [].

(* ================================================================== *)
(** * The [json] module of the Python standard library *)
(* ================================================================== *)

(** [json.dumps] with its default settings ([ensure_ascii], separators
  [", "] and [": "]) and [json.loads] as the C scanner of CPython
  implements it (strict mode).  A JSON string is a list of code points,
  since an escape can name any of them.  A number is kept as the text of
  its literal.  [loads] answers [None] where Python raises
  [JSONDecodeError].  The limits of the interpreter (the depth of
  recursion, the number of digits of an integer) are not part of the
  model. *)

Module Json.
Import PyStr.

Inductive json : Type :=
| JNull
| JBool (b : bool)
| JNum (literal : string)
| JStr (s : list N)
| JArr (items : list json)
| JObj (members : list (list N * json)).

Definition QUOTE : ascii := "034"%char.
Definition BACKSLASH : ascii := "\"%char.

(** The code points of a string. *)
Definition cps (s : string) : list N :=
  map N_of_ascii (list_ascii_of_string s).

(** ** Encoding *)

Definition hex_digit (n : N) : ascii :=
  (if n <? 10 then ascii_of_N (48 + n) else ascii_of_N (87 + n))%N.

(** ["\\u{0:04x}".format(n)] for [n] below 0x10000 *)
Definition u_escape (n : N) : string :=
  String BACKSLASH (String "u"
    (String (hex_digit (N.shiftr n 12 mod 16))
    (String (hex_digit (N.shiftr n 8 mod 16))
    (String (hex_digit (N.shiftr n 4 mod 16))
    (String (hex_digit (n mod 16)) EmptyString)))))%N.

(** One character of [py_encode_basestring_ascii]: the printable ASCII
    characters other than the quote and the backslash stand for
    themselves, the others are escaped, those above U+FFFF as a
    surrogate pair. *)
Definition encode_char (c : N) : string :=
  (if c =? 34 then String BACKSLASH (String QUOTE EmptyString)
   else if c =? 92 then String BACKSLASH (String BACKSLASH EmptyString)
   else if c =? 10 then String BACKSLASH "n"
   else if c =? 13 then String BACKSLASH "r"
   else if c =? 9 then String BACKSLASH "t"
   else if c =? 12 then String BACKSLASH "f"
   else if c =? 8 then String BACKSLASH "b"
   else if (32 <=? c) && (c <=? 126) then String (ascii_of_N c) EmptyString
   else if c <? 65536 then u_escape c
   else
     let v := c - 65536 in
     u_escape (N.lor 55296 (N.land (N.shiftr v 10) 1023))
     +:+ u_escape (N.lor 56320 (N.land v 1023)))%N.

Fixpoint encode_chars (s : list N) : string :=
  match s with
  | [] => EmptyString
  | c :: r => encode_char c +:+ encode_chars r
  end.

Definition encode_str (s : list N) : string :=
  String QUOTE (encode_chars s +:+ String QUOTE EmptyString).

(** [json.dumps(v)] *)
Fixpoint dumps (v : json) : string :=
  match v with
  | JNull => "null"
  | JBool true => "true"
  | JBool false => "false"
  | JNum literal => literal
  | JStr s => encode_str s
  | JArr items => "[" +:+ join ", " (map dumps items) +:+ "]"
  | JObj members =>
      "{" +:+ join ", "
                (map (fun kv => encode_str (fst kv) +:+ ": " +:+ dumps (snd kv))
                     members)
          +:+ "}"
  end.

(** ** Decoding *)

(** JSON whitespace: space, tab, line feed, carriage return. *)
Definition is_ws (c : ascii) : bool :=
  let n := N_of_ascii c in ((n =? 32) || (n =? 9) || (n =? 10) || (n =? 13))%N.

Fixpoint skip_ws (s : string) : string :=
  match s with
  | EmptyString => EmptyString
  | String c r => if is_ws c then skip_ws r else s
  end.

Definition is_digit (c : ascii) : bool :=
  let n := N_of_ascii c in ((48 <=? n) && (n <=? 57))%N.

Definition hex_value (c : ascii) : option N :=
  let n := N_of_ascii c in
  (if (48 <=? n) && (n <=? 57) then Some (n - 48)
   else if (97 <=? n) && (n <=? 102) then Some (n - 87)
   else if (65 <=? n) && (n <=? 70) then Some (n - 55)
   else None)%N.

Definition is_high_surrogate (n : N) : bool := ((55296 <=? n) && (n <=? 56319))%N.
Definition is_low_surrogate (n : N) : bool := ((56320 <=? n) && (n <=? 57343))%N.
Definition join_surrogates (hi lo : N) : N :=
  (65536 + N.lor (N.shiftl (N.land hi 1023) 10) (N.land lo 1023))%N.

(** The character a one-letter escape stands for. *)
Definition simple_escape (c : ascii) : option N :=
  let n := N_of_ascii c in
  (if n =? 34 then Some 34          (* quote *)
   else if n =? 92 then Some 92     (* backslash *)
   else if n =? 47 then Some 47     (* / *)
   else if n =? 98 then Some 8      (* b *)
   else if n =? 102 then Some 12    (* f *)
   else if n =? 110 then Some 10    (* n *)
   else if n =? 114 then Some 13    (* r *)
   else if n =? 116 then Some 9     (* t *)
   else None)%N.

(** Where [scanstring] stands inside a string literal.  [pending] is a
    high surrogate that was decoded from an escape and waits to see
    whether a low surrogate follows. *)
Inductive scan_state : Type :=
| SPlain (pending : option N)
| SEscape (pending : option N)
| SHex (pending : option N) (todo : nat) (acc : N).

Definition emit (pending : option N) (out : list N) : list N :=
  match pending with Some h => h :: out | None => out end.

Definition produce (pre : list N) (k : option (list N * string))
  : option (list N * string) :=
  match k with
  | Some (out, rest) => Some (pre ++ out, rest)
  | None => None
  end.

(** [scanstring], entered after the opening quote: the decoded
    characters and the text after the closing quote. *)
Fixpoint scan (st : scan_state) (s : string) : option (list N * string) :=
  match s with
  | EmptyString => None
  | String c r =>
      match st with
      | SPlain pending =>
          if Ascii.eqb c QUOTE then Some (emit pending [], r)
          else if Ascii.eqb c BACKSLASH then scan (SEscape pending) r
          else if (N_of_ascii c <=? 31)%N then None
          else produce (emit pending [N_of_ascii c]) (scan (SPlain None) r)
      | SEscape pending =>
          if Ascii.eqb c "u" then scan (SHex pending 3 0%N) r
          else match simple_escape c with
               | Some x => produce (emit pending [x]) (scan (SPlain None) r)
               | None => None
               end
      | SHex pending todo acc =>
          match hex_value c with
          | None => None
          | Some d =>
              let v := (acc * 16 + d)%N in
              match todo with
              | S todo' => scan (SHex pending todo' v) r
              | O =>
                  match pending with
                  | Some h =>
                      if is_low_surrogate v
                      then produce [join_surrogates h v] (scan (SPlain None) r)
                      else if is_high_surrogate v
                      then produce [h] (scan (SPlain (Some v)) r)
                      else produce [h; v] (scan (SPlain None) r)
                  | None =>
                      if is_high_surrogate v then scan (SPlain (Some v)) r
                      else produce [v] (scan (SPlain None) r)
                  end
              end
          end
      end
  end.

Definition scanstring (s : string) : option (list N * string) :=
  scan (SPlain None) s.

(** The digits at the front of [s], and the rest. *)
Fixpoint span_digits (s : string) : string * string :=
  match s with
  | EmptyString => (EmptyString, EmptyString)
  | String c r =>
      if is_digit c
      then let '(ds, rest) := span_digits r in (String c ds, rest)
      else (EmptyString, s)
  end.

(** The integer part of a number: [0], or a non-zero digit and the
    digits after it. *)
Definition match_int (s : string) : option (string * string) :=
  match s with
  | EmptyString => None
  | String c r =>
      if Ascii.eqb c "0" then Some ("0", r)
      else if is_digit c
      then let '(ds, rest) := span_digits r in Some (String c ds, rest)
      else None
  end.

(** The optional fraction: a dot and at least one digit. *)
Definition match_frac (s : string) : string * string :=
  match s with
  | String c r =>
      if Ascii.eqb c "." then
        match span_digits r with
        | (EmptyString, _) => (EmptyString, s)
        | (ds, rest) => (String c ds, rest)
        end
      else (EmptyString, s)
  | EmptyString => (EmptyString, s)
  end.

(** The optional exponent: [e] or [E], an optional sign, and at least
    one digit; without a digit nothing is taken. *)
Definition match_exp (s : string) : string * string :=
  match s with
  | String c r =>
      if Ascii.eqb c "e" || Ascii.eqb c "E" then
        let '(sign, r1) :=
          match r with
          | String c' r' =>
              if Ascii.eqb c' "-" || Ascii.eqb c' "+"
              then (String c' EmptyString, r') else (EmptyString, r)
          | EmptyString => (EmptyString, r)
          end in
        match span_digits r1 with
        | (EmptyString, _) => (EmptyString, s)
        | (ds, rest) => (String c (sign +:+ ds), rest)
        end
      else (EmptyString, s)
  | EmptyString => (EmptyString, s)
  end.

Definition match_number (s : string) : option (json * string) :=
  let '(sign, s1) :=
    match s with
    | String c r => if Ascii.eqb c "-" then ("-", r) else (EmptyString, s)
    | EmptyString => (EmptyString, s)
    end in
  match match_int s1 with
  | None => None
  | Some (int_part, s2) =>
      let '(frac, s3) := match_frac s2 in
      let '(exp, s4) := match_exp s3 in
      Some (JNum (sign +:+ int_part +:+ frac +:+ exp), s4)
  end.

(** [s] after the word [w], when [s] starts with it. *)
Definition after_word (w s : string) : option string :=
  if String.prefix w s then Some (drop (String.length w) s) else None.

(** The named constants, then the numbers. *)
Definition scan_atom (s : string) : option (json * string) :=
  match after_word "null" s with
  | Some r => Some (JNull, r)
  | None =>
  match after_word "true" s with
  | Some r => Some (JBool true, r)
  | None =>
  match after_word "false" s with
  | Some r => Some (JBool false, r)
  | None =>
  match after_word "NaN" s with
  | Some r => Some (JNum "NaN", r)
  | None =>
  match after_word "Infinity" s with
  | Some r => Some (JNum "Infinity", r)
  | None =>
  match after_word "-Infinity" s with
  | Some r => Some (JNum "-Infinity", r)
  | None => match_number s
  end end end end end end.

(** [scan_once] and the array and object readers.  The fuel bounds the
    depth of the calls; every call follows at least one character
    consumed, so the length of the text is enough. *)
Fixpoint scan_once (fuel : nat) (s : string) : option (json * string) :=
  match fuel with
  | O => None
  | S fuel' =>
      match s with
      | EmptyString => None
      | String c r =>
          if Ascii.eqb c QUOTE then
            match scanstring r with
            | Some (cs, r') => Some (JStr cs, r')
            | None => None
            end
          else if Ascii.eqb c "{" then
            match skip_ws r with
            | String c1 r1 =>
                if Ascii.eqb c1 "}" then Some (JObj [], r1)
                else match parse_members fuel' (String c1 r1) with
                     | Some (kvs, r2) => Some (JObj (dict_of_pairs kvs), r2)
                     | None => None
                     end
            | EmptyString => None
            end
          else if Ascii.eqb c "[" then
            match skip_ws r with
            | String c1 r1 =>
                if Ascii.eqb c1 "]" then Some (JArr [], r1)
                else match parse_items fuel' (String c1 r1) with
                     | Some (vs, r2) => Some (JArr vs, r2)
                     | None => None
                     end
            | EmptyString => None
            end
          else scan_atom s
      end
  end
with parse_items (fuel : nat) (s : string) : option (list json * string) :=
  match fuel with
  | O => None
  | S fuel' =>
      match scan_once fuel' s with
      | None => None
      | Some (v, r) =>
          match skip_ws r with
          | String c1 r1 =>
              if Ascii.eqb c1 "]" then Some ([v], r1)
              else if Ascii.eqb c1 "," then
                match parse_items fuel' (skip_ws r1) with
                | Some (vs, r2) => Some (v :: vs, r2)
                | None => None
                end
              else None
          | EmptyString => None
          end
      end
  end
with parse_members (fuel : nat) (s : string)
  : option (list (list N * json) * string) :=
  match fuel with
  | O => None
  | S fuel' =>
      match s with
      | EmptyString => None
      | String c r =>
          if Ascii.eqb c QUOTE then
            match scanstring r with
            | None => None
            | Some (k, r1) =>
                match skip_ws r1 with
                | String c2 r2 =>
                    if Ascii.eqb c2 ":" then
                      match scan_once fuel' (skip_ws r2) with
                      | None => None
                      | Some (v, r3) =>
                          match skip_ws r3 with
                          | String c4 r4 =>
                              if Ascii.eqb c4 "}" then Some ([(k, v)], r4)
                              else if Ascii.eqb c4 "," then
                                match parse_members fuel' (skip_ws r4) with
                                | Some (kvs, r5) => Some ((k, v) :: kvs, r5)
                                | None => None
                                end
                              else None
                          | EmptyString => None
                          end
                      end
                    else None
                | EmptyString => None
                end
            end
          else None
      end
  end.

(** A dictionary whose keys and values are strings, and the text of one
    of its members in [dumps]. *)
Definition str_dict (kvs : list (string * string)) : list (list N * json) :=
  map (fun kv => (cps (fst kv), JStr (cps (snd kv)))) kvs.

Definition member_text (kv : list N * json) : string :=
  encode_str (fst kv) +:+ ": " +:+ dumps (snd kv).

(** [json.loads(s)]: one value, whitespace around it, nothing else. *)
Definition loads (s : string) : option json :=
  match scan_once (S (String.length s)) (skip_ws s) with
  | Some (v, rest) => if is_empty (skip_ws rest) then Some v else None
  | None => None
  end.

End Json.

(* ================================================================== *)
(** * Python floats, as far as elapsed times are compared *)
(* ================================================================== *)

(** [timedelta.total_seconds()] divides a whole number of microseconds
  by 10^6, and [check_inactivity] divides the result by 3600.  Both are
  true divisions: the result is the binary64 number nearest to the
  quotient, ties going to the even significand.  A comparison of a float
  with an [int] compares the two numbers exactly.  The model keeps a
  float as its significand and its exponent and does the rounding on
  whole numbers.  The exponent is not bounded: the quotients that occur
  lie between 10^-10 and 10^12, far from the ends of the binary64
  range. *)
Module PyFloat.

(** The finite float [mant * 2^expo]. *)
Record float : Type := {
  mant : Z;
  expo : Z
}.

(** [2^e] as a fraction of two whole numbers. *)
Definition pow2_num (e : Z) : Z := 2 ^ Z.max 0 e.
Definition pow2_den (e : Z) : Z := 2 ^ Z.max 0 (- e).

(** The whole number nearest to [n / d], ties to even, for [0 <= n] and
    [0 < d]. *)
Definition round_half_even (n d : Z) : Z :=
  let q := n / d in
  let r := n mod d in
  if 2 * r <? d then q
  else if d <? 2 * r then q + 1
  else if Z.even q then q else q + 1.

(** The exponent [e] of the float nearest to [n / d], for [0 < n] and
    [0 < d]: the one with [2^52 <= n / (d * 2^e) < 2^53]. *)
Definition binade (n d : Z) : Z :=
  let e := Z.log2 n - Z.log2 d - 52 in
  if n * pow2_den e <? 2 ^ 52 * (d * pow2_num e) then e - 1 else e.

(** The float nearest to [n / d], for [0 < d]. *)
Definition nearest (n d : Z) : float :=
  if n =? 0 then {| mant := 0; expo := 0 |}
  else
    let a := Z.abs n in
    let e := binade a d in
    {| mant := Z.sgn n * round_half_even (a * pow2_den e) (d * pow2_num e);
       expo := e |}.

(** [n / d] on two [int]s. *)
Definition true_div (n d : Z) : float := nearest n d.

(** [x / d] on a float and a positive [int] below 2^53. *)
Definition div_int (x : float) (d : Z) : float :=
  nearest (mant x * pow2_num (expo x)) (d * pow2_den (expo x)).

(** [x < c] and [x > c] on a float and an [int]. *)
Definition lt_int (x : float) (c : Z) : bool :=
  mant x * pow2_num (expo x) <? c * pow2_den (expo x).

Definition gt_int (x : float) (c : Z) : bool :=
  c * pow2_den (expo x) <? mant x * pow2_num (expo x).

(** [timedelta(microseconds=us).total_seconds()] *)
Definition total_seconds (us : Z) : float := true_div us 1000000.

End PyFloat.

(* ================================================================== *)
(** * files/alerts.py: [AlertSystem] *)
(* ================================================================== *)

Module Alerts.
Import PyStr Json.

(** The [alerts] section of the configuration, as [trigger] reads it:
    [config.get("fall_cooldown_seconds", 30)], in whole seconds. *)
Record alerts_config : Type := {
  fall_cooldown_seconds : option Z
}.

(** The fields of an [AlertSystem] that [trigger] and
    [get_recent_alerts] use.  A time is a [datetime] counted in
    microseconds, the resolution of [datetime]; [log_file] is the text of
    [data_dir/alerts.jsonl], [None] while the file does not exist; a
    sink is [true] when a callback is registered. *)
Record alert_system : Type := {
  config : alerts_config;
  _cooldowns : gmap string Z;
  log_file : option string;
  on_alert_visual : bool;
  on_alert_voice : bool
}.

(** [AlertSystem(config, data_dir)] on a data directory whose log has the
    text [file]. *)
Definition init (cfg : alerts_config) (file : option string) : alert_system :=
  {| config := cfg; _cooldowns := ∅; log_file := file;
     on_alert_visual := false; on_alert_voice := false |}.

(** A call to a sink. *)
Inductive sink_call : Type :=
| Visual (alert_type message : string)   (* on_alert_visual(type, msg) *)
| Voice (text : string).                 (* on_alert_voice(msg) *)

(** The dictionary that [_log_alert] writes; [stamp] is
    [datetime.now().isoformat()]. *)
Definition entry (stamp alert_type message severity : string) : json :=
  JObj [ (cps "timestamp", JStr (cps stamp));
         (cps "type", JStr (cps alert_type));
         (cps "message", JStr (cps message));
         (cps "severity", JStr (cps severity)) ].

(** [f.write(text)] on the log opened with mode ["a"]. *)
Definition append_file (file : option string) (text : string) : option string :=
  Some (default EmptyString file +:+ text).

Definition _log_alert (s : alert_system)
    (stamp alert_type message severity : string) : alert_system :=
  {| config := config s; _cooldowns := _cooldowns s;
     log_file :=
       append_file (log_file s)
         (dumps (entry stamp alert_type message severity)
          +:+ String LF EmptyString);
     on_alert_visual := on_alert_visual s;
     on_alert_voice := on_alert_voice s |}.

(** The cooldown in microseconds, the unit of the times. *)
Definition cooldown (s : alert_system) : Z :=
  default 30 (fall_cooldown_seconds (config s)) * 1000000.

(** The cooldown check of [trigger]: [true] when the call returns at
    once.  [elapsed < cooldown] compares the float
    [(now - last).total_seconds()] with the whole number of seconds of
    the configuration. *)
Definition in_cooldown (s : alert_system) (now : Z) (alert_type : string) : bool :=
  match _cooldowns s !! alert_type with
  | Some last =>
      PyFloat.lt_int (PyFloat.total_seconds (now - last))
        (default 30 (fall_cooldown_seconds (config s)))
  | None => false
  end.

(** The cooldowns for which the comparison of floats is the comparison
    of the whole microseconds: from 0 to 2^33 seconds (some 272
    years). *)
Definition MAX_EXACT_SECONDS : Z := 2 ^ 33.

Definition exact_window (s : alert_system) : Prop :=
  0 ≤ cooldown s ≤ MAX_EXACT_SECONDS * 1000000.

(** [datetime.max - datetime.min] in microseconds: no two [datetime]s
    are further apart. *)
Definition DATETIME_SPAN : Z := 315537897599999999.

Definition set_cooldown (s : alert_system) (alert_type : string) (now : Z)
  : alert_system :=
  {| config := config s;
     _cooldowns := <[alert_type := now]> (_cooldowns s);
     log_file := log_file s;
     on_alert_visual := on_alert_visual s;
     on_alert_voice := on_alert_voice s |}.

(** [trigger(alert_type, message, severity)] at time [now]: the state
    after the call and the sinks it called, in order. *)
Definition trigger (s : alert_system) (now : Z) (stamp : string)
    (alert_type message severity : string) : alert_system * list sink_call :=
  if in_cooldown s now alert_type then (s, [])
  else
    let s1 := set_cooldown s alert_type now in
    let s2 := _log_alert s1 stamp alert_type message severity in
    (s2,
     (if on_alert_visual s2 then [Visual alert_type message] else [])
     ++ (if String.eqb severity "critical" && on_alert_voice s2
         then [Voice ("Alert! " +:+ message)] else [])).

(** [get_recent_alerts(count)] *)
Definition parse_lines (content : string) : list json :=
  omap (fun line => loads (strip line)) (lines content).

Definition get_recent_alerts (s : alert_system) (count : Z) : list json :=
  match log_file s with
  | None => []
  | Some content => slice_from_neg count (parse_lines content)
  end.

(** One call of [trigger], and a run of calls one after the other. *)
Record call : Type := {
  at_time : Z;
  stamp_of : string;
  type_of : string;
  message_of : string;
  severity_of : string
}.

Definition trigger_call (s : alert_system) (c : call)
  : alert_system * list sink_call :=
  trigger s (at_time c) (stamp_of c) (type_of c) (message_of c) (severity_of c).

Fixpoint run (s : alert_system) (cs : list call)
  : alert_system * list sink_call :=
  match cs with
  | [] => (s, [])
  | c :: rest =>
      let '(s1, out1) := trigger_call s c in
      let '(s2, out2) := run s1 rest in
      (s2, out1 ++ out2)
  end.

Definition is_visual (e : sink_call) : bool :=
  match e with Visual _ _ => true | Voice _ => false end.

(** The calls to the visual sink among the calls of a run. *)
Definition visual_calls (out : list sink_call) : list sink_call :=
  filter (fun e => is_visual e = true) out.

(** The line that an accepted call writes to the log. *)
Definition record_line (stamp alert_type message severity : string) : string :=
  dumps (entry stamp alert_type message severity) +:+ String LF EmptyString.

(** The state that an accepted call leaves. *)
Definition accepted_state (s : alert_system) (now : Z)
    (stamp alert_type message severity : string) : alert_system :=
  _log_alert (set_cooldown s alert_type now) stamp alert_type message severity.

Definition record_of (c : call) : string :=
  record_line (stamp_of c) (type_of c) (message_of c) (severity_of c).

(** The text of the log, empty while there is no file. *)
Definition log_text (s : alert_system) : string :=
  default EmptyString (log_file s).

(** The dictionary of a call, and a field of a dictionary that was read
    back from the log. *)
Definition entry_of (c : call) : json :=
  entry (stamp_of c) (type_of c) (message_of c) (severity_of c).

Definition field (name : string) (v : json) : option json :=
  match v with
  | JObj members => dict_get (cps name) members
  | _ => None
  end.

(** A system with both sinks registered, and three calls for one type:
    the second ten seconds after the first, the third forty. *)
Definition sample_system : alert_system :=
  {| config := {| fall_cooldown_seconds := None |}; _cooldowns := ∅;
     log_file := None; on_alert_visual := true; on_alert_voice := true |}.

Definition sample_call (seconds : Z) (stamp message : string) : call :=
  {| at_time := seconds * 1000000; stamp_of := stamp; type_of := "fall";
     message_of := message; severity_of := "critical" |}.

Definition call_a : call := sample_call 100 "2026-01-01T00:01:40" "Fall detected".
Definition call_b : call := sample_call 110 "2026-01-01T00:01:50" "Fall detected again".
Definition call_c : call := sample_call 140 "2026-01-01T00:02:20" "Another fall".

(** The system after the two calls that are forty seconds apart. *)
Definition after_two : alert_system := (run sample_system [call_a; call_c]).1.

(** Fifteen calls a minute apart, with the messages "A" to "O", and
    the system after them. *)
Definition fifteen_calls : list call :=
  map (fun i =>
         {| at_time := (100 + 60 * Z.of_nat i) * 1000000;
            stamp_of := "2026-01-01T00:00:00"; type_of := "fall";
            message_of := String (ascii_of_nat (65 + i)) EmptyString;
            severity_of := "warning" |})
      (seq 0 15).

Definition after_fifteen : alert_system := (run sample_system fifteen_calls).1.

(** A system with a cooldown of 2 * 10^10 seconds (some 634 years)
    whose last alert of type "fall" was accepted at time 0, and a call
    one microsecond before the cooldown has passed. *)
Definition long_window_system : alert_system :=
  {| config := {| fall_cooldown_seconds := Some 20000000000 |};
     _cooldowns := {["fall" := 0]};
     log_file := None; on_alert_visual := true; on_alert_voice := false |}.

Definition late_call : call :=
  {| at_time := 20000000000 * 1000000 - 1; stamp_of := "2660-01-01T00:00:00";
     type_of := "fall"; message_of := "Fall detected"; severity_of := "warning" |}.

(** A system whose log holds two records with a line between them that
    is not JSON. *)
Definition with_malformed_line : alert_system :=
  {| config := {| fall_cooldown_seconds := None |}; _cooldowns := ∅;
     log_file := Some (record_of call_a
                       +:+ "{not json" +:+ String LF EmptyString
                       +:+ record_of call_c);
     on_alert_visual := false; on_alert_voice := false |}.

End Alerts.

(* ================================================================== *)
(** * files/sensors.py: [SensorHub] *)
(* ================================================================== *)

Module Sensors.

Inductive sensor_status : Type := Pending | Connected | Offline.

#[global] Instance sensor_status_eq_dec : EqDecision sensor_status.
Proof. solve_decision. Defined.

(** The dictionary that [register] builds for a sensor.  [read_fn] names
    the read capability, if there is one; what a call of it yields is
    given by the environment ([io] below).  [interval] is in
    milliseconds. *)
Record sensor : Type := {
  name : string;
  status : sensor_status;
  value : string;
  read_fn : option nat;
  interval : Z;
  i2c_addr : option Z;
  last_read : Z;
  error_count : Z
}.

(** A sensor dictionary is an object: the registry and a running
    [poll_sensor] both hold a reference to it.  [objects] is the store
    of these dictionaries, [sensors] maps a name to the reference that
    the registry holds now, and [next_id] is the next free reference. *)
Record hub : Type := {
  sensors : gmap string nat;
  objects : gmap nat sensor;
  next_id : nat;
  callbacks : list nat;
  _bus : bool
}.

Definition empty_hub : hub :=
  {| sensors := ∅; objects := ∅; next_id := 0%nat; callbacks := []; _bus := false |}.

(** [on_update(callback)] *)
Definition on_update (h : hub) (cb : nat) : hub :=
  {| sensors := sensors h; objects := objects h; next_id := next_id h;
     callbacks := callbacks h ++ [cb]; _bus := _bus h |}.

(** The default value of a fresh sensor, an em dash. *)
Definition NO_VALUE : string := "—".

(** [register(name, read_fn, interval, i2c_addr)] *)
Definition register (h : hub) (name : string) (read_fn : option nat)
    (interval : Z) (i2c_addr : option Z) : hub :=
  let fresh :=
    {| name := name; status := Pending; value := NO_VALUE;
       read_fn := read_fn; interval := interval; i2c_addr := i2c_addr;
       last_read := 0; error_count := 0 |} in
  {| sensors := <[name := next_id h]> (sensors h);
     objects := <[next_id h := fresh]> (objects h);
     next_id := S (next_id h);
     callbacks := callbacks h;
     _bus := _bus h |}.

(** [self.sensors.get(name)], dereferenced. *)
Definition get_sensor (h : hub) (name : string) : option sensor :=
  match sensors h !! name with
  | Some l => objects h !! l
  | None => None
  end.

(** [get_reading(name)] and [get_status(name)] *)
Definition get_reading (h : hub) (name : string) : option string :=
  value <$> get_sensor h name.

Definition get_status (h : hub) (name : string) : option sensor_status :=
  status <$> get_sensor h name.

(** Assignments to the items of a sensor dictionary. *)
Definition with_status (st : sensor_status) (s : sensor) : sensor :=
  {| name := name s; status := st; value := value s; read_fn := read_fn s;
     interval := interval s; i2c_addr := i2c_addr s;
     last_read := last_read s; error_count := error_count s |}.

Definition with_value (v : string) (s : sensor) : sensor :=
  {| name := name s; status := status s; value := v; read_fn := read_fn s;
     interval := interval s; i2c_addr := i2c_addr s;
     last_read := last_read s; error_count := error_count s |}.

Definition with_error_count (n : Z) (s : sensor) : sensor :=
  {| name := name s; status := status s; value := value s; read_fn := read_fn s;
     interval := interval s; i2c_addr := i2c_addr s;
     last_read := last_read s; error_count := n |}.

(** The object at reference [l] replaced by [s]. *)
Definition store (h : hub) (l : nat) (s : sensor) : hub :=
  {| sensors := sensors h; objects := <[l := s]> (objects h);
     next_id := next_id h; callbacks := callbacks h; _bus := _bus h |}.

(** What the hardware answers during one step: whether
    [self._bus.read_byte] returns, and what [read_fn()] yields,
    [Some (str(val))] or [None] when it raises. *)
Record io : Type := {
  bus_ok : bool;
  read_result : option string
}.

(** The calls a step makes, in order. *)
Inductive event : Type :=
| BusRead (addr : Z)                  (* self._bus.read_byte(addr) *)
| ReadFn (name : string)              (* await sensor["read_fn"]() *)
| Probe (name : string)               (* await self.probe(name) *)
| Publish (cb : nat) (name : string) (st : sensor_status) (value : string)
                                      (* await cb(name, status, value) *)
| Sleep (interval : Z).               (* await asyncio.sleep(interval) *)

(** An address is true when it is not [None] and not zero. *)
Definition addr_truthy (a : option Z) : option Z :=
  match a with
  | Some n => if n =? 0 then None else Some n
  | None => None
  end.

(** [probe(name)]: the hub after it, its result, and its calls. *)
Definition probe (h : hub) (name : string) (env : io) : hub * bool * list event :=
  match sensors h !! name with
  | None => (h, false, [])
  | Some l =>
      match objects h !! l with
      | None => (h, false, [])
      | Some s =>
          match (if _bus h then addr_truthy (i2c_addr s) else None) with
          | Some addr =>
              if bus_ok env
              then (store h l (with_status Connected s), true, [BusRead addr])
              else (store h l (with_status Offline s), false, [BusRead addr])
          | None =>
              match read_fn s with
              | Some _ =>
                  match read_result env with
                  | Some val =>
                      (store h l (with_value val (with_status Connected s)),
                       true, [ReadFn name])
                  | None =>
                      (store h l (with_status Offline s), false, [ReadFn name])
                  end
              | None => (h, false, [])
              end
          end
      end
  end.

(** The calls to the subscribers for one update. *)
Definition publish (h : hub) (name : string) (st : sensor_status) (v : string)
  : list event :=
  map (fun cb => Publish cb name st v) (callbacks h).

(** One turn of the loop of [poll_sensor(name)], before the sleep.  [l]
    is the reference that the loop took from the registry when it
    started ([sensor = self.sensors[name]]). *)
Definition poll_body (h : hub) (l : nat) (name : string) (env : io)
  : hub * list event :=
  match objects h !! l with
  | None => (h, [])
  | Some s =>
      if bool_decide (status s = Connected) && bool_decide (is_Some (read_fn s)) then
        match read_result env with
        | Some val =>
            let s1 := with_error_count 0 (with_value val s) in
            (store h l s1, ReadFn name :: publish h name (status s1) (value s1))
        | None =>
            let s1 := with_error_count (error_count s + 1) s in
            if 5 <? error_count s1
            then (store h l (with_value "ERR" (with_status Offline s1)),
                  [ReadFn name])
            else (store h l s1, [ReadFn name])
        end
      else if bool_decide (status s = Offline) then
        let '(h1, _, evs) := probe h name env in
        (h1, Probe name :: evs)
      else (h, [])
  end.

Definition sleep_of (h : hub) (l : nat) : list event :=
  match objects h !! l with
  | Some s => [Sleep (interval s)]
  | None => []
  end.

Definition poll_step (h : hub) (l : nat) (name : string) (env : io)
  : hub * list event :=
  let '(h1, evs) := poll_body h l name env in
  (h1, evs ++ sleep_of h1 l).

(** The first turns of the loop, one for each answer of the hardware. *)
Fixpoint poll_loop (h : hub) (l : nat) (name : string) (envs : list io)
  : hub * list event :=
  match envs with
  | [] => (h, [])
  | env :: rest =>
      let '(h1, evs1) := poll_step h l name env in
      let '(h2, evs2) := poll_loop h1 l name rest in
      (h2, evs1 ++ evs2)
  end.

(** [poll_sensor(name)]; [None] is the [KeyError] of
    [self.sensors[name]] on a name that was never registered. *)
Definition poll_sensor (h : hub) (name : string) (envs : list io)
  : option (hub * list event) :=
  match sensors h !! name with
  | Some l => Some (poll_loop h l name envs)
  | None => None
  end.

Definition is_probe (e : event) : bool :=
  match e with Probe _ => true | _ => false end.

Definition is_publish (e : event) : bool :=
  match e with Publish _ _ _ _ => true | _ => false end.

(** An answer of the hardware on which neither the bus nor the read
    capability works. *)
Definition failing (env : io) : Prop :=
  bus_ok env = false ∧ read_result env = None.

(** An answer on which the read capability raises. *)
Definition read_fails (env : io) : Prop := read_result env = None.

(** The registry only holds references that were handed out. *)
Definition hub_wf (h : hub) : Prop :=
  map_Forall (fun _ l => (l < next_id h)%nat) (sensors h).

(** The dictionary of a sensor as [register] builds it. *)
Definition fresh_sensor (name : string) (read_fn : option nat)
    (interval : Z) (i2c_addr : option Z) : sensor :=
  {| name := name; status := Pending; value := NO_VALUE;
     read_fn := read_fn; interval := interval; i2c_addr := i2c_addr;
     last_read := 0; error_count := 0 |}.

(** The demo hub of [DemoSensors.register_all], reduced to its heart
    rate sensor: registered with a read capability, set to connected,
    after one successful read, and with one subscriber. *)
Definition demo_hub : hub :=
  let h := on_update (register empty_hub "MAX30102" (Some 0%nat) 2000 None) 0%nat in
  store h 0%nat
    {| name := "MAX30102"; status := Connected; value := "72 bpm";
       read_fn := Some 0%nat; interval := 2000; i2c_addr := None;
       last_read := 0; error_count := 0 |}.

(** The same hub once the sensor has gone offline. *)
Definition offline_hub : hub :=
  store demo_hub 0%nat
    {| name := "MAX30102"; status := Offline; value := "ERR";
       read_fn := Some 0%nat; interval := 2000; i2c_addr := None;
       last_read := 0; error_count := 6 |}.

Definition read_error : io := {| bus_ok := false; read_result := None |}.
Definition read_ok (v : string) : io := {| bus_ok := true; read_result := Some v |}.

End Sensors.

(* ================================================================== *)
(** * files/voice.py: [VoiceAssistant] *)
(* ================================================================== *)

Module Voice.
Import PyStr.

(** The [voice] section of the configuration:
    [config.get("wake_word", "hey maya")]. *)
Record voice_config : Type := {
  wake_word : option string
}.

Definition wake_phrase (cfg : voice_config) : string :=
  default "hey maya" (wake_word cfg).

(** What the built-in handlers read from [datetime.now()]:
    [strftime('%I:%M %p')], [strftime('%A, %B %d')] and [hour]. *)
Record clock : Type := {
  time_text : string;
  date_text : string;
  hour : Z
}.

(** A command handler: one of the built-in [_cmd_*] methods, or a
    handler that a collaborator registered, given by the response it
    returns for a command text. *)
Inductive handler : Type :=
| _cmd_time | _cmd_date | _cmd_hello | _cmd_how_are_you | _cmd_help
| _cmd_thanks | _cmd_greeting | _cmd_goodnight | _cmd_weather
| _cmd_temperature | _cmd_health_check | _cmd_emergency | _cmd_stop
| custom (respond : string → string).

(** The fields of a [VoiceAssistant] that the dispatcher uses.  A
    callback is [true] when one is registered. *)
Record assistant : Type := {
  listening : bool;
  speaking : bool;
  _tts_ready : bool;
  command_handlers : list (string * handler);
  on_listening_change : bool;
  on_command_result : bool
}.

(** [_register_default_commands] *)
Definition default_commands : list (string * handler) :=
  [ ("time", _cmd_time);
    ("what time", _cmd_time);
    ("date", _cmd_date);
    ("what day", _cmd_date);
    ("today", _cmd_date);
    ("hello", _cmd_hello);
    ("hi", _cmd_hello);
    ("how are you", _cmd_how_are_you);
    ("help", _cmd_help);
    ("what can you do", _cmd_help);
    ("thank", _cmd_thanks);
    ("good morning", _cmd_greeting);
    ("good afternoon", _cmd_greeting);
    ("good evening", _cmd_greeting);
    ("good night", _cmd_goodnight);
    ("weather", _cmd_weather);
    ("temperature", _cmd_temperature);
    ("how am i", _cmd_health_check);
    ("health", _cmd_health_check);
    ("emergency", _cmd_emergency);
    ("stop", _cmd_stop);
    ("quiet", _cmd_stop) ].

(** [VoiceAssistant(config, audio_config)] *)
Definition init : assistant :=
  {| listening := false; speaking := false; _tts_ready := false;
     command_handlers := default_commands;
     on_listening_change := false; on_command_result := false |}.

Definition set_listening (b : bool) (s : assistant) : assistant :=
  {| listening := b; speaking := speaking s; _tts_ready := _tts_ready s;
     command_handlers := command_handlers s;
     on_listening_change := on_listening_change s;
     on_command_result := on_command_result s |}.

Definition set_speaking (b : bool) (s : assistant) : assistant :=
  {| listening := listening s; speaking := b; _tts_ready := _tts_ready s;
     command_handlers := command_handlers s;
     on_listening_change := on_listening_change s;
     on_command_result := on_command_result s |}.

Definition set_command_handlers (t : list (string * handler)) (s : assistant)
  : assistant :=
  {| listening := listening s; speaking := speaking s;
     _tts_ready := _tts_ready s; command_handlers := t;
     on_listening_change := on_listening_change s;
     on_command_result := on_command_result s |}.

(** [register_command(keywords, handler)]; a single keyword is the list
    of that one keyword. *)
Definition register_keys (keywords : list string) (h : handler)
    (t : list (string * handler)) : list (string * handler) :=
  fold_left (fun d kw => dict_set (lower kw) h d) keywords t.

Definition register_command (s : assistant) (keywords : list string)
    (h : handler) : assistant :=
  set_command_handlers (register_keys keywords h (command_handlers s)) s.

(** The calls the dispatcher makes and the lines it logs, in order. *)
Inductive event : Type :=
| Heard (text : string)             (* log.info("Heard: ...") *)
| Command (command : string)        (* log.info("Command: ...") *)
| Led (pattern : string)            (* self.leds.set_pattern(pattern) *)
| Speak (text : string)             (* await self.speak(text) *)
| Result (text : string)            (* self.on_command_result(text) *)
| Tts (text : string)               (* the speech engine is run on text *)
| ListeningChange (active : bool).  (* self.on_listening_change(active) *)

(** [_on_button_press] *)
Definition _on_button_press (s : assistant) : assistant * list event :=
  if listening s then (set_listening false s, [])
  else (set_listening true s,
        if on_listening_change s then [ListeningChange true] else []).

(** [speak(text)].  Without a speech engine the call returns at once.
    Otherwise [speaking] is set, the text is played, and [speaking] is
    cleared in the [finally] clause. *)
Definition speak (s : assistant) (text : string) : assistant * list event :=
  if negb (_tts_ready s) then (s, [Speak text])
  else
    (set_speaking false (set_speaking true s),
     [Speak text; Led "speaking"]
     ++ (if on_command_result s then [Result text] else [])
     ++ [Tts text; Led "idle"]).

(** The two halves of a playback, around [await proc.wait()], where
    the other tasks run: [speak] up to the start of the speech engine,
    and its [finally] clause. *)
Definition speak_begin (s : assistant) (text : string) : assistant * list event :=
  (set_speaking true s,
   [Speak text; Led "speaking"]
   ++ (if on_command_result s then [Result text] else [])).

Definition speak_end (s : assistant) : assistant * list event :=
  (set_speaking false s, [Led "idle"]).

(** The response of a handler and the state it leaves. *)
Definition run_handler (clk : clock) (h : handler) (cmd : string)
    (s : assistant) : string * assistant :=
  match h with
  | _cmd_time => ("It's " +:+ time_text clk, s)
  | _cmd_date => ("Today is " +:+ date_text clk, s)
  | _cmd_hello => ("Hello! How are you feeling today?", s)
  | _cmd_how_are_you => ("I'm doing great! More importantly, how are you?", s)
  | _cmd_help =>
      ("I can tell you the time, the date, check your health readings, "
       +:+ "remind you about medications, or just chat. What would you like?", s)
  | _cmd_thanks => ("You're welcome! That's what I'm here for.", s)
  | _cmd_greeting =>
      (if hour clk <? 12 then "Good morning! Did you sleep well?"
       else if hour clk <? 17 then "Good afternoon! Having a nice day?"
       else "Good evening! How was your day?", s)
  | _cmd_goodnight => ("Good night! Sleep well. I'll keep watch.", s)
  | _cmd_weather =>
      ("I don't have a weather sensor yet. Would you like me to check the room temperature when we add the sensor?", s)
  | _cmd_temperature =>
      ("The temperature sensor isn't connected yet. It will show room temperature once we add the BME280 sensor.", s)
  | _cmd_health_check =>
      ("All systems are monitoring. No concerns detected. Your heart rate sensor will give more details once connected.", s)
  | _cmd_emergency =>
      ("Do you need emergency help? Say yes to call your emergency contact.", s)
  | _cmd_stop => ("Okay, going quiet.", set_listening false s)
  | custom respond => (respond cmd, s)
  end.

(** The loop of [_handle_command] over [command_handlers.items()]: the
    handler of the first key that occurs in the command. *)
Fixpoint route (t : list (string * handler)) (command : string) : option handler :=
  match t with
  | [] => None
  | (key, h) :: rest => if contains key command then Some h else route rest command
  end.

Definition fallback (command : string) : string :=
  "I heard you say: " +:+ command +:+ ". I'm still learning!".

(** [_handle_command(command)] *)
Definition _handle_command (clk : clock) (s : assistant) (command : string)
  : assistant * list event :=
  match route (command_handlers s) command with
  | Some h =>
      let '(response, s1) := run_handler clk h command s in
      let '(s2, evs) := speak s1 response in
      (s2, [Command command; Led "thinking"] ++ evs)
  | None =>
      let '(s1, evs) := speak s (fallback command) in
      (s1, [Command command; Led "thinking"] ++ evs)
  end.

(** [_process_speech(text)]; [None] is the [ValueError] that
    [text.split(wake_word, 1)] raises when the configured wake word is
    the empty string. *)
Definition _process_speech (cfg : voice_config) (clk : clock) (s : assistant)
    (text : string) : option (assistant * list event) :=
  let wake := wake_phrase cfg in
  if contains wake text then
    match split1_last wake text with
    | None => None
    | Some after =>
        let command := strip after in
        if negb (is_empty command) then
          let '(s1, evs) := _handle_command clk s command in
          Some (s1, Heard text :: evs)
        else
          let '(s1, evs) := speak (set_listening true s) "Yes? I'm listening." in
          Some (s1,
                [Heard text; Led "listening"] ++ evs
                ++ (if on_listening_change s1 then [ListeningChange true] else []))
    end
  else if listening s then
    let '(s1, evs) := _handle_command clk s text in
    Some (set_listening false s1,
          Heard text :: evs ++ [Led "idle"]
          ++ (if on_listening_change s1 then [ListeningChange false] else []))
  else Some (s, [Heard text]).

(** A finalized recognition result in [listen_continuous]:
    the text of the result, lowered and stripped, processed when it
    is not empty. *)
Definition normalize (raw : string) : string := strip (lower raw).

Definition on_final_result (cfg : voice_config) (clk : clock) (s : assistant)
    (raw : string) : option (assistant * list event) :=
  let text := normalize raw in
  if negb (is_empty text) then _process_speech cfg clk s text
  else Some (s, []).

(** The commands that were handed to [_handle_command]. *)
Definition dispatched (evs : list event) : list string :=
  omap (fun e => match e with Command c => Some c | _ => None end) evs.

(** The texts that were handed to [speak]. *)
Definition spoken (evs : list event) : list string :=
  omap (fun e => match e with Speak t => Some t | _ => None end) evs.

(** The texts that the speech engine played. *)
Definition played (evs : list event) : list string :=
  omap (fun e => match e with Tts t => Some t | _ => None end) evs.

Definition is_lower (s : string) : Prop := lower s = s.

(** [key] occurs in [text] when the case of the letters is ignored. *)
Definition matches_ci (key text : string) : bool :=
  contains (lower key) (lower text).

(** The command that follows the wake phrase in an utterance:
    [text.split(wake_word, 1)[-1].strip()]. *)
Definition trailing_command (cfg : voice_config) (text : string) : string :=
  strip (default text (find_after (wake_phrase cfg) text)).

(** What an observer sees of a step that does not concern the
    [speaking] flag. *)
Definition observe (r : option (assistant * list event))
  : option (bool * list (string * handler) * list event) :=
  (fun p => (listening p.1, command_handlers p.1, p.2)) <$> r.

(** Two states that differ in the [speaking] flag at most. *)
Definition same_but_speaking (s1 s2 : assistant) : Prop :=
  set_speaking false s1 = set_speaking false s2.

Definition default_config : voice_config := {| wake_word := None |}.

(** An assistant with a speech engine, idle, in the middle of a
    playback that another task started. *)
Definition mid_playback : assistant :=
  {| listening := false; speaking := true; _tts_ready := true;
     command_handlers := default_commands;
     on_listening_change := false; on_command_result := false |}.

(** The assistant after the wake phrase alone was heard. *)
Definition woken : assistant := set_listening true init.

Definition noon : clock :=
  {| time_text := "12:00 PM"; date_text := "Tuesday, November 03"; hour := 12 |}.

End Voice.

(* ================================================================== *)
(** * files/alerts.py: the two monitors of [AlertSystem] *)
(* ================================================================== *)

Module Monitors.
Import PyStr Alerts.

(** An item of [medication_reminders]: [med['name']], which must be
    there when the reminder is due, and [med.get("times", [])], a list
    of times of day written "HH:MM". *)
Record reminder : Type := {
  med_name : option string;
  med_times : option (list string)
}.

(** The keys of the [alerts] section that the monitors read:
    [config.get("inactivity_alert_hours", 4)], in whole hours, and
    [config.get("medication_reminders", [])]. *)
Record monitor_config : Type := {
  inactivity_alert_hours : option Z;
  medication_reminders : option (list reminder)
}.

(** An [AlertSystem] with the field [last_motion], a time in
    microseconds like the others. *)
Record monitor : Type := {
  system : alert_system;
  last_motion : Z;
  monitors : monitor_config
}.

Definition with_system (s : alert_system) (m : monitor) : monitor :=
  {| system := s; last_motion := last_motion m; monitors := monitors m |}.

(** [update_motion()] at time [now] *)
Definition update_motion (m : monitor) (now : Z) : monitor :=
  {| system := system m; last_motion := now; monitors := monitors m |}.

(** The threshold in microseconds, the unit of the times. *)
Definition threshold (m : monitor) : Z :=
  default 4 (inactivity_alert_hours (monitors m)) * 3600 * 1000000.

(** [(datetime.now() - self.last_motion).total_seconds() / 3600] *)
Definition hours (elapsed : Z) : PyFloat.float :=
  PyFloat.div_int (PyFloat.total_seconds elapsed) 3600.

(** The thresholds for which [hours > threshold] holds from the first
    microsecond past the threshold on: from 0 to 2^21 hours (some 239
    years). *)
Definition MAX_EXACT_HOURS : Z := 2 ^ 21.

Definition exact_threshold (m : monitor) : Prop :=
  0 ≤ threshold m ≤ MAX_EXACT_HOURS * 3600 * 1000000.

(** What the clock and the formatting give during one turn of
    [check_inactivity]: [datetime.now()] as the loop reads it, the
    text of [hours] with one decimal, and the call of [trigger] that
    follows, with the time that [trigger] reads and the time stamp that
    [_log_alert] writes. *)
Record tick : Type := {
  checked_at : Z;
  hours_text : string;
  triggered_at : Z;
  stamped : string
}.

Definition inactivity_call (t : tick) : call :=
  {| at_time := triggered_at t; stamp_of := stamped t; type_of := "inactivity";
     message_of := "No movement for " +:+ hours_text t +:+ " hours";
     severity_of := "warning" |}.

(** One turn of the loop of [check_inactivity], before the sleep of
    300 seconds.  [hours > threshold] compares a float with the whole
    number of hours of the configuration.  The two times are
    [datetime]s: on a difference that no two [datetime]s have, the model
    leaves the monitor as it is. *)
Definition check_inactivity_step (m : monitor) (t : tick)
  : monitor * list sink_call :=
  let elapsed := checked_at t - last_motion m in
  if (Z.abs elapsed <=? DATETIME_SPAN)
     && PyFloat.gt_int (hours elapsed)
          (default 4 (inactivity_alert_hours (monitors m))) then
    let '(s1, out) := trigger_call (system m) (inactivity_call t) in
    (with_system s1 m, out)
  else (m, []).

(** The first turns of the loop, with no motion between them. *)
Fixpoint check_inactivity (m : monitor) (ts : list tick)
  : monitor * list sink_call :=
  match ts with
  | [] => (m, [])
  | t :: rest =>
      let '(m1, out1) := check_inactivity_step m t in
      let '(m2, out2) := check_inactivity m1 rest in
      (m2, out1 ++ out2)
  end.

(** [current_time in med.get("times", [])] *)
Definition due (current_time : string) (med : reminder) : bool :=
  bool_decide (current_time ∈ default [] (med_times med)).

(** The body of the [for] loop of [check_medication_reminders] for the
    reminders from the [i]-th on.  [clock i] is what the clock gives to
    the [i]-th reminder if it is due: the time that [trigger] reads and
    the time stamp that [_log_alert] writes.  [None] is the [KeyError]
    of [med['name']] on a due reminder that has no name. *)
Fixpoint remind (s : alert_system) (current_time : string)
    (clock : nat → Z * string) (i : nat) (meds : list reminder)
  : option (alert_system * list sink_call) :=
  match meds with
  | [] => Some (s, [])
  | med :: rest =>
      if due current_time med then
        match med_name med with
        | None => None
        | Some name =>
            let '(s1, out1) :=
              trigger s (clock i).1 (clock i).2 "medication"
                ("Time to take " +:+ name) "info" in
            match remind s1 current_time clock (S i) rest with
            | Some (s2, out2) => Some (s2, out1 ++ out2)
            | None => None
            end
        end
      else remind s current_time clock (S i) rest
  end.

(** One turn of the loop of [check_medication_reminders], before the
    sleep of 60 seconds; [current_time] is [now.strftime("%H:%M")]. *)
Definition check_medication_step (m : monitor) (current_time : string)
    (clock : nat → Z * string) : option (monitor * list sink_call) :=
  match remind (system m) current_time clock 0
          (default [] (medication_reminders (monitors m))) with
  | Some (s1, out) => Some (with_system s1 m, out)
  | None => None
  end.

(** The calls that follow one another by at least [w]. *)
Fixpoint spaced (w : Z) (cs : list call) : Prop :=
  match cs with
  | c1 :: ((c2 :: _) as rest) => w ≤ at_time c2 - at_time c1 ∧ spaced w rest
  | _ => True
  end.

(** The lines that a list of accepted calls writes to the log. *)
Definition records (cs : list call) : string :=
  foldr (fun c acc => record_of c +:+ acc) EmptyString cs.

(** A reminder that can be raised: it has a name when it is due. *)
Definition well_named (current_time : string) (med : reminder) : Prop :=
  due current_time med = true → is_Some (med_name med).

(** A monitor on the sample system, and two reminders due at 08:00. *)
Definition sample_monitor : monitor :=
  {| system := sample_system; last_motion := 0;
     monitors :=
       {| inactivity_alert_hours := None;
          medication_reminders :=
            Some [ {| med_name := Some "aspirin"; med_times := Some ["08:00"; "20:00"] |};
                   {| med_name := Some "vitamin D"; med_times := Some ["08:00"] |} ] |} |}.

(** A turn of the inactivity loop [h] hours and [extra] seconds after
    time zero. *)
Definition tick_after (h extra : Z) (text : string) : tick :=
  {| checked_at := (h * 3600 + extra) * 1000000; hours_text := text;
     triggered_at := (h * 3600 + extra) * 1000000 + 1000;
     stamped := "2026-01-01T00:00:00" |}.

(** A clock that advances by one millisecond from reminder to
    reminder, from 08:00:00 on. *)
Definition morning_clock (i : nat) : Z * string :=
  (28800000000 + 1000 * Z.of_nat i, "2026-01-01T08:00:00").

End Monitors.

(* ================================================================== *)
(** * files/sensors.py: bus scan and start-up; the display as subscriber *)
(* ================================================================== *)

Module HubOps.
Import PyStr Sensors.

(** The table [known_addrs] of [scan_i2c]. *)
Definition known_addrs : list (Z * string) :=
  [ (104, "MPU6050"); (87, "MAX30102"); (118, "BME280");
    (119, "BME280-alt"); (90, "MLX90614"); (35, "BH1750") ].

(** ["{:02x}".format(addr)] for an address below 256 *)
Definition hex2 (addr : Z) : string :=
  String (Json.hex_digit (Z.to_N (addr / 16)))
    (String (Json.hex_digit (Z.to_N (addr mod 16))) EmptyString).

(** [known_addrs.get(addr, f"Unknown-0x{addr:02x}")] *)
Definition device_name (addr : Z) : string :=
  default ("Unknown-0x" +:+ hex2 addr) (dict_get addr known_addrs).

(** [scan_i2c()]: the dictionary [found], in the order it is filled.
    [responds addr] tells whether [self._bus.read_byte(addr)] returns.
    The addresses come from [range(0x03, 0x78)]. *)
Definition scan_i2c (h : hub) (responds : Z → bool) : list (Z * string) :=
  if _bus h then
    omap (fun addr => if responds addr then Some (addr, device_name addr) else None)
         (seqZ 3 117)
  else [].

(** The first loop of [start_all]: [probe] on every name of
    [list(self.sensors.keys())].  [env name] is what the hardware
    answers while that sensor is probed. *)
Fixpoint probe_each (h : hub) (names : list string) (env : string → io)
  : hub * list event :=
  match names with
  | [] => (h, [])
  | n :: rest =>
      let '(h1, _, evs1) := probe h n (env n) in
      let '(h2, evs2) := probe_each h1 rest env in
      (h2, evs1 ++ evs2)
  end.

(** The second loop: every sensor is published to every subscriber. *)
Definition publish_all (h : hub) (names : list string) : list event :=
  flat_map (fun n =>
              match get_sensor h n with
              | Some s => publish h n (status s) (value s)
              | None => []
              end) names.

Definition has_read_fn (h : hub) (n : string) : bool :=
  match get_sensor h n with
  | Some s => bool_decide (is_Some (read_fn s))
  | None => false
  end.

(** [start_all()]: the hub after it, its calls, and the names for
    which a polling task is created.  [names] is the order in which the
    dictionary [self.sensors] hands out its keys. *)
Definition start_all (h : hub) (names : list string) (env : string → io)
  : hub * list event * list string :=
  let '(h1, evs1) := probe_each h names env in
  (h1, evs1 ++ publish_all h1 names,
   List.filter (has_read_fn h1) names).

(** A sensor that [probe] cannot try: no bus or no address, and no read
    capability. *)
Definition no_probe_path (h : hub) (s : sensor) : Prop :=
  (if _bus h then addr_truthy (i2c_addr s) else None) = None ∧ read_fn s = None.

(** [DisplayManager.sensor_data] and [update_sensor(name, status,
    value)]. *)
Definition update_sensor (d : gmap string (sensor_status * string))
    (n : string) (st : sensor_status) (v : string)
  : gmap string (sensor_status * string) :=
  <[n := (st, v)]> d.

(** The display as the subscriber [cb] of the hub, as [main.py] wires
    it: each call of the subscriber is a call of [update_sensor]. *)
Definition deliver (cb : nat) (d : gmap string (sensor_status * string))
    (evs : list event) : gmap string (sensor_status * string) :=
  foldl (fun d e =>
           match e with
           | Publish cb' n st v =>
               if decide (cb' = cb) then update_sensor d n st v else d
           | _ => d
           end) d evs.

(** What the polling loop of the sensor [n] may send: a call of a
    subscriber is for [n] and says connected. *)
Definition connected_update (n : string) (e : event) : Prop :=
  match e with
  | Publish _ n' st _ => n' = n ∧ st = Connected
  | _ => True
  end.

(** A call that is not a call of a subscriber for the sensor [n]. *)
Definition not_about (n : string) (e : event) : Prop :=
  match e with
  | Publish _ n' _ _ => n' ≠ n
  | _ => True
  end.

(** The readings that a list of answers holds, [None] for a read that
    raises. *)
Definition readings (envs : list io) : list string :=
  omap read_result envs.

(** The four sensors of live mode, as [main.py] registers them: an
    address each, no read capability. *)
Definition live_hub (bus : bool) : hub :=
  let h0 := {| sensors := ∅; objects := ∅; next_id := 0%nat;
               callbacks := [0%nat]; _bus := bus |} in
  register
    (register
       (register (register h0 "MPU6050" None 100 (Some 104))
          "MAX30102" None 1000 (Some 87))
       "BME280" None 10000 (Some 118))
    "MLX90614" None 5000 (Some 90).

Definition live_names : list string := ["MPU6050"; "MAX30102"; "BME280"; "MLX90614"].

(** A bus on which only the address 0x68 and the address 0x40 answer. *)
Definition two_devices (addr : Z) : bool := (addr =? 104) || (addr =? 64).

End HubOps.

(* ================================================================== *)
(** * files/voice.py: the listening loop and the button *)
(* ================================================================== *)

Module VoiceLoop.
Import PyStr Voice.

(** What reaches the assistant while [listen_continuous] runs: a
    finalized result of the recognizer, with the text it holds, or a
    press of the button, taken between two results. *)
Inductive input : Type :=
| Utterance (raw : string)
| Button.

Definition step (cfg : voice_config) (clk : clock) (s : assistant) (i : input)
  : option (assistant * list event) :=
  match i with
  | Utterance raw => on_final_result cfg clk s raw
  | Button => Some (_on_button_press s)
  end.

(** The loop over the inputs.  [None]: an exception left the loop (it
    is logged by [listen_continuous], which then returns). *)
Fixpoint session (cfg : voice_config) (clk : clock) (s : assistant)
    (ins : list input) : option (assistant * list event) :=
  match ins with
  | [] => Some (s, [])
  | i :: rest =>
      match step cfg clk s i with
      | None => None
      | Some (s1, evs1) =>
          match session cfg clk s1 rest with
          | None => None
          | Some (s2, evs2) => Some (s2, evs1 ++ evs2)
          end
      end
  end.

(** The texts handed to [on_command_result]. *)
Definition results (evs : list event) : list string :=
  omap (fun e => match e with Result t => Some t | _ => None end) evs.

(** The arguments of the calls of [on_listening_change]. *)
Definition notified (evs : list event) : list bool :=
  omap (fun e => match e with ListeningChange b => Some b | _ => None end) evs.

(** The texts handed to [speak] are played when there is a speech
    engine ([tts]), and handed to [on_command_result] when there is a
    speech engine and the callback is set ([shown]). *)
Definition feedback (tts shown : bool) (evs : list event) : Prop :=
  played evs = (if tts then spoken evs else [])
  ∧ results evs = (if tts && shown then spoken evs else []).

(** The keywords that [main.py] registers for the readings. *)
Definition reading_keywords : list string :=
  ["readings"; "sensors"; "vitals"; "status"].

Definition capital_config : voice_config := {| wake_word := Some "Hey Maya" |}.

End VoiceLoop.

(* ================================================================== *)
(** * files/settings.py: [_deep_merge] and [load_config] *)
(* ================================================================== *)

Module Settings.
Import PyStr Json.

(** [_deep_merge(base, override)]: the dictionary [base] after the
    call.  [override] is given as the JSON value it was loaded as; the
    loop runs over its members in their order.  A key whose values are
    dictionaries on both sides is merged in place, any other key is
    assigned. *)
Fixpoint _deep_merge (base : list (list N * json)) (override : json) {struct override}
  : list (list N * json) :=
  match override with
  | JObj items =>
      (fix loop (items base : list (list N * json)) {struct items}
         : list (list N * json) :=
         match items with
         | [] => base
         | (key, value) :: rest =>
             loop rest
               (match dict_get key base, value with
                | Some (JObj b), JObj _ =>
                    dict_set key (JObj (_deep_merge b value)) base
                | _, _ => dict_set key value base
                end)
         end) items base
  | _ => base
  end.

(** The value under a key after the loop has passed it: [old] is
    what [base] held there, [value] what the override gives. *)
Definition merged_value (old : option json) (value : json) : json :=
  match old, value with
  | Some (JObj b), JObj _ => JObj (_deep_merge b value)
  | _, _ => value
  end.

(** [load_config(filepath)] on the defaults [CONFIG].  [file] is the
    text of the file, [None] when it does not exist.  The answer
    [None] is an exception: the text is not JSON, or the value it holds
    has no [items]. *)
Definition load_config (CONFIG : list (list N * json)) (file : option string)
  : option (list (list N * json)) :=
  match file with
  | None => Some CONFIG
  | Some text =>
      match loads text with
      | Some (JObj user_config) => Some (_deep_merge CONFIG (JObj user_config))
      | _ => None
      end
  end.

(** [d[k1][k2]...], [None] where a key is missing or a value on the
    way is no dictionary. *)
Fixpoint lookup_path (path : list (list N)) (d : json) : option json :=
  match path with
  | [] => Some d
  | k :: rest =>
      match d with
      | JObj m =>
          match dict_get k m with
          | Some v => lookup_path rest v
          | None => None
          end
      | _ => None
      end
  end.

Definition is_dict (v : json) : bool :=
  match v with JObj _ => true | _ => false end.

(** The override says nothing about the path: on the way down it
    holds dictionaries until a key of the path is missing. *)
Fixpoint untouched (path : list (list N)) (override : json) : bool :=
  match path, override with
  | k :: rest, JObj m =>
      match dict_get k m with
      | None => true
      | Some v => untouched rest v
      end
  | _, _ => false
  end.

(** A value as Python has it: in a dictionary, and in the dictionaries
    below it, no key comes twice. *)
Fixpoint proper (v : json) : bool :=
  match v with
  | JObj m =>
      bool_decide (NoDup (map fst m))
      && (fix all (m : list (list N * json)) : bool :=
            match m with
            | [] => true
            | (_, x) :: rest => proper x && all rest
            end) m
  | _ => true
  end.

Definition key (s : string) : list N := cps s.

(** The sections [voice] and [alerts] of [CONFIG], without the
    model path. *)
Definition CONFIG_sample : list (list N * json) :=
  [ (key "voice",
     JObj [ (key "wake_word", JStr (cps "hey maya"));
            (key "companion_name", JStr (cps "Maya"));
            (key "stt_engine", JStr (cps "vosk"));
            (key "tts_engine", JStr (cps "espeak-ng"));
            (key "tts_speed", JNum "140");
            (key "tts_pitch", JNum "50");
            (key "language", JStr (cps "en"));
            (key "confidence_threshold", JNum "0.6") ]);
    (key "alerts",
     JObj [ (key "emergency_contacts", JArr []);
            (key "fall_cooldown_seconds", JNum "30");
            (key "inactivity_alert_hours", JNum "4");
            (key "medication_reminders", JArr []) ]) ].

(** A settings file: [{"alerts": {"fall_cooldown_seconds": 60},
    "voice": "off"}]. *)
Definition quoted (s : string) : string := encode_str (cps s).

Definition user_file : string :=
  "{" +:+ quoted "alerts" +:+ ": {" +:+ quoted "fall_cooldown_seconds"
  +:+ ": 60}, " +:+ quoted "voice" +:+ ": " +:+ quoted "off" +:+ "}".

End Settings.
(* ================================================================== *)
(** * Rounding: the facts that the comparisons of elapsed times need *)
(* ================================================================== *)

Section FloatFacts.
Import PyFloat.

Lemma pow2_num_pos (e : Z) : 0 < pow2_num e.
Proof. unfold pow2_num. apply Z.pow_pos_nonneg; lia. Qed.

Lemma pow2_den_pos (e : Z) : 0 < pow2_den e.
Proof. unfold pow2_den. apply Z.pow_pos_nonneg; lia. Qed.

Lemma pow2_num_nonpos (e : Z) : e ≤ 0 → pow2_num e = 1.
Proof. intros H. unfold pow2_num. by rewrite Z.max_l by lia. Qed.

Lemma pow2_den_nonneg (e : Z) : 0 ≤ e → pow2_den e = 1.
Proof. intros H. unfold pow2_den. by rewrite Z.max_l by lia. Qed.

Lemma pow2_num_eq (e : Z) : 0 ≤ e → pow2_num e = 2 ^ e.
Proof. intros H. unfold pow2_num. by rewrite Z.max_r by lia. Qed.

Lemma pow2_den_eq (e : Z) : e ≤ 0 → pow2_den e = 2 ^ (- e).
Proof. intros H. unfold pow2_den. by rewrite Z.max_r by lia. Qed.

(** Going down one exponent doubles the quotient. *)
Lemma pow2_shift (e : Z) :
  pow2_den (e - 1) * pow2_num e = 2 * (pow2_den e * pow2_num (e - 1)).
Proof.
  destruct (Z_le_gt_dec e 0) as [H | H].
  - rewrite (pow2_num_nonpos e), (pow2_num_nonpos (e - 1)) by lia.
    rewrite (pow2_den_eq e), (pow2_den_eq (e - 1)) by lia.
    replace (- (e - 1)) with (1 + - e) by lia.
    rewrite Z.pow_add_r by lia. change (2 ^ 1) with 2. lia.
  - rewrite (pow2_den_nonneg e), (pow2_den_nonneg (e - 1)) by lia.
    rewrite (pow2_num_eq e), (pow2_num_eq (e - 1)) by lia.
    replace e with (1 + (e - 1)) at 1 by lia.
    rewrite Z.pow_add_r by lia. change (2 ^ 1) with 2. lia.
Qed.

(** ** The nearest whole number *)

Lemma round_half_even_near (n d : Z) :
  0 < d →
  d * (2 * round_half_even n d - 1) ≤ 2 * n ≤ d * (2 * round_half_even n d + 1).
Proof.
  intros Hd. unfold round_half_even.
  pose proof (Z.div_mod n d ltac:(lia)) as Hn.
  pose proof (Z.mod_pos_bound n d Hd) as Hr.
  set (q := n / d) in *. set (r := n mod d) in *.
  destruct (2 * r <? d) eqn:E1; [apply Z.ltb_lt in E1; nia |].
  apply Z.ltb_ge in E1.
  destruct (d <? 2 * r) eqn:E2; [apply Z.ltb_lt in E2; nia |].
  apply Z.ltb_ge in E2. destruct (Z.even q); nia.
Qed.

Lemma round_half_even_ge (n d k : Z) :
  0 < d → k * d ≤ n → k ≤ round_half_even n d.
Proof.
  intros Hd Hk. unfold round_half_even.
  pose proof (Z.div_mod n d ltac:(lia)) as Hn.
  pose proof (Z.mod_pos_bound n d Hd) as Hr.
  set (q := n / d) in *. set (r := n mod d) in *.
  assert (Hq : k ≤ q) by nia.
  destruct (2 * r <? d); [lia |]. destruct (d <? 2 * r); [lia |].
  destruct (Z.even q); lia.
Qed.

Lemma round_half_even_le (n d k : Z) :
  0 < d → n ≤ k * d → round_half_even n d ≤ k.
Proof.
  intros Hd Hk. pose proof (round_half_even_near n d Hd) as [Hlo _]. nia.
Qed.

(** More than a half above [k]: the nearest whole number is above [k]. *)
Lemma round_half_even_gt (n d k : Z) :
  0 < d → (2 * k + 1) * d < 2 * n → k + 1 ≤ round_half_even n d.
Proof.
  intros Hd Hk. pose proof (round_half_even_near n d Hd) as [_ Hhi]. nia.
Qed.

(** ** The exponent *)

Lemma binade_spec (n d : Z) :
  0 < n → 0 < d →
  2 ^ 52 * (d * pow2_num (binade n d)) ≤ n * pow2_den (binade n d)
  ∧ n * pow2_den (binade n d) < 2 ^ 53 * (d * pow2_num (binade n d)).
Proof.
  intros Hn Hd.
  pose proof (Z.log2_spec n Hn) as [Hn1 Hn2].
  pose proof (Z.log2_spec d Hd) as [Hd1 Hd2].
  pose proof (Z.log2_nonneg n) as Hln. pose proof (Z.log2_nonneg d) as Hld.
  rewrite !Z.pow_succ_r in * by lia.
  unfold binade. set (e0 := Z.log2 n - Z.log2 d - 52).
  set (A := 2 ^ Z.log2 d) in *. set (B := 2 ^ Z.log2 n) in *.
  assert (HA : 0 < A) by (apply Z.pow_pos_nonneg; lia).
  assert (HB : 0 < B) by (apply Z.pow_pos_nonneg; lia).
  assert (Hbase : 2 ^ 51 * (d * pow2_num e0) < n * pow2_den e0
                  ∧ n * pow2_den e0 < 2 ^ 53 * (d * pow2_num e0)).
  { destruct (Z_le_gt_dec 0 e0) as [He | He].
    - rewrite (pow2_den_nonneg e0), (pow2_num_eq e0) by lia.
      set (E := 2 ^ e0). assert (HE : 0 < E) by (apply Z.pow_pos_nonneg; lia).
      assert (HBE : B = E * A * 2 ^ 52).
      { unfold B, E, A. rewrite <- !Z.pow_add_r by lia. f_equal. lia. }
      change (2 ^ 51) with 2251799813685248. change (2 ^ 52) with 4503599627370496 in *.
      change (2 ^ 53) with 9007199254740992. nia.
    - rewrite (pow2_num_nonpos e0), (pow2_den_eq e0) by lia.
      set (F := 2 ^ (- e0)). assert (HF : 0 < F) by (apply Z.pow_pos_nonneg; lia).
      assert (HBF : B * F = A * 2 ^ 52).
      { unfold B, F, A. rewrite <- !Z.pow_add_r by lia. f_equal. lia. }
      change (2 ^ 51) with 2251799813685248. change (2 ^ 52) with 4503599627370496 in *.
      change (2 ^ 53) with 9007199254740992. nia. }
  destruct Hbase as [Hlo Hhi].
  destruct (n * pow2_den e0 <? 2 ^ 52 * (d * pow2_num e0)) eqn:E.
  - apply Z.ltb_lt in E.
    pose proof (pow2_shift e0) as Hs.
    pose proof (pow2_num_pos e0) as Q0. pose proof (pow2_den_pos e0) as P0.
    pose proof (pow2_num_pos (e0 - 1)) as Q1. pose proof (pow2_den_pos (e0 - 1)) as P1.
    set (p0 := pow2_den e0) in *. set (q0 := pow2_num e0) in *.
    set (p1 := pow2_den (e0 - 1)) in *. set (q1 := pow2_num (e0 - 1)) in *.
    change (2 ^ 51) with 2251799813685248 in *.
    change (2 ^ 52) with 4503599627370496 in *.
    change (2 ^ 53) with 9007199254740992 in *.
    assert (H1 : (n * p1) * q0 = 2 * q1 * (n * p0)) by nia.
    split.
    + apply (Z.mul_le_mono_pos_r _ _ q0 Q0). nia.
    + apply (Z.mul_lt_mono_pos_r q0 _ _ Q0). nia.
  - apply Z.ltb_ge in E. split; [exact E | exact Hhi].
Qed.

(** ** The nearest float of a positive quotient *)

Lemma nearest_pos (n d : Z) :
  0 < n →
  nearest n d
  = {| mant := round_half_even (n * pow2_den (binade n d)) (d * pow2_num (binade n d));
       expo := binade n d |}.
Proof.
  intros Hn. unfold nearest.
  rewrite (proj2 (Z.eqb_neq n 0)) by lia.
  rewrite Z.abs_eq, Z.sgn_pos by lia. cbv zeta. f_equal; lia.
Qed.

Lemma nearest_neg (n d : Z) :
  n < 0 →
  nearest n d
  = {| mant := - round_half_even (- n * pow2_den (binade (- n) d))
                   (d * pow2_num (binade (- n) d));
       expo := binade (- n) d |}.
Proof.
  intros Hn. unfold nearest.
  rewrite (proj2 (Z.eqb_neq n 0)) by lia.
  rewrite Z.abs_neq, Z.sgn_neg by lia. cbv zeta. f_equal; lia.
Qed.

(** The significand of the nearest float lies between 2^52 and 2^53. *)
Lemma mant_bounds (n d : Z) :
  0 < n → 0 < d →
  2 ^ 52 ≤ round_half_even (n * pow2_den (binade n d)) (d * pow2_num (binade n d))
  ≤ 2 ^ 53.
Proof.
  intros Hn Hd. destruct (binade_spec n d Hn Hd) as [Hlo Hhi].
  pose proof (pow2_num_pos (binade n d)) as HQ.
  split.
  - apply round_half_even_ge; [nia | lia].
  - apply round_half_even_le; [nia | lia].
Qed.

(** A quotient below 2^53 has an exponent that is not positive. *)
Lemma binade_nonpos (n d : Z) :
  0 < n → 0 < d → n < 2 ^ 53 * d → binade n d ≤ 0.
Proof.
  intros Hn Hd Hlt. destruct (binade_spec n d Hn Hd) as [Hlo _].
  destruct (Z_le_gt_dec (binade n d) 0) as [H | H]; [exact H | exfalso].
  rewrite (pow2_den_nonneg (binade n d)), (pow2_num_eq (binade n d)) in Hlo by lia.
  assert (H2 : 2 ^ 1 ≤ 2 ^ binade n d) by (apply Z.pow_le_mono_r; lia).
  change (2 ^ 1) with 2 in H2. change (2 ^ 52) with 4503599627370496 in *.
  change (2 ^ 53) with 9007199254740992 in *. nia.
Qed.

(** A quotient below 2^33 has an exponent of -20 at most: the floats
    around it are less than a microsecond apart. *)
Lemma binade_fine (n d : Z) :
  0 < n → 0 < d → n < 2 ^ 33 * d →
  binade n d ≤ 0 ∧ 2 ^ 20 ≤ pow2_den (binade n d).
Proof.
  intros Hn Hd Hlt. destruct (binade_spec n d Hn Hd) as [Hlo _].
  assert (He : binade n d ≤ 0).
  { apply binade_nonpos; try done.
    change (2 ^ 33) with 8589934592 in *. change (2 ^ 53) with 9007199254740992. nia. }
  split; [exact He |].
  rewrite (pow2_num_nonpos _ He) in Hlo. rewrite (pow2_den_eq _ He) in *.
  destruct (Z_le_gt_dec 20 (- binade n d)) as [H | H].
  - apply Z.pow_le_mono_r; lia.
  - exfalso. assert (H2 : 2 ^ (- binade n d) ≤ 2 ^ 19) by (apply Z.pow_le_mono_r; lia).
    change (2 ^ 19) with 524288 in H2. change (2 ^ 33) with 8589934592 in *.
    change (2 ^ 52) with 4503599627370496 in *. nia.
Qed.

(** ** [total_seconds] against a whole number of seconds *)

(** For a window between 0 and 2^33 seconds, the comparison of
    [total_seconds()] with the window is the comparison of the whole
    microseconds. *)
Lemma total_seconds_lt_exact (us W : Z) :
  0 ≤ W ≤ 2 ^ 33 →
  lt_int (total_seconds us) W = (us <? W * 1000000).
Proof.
  intros [HW0 HW1]. unfold total_seconds, true_div, lt_int.
  change (2 ^ 33) with 8589934592 in *.
  destruct (Z.lt_trichotomy us 0) as [Hneg | [-> | Hpos]].
  - rewrite (nearest_neg us 1000000 Hneg). cbn [mant expo].
    destruct (mant_bounds (- us) 1000000 ltac:(lia) ltac:(lia)) as [Hm _].
    pose proof (pow2_num_pos (binade (- us) 1000000)) as HQ.
    pose proof (pow2_den_pos (binade (- us) 1000000)) as HP.
    change (2 ^ 52) with 4503599627370496 in *.
    rewrite (proj2 (Z.ltb_lt us (W * 1000000))) by lia.
    apply Z.ltb_lt. nia.
  - cbn. destruct W; reflexivity.
  - rewrite (nearest_pos us 1000000 Hpos). cbn [mant expo].
    set (e := binade us 1000000).
    destruct (binade_spec us 1000000 Hpos ltac:(lia)) as [Hlo Hhi]. fold e in Hlo, Hhi.
    destruct (mant_bounds us 1000000 Hpos ltac:(lia)) as [Hm _]. fold e in Hm.
    pose proof (pow2_num_pos e) as HQ. pose proof (pow2_den_pos e) as HP.
    destruct (us <? W * 1000000) eqn:E.
    + apply Z.ltb_lt in E. apply Z.ltb_lt.
      destruct (binade_fine us 1000000 Hpos ltac:(lia)) as [He HP20]; [nia |].
      fold e in He, HP20. rewrite (pow2_num_nonpos e He) in *.
      pose proof (round_half_even_near (us * pow2_den e) (1000000 * 1)
                    ltac:(lia)) as [Hnear _].
      change (2 ^ 20) with 1048576 in HP20. nia.
    + apply Z.ltb_ge in E. apply Z.ltb_ge.
      destruct (Z_le_gt_dec e 0) as [He | He].
      * rewrite (pow2_num_nonpos e He) in *. rewrite Z.mul_1_r.
        apply round_half_even_ge; [lia | nia].
      * rewrite (pow2_den_nonneg e) in * by lia. rewrite (pow2_num_eq e) in * by lia.
        assert (H2 : 2 ^ 1 ≤ 2 ^ e) by (apply Z.pow_le_mono_r; lia).
        change (2 ^ 1) with 2 in H2. change (2 ^ 52) with 4503599627370496 in *.
        nia.
Qed.

End FloatFacts.

(* ================================================================== *)
(** * Properties of the text functions and of the JSON codec *)
(* ================================================================== *)

(** A fact about one character that holds by computation: checked on
  each of the 256 characters. *)
Ltac by_ascii_cases a :=
destruct a as [[] [] [] [] [] [] [] []]; reflexivity.

Section TextFacts.
Import PyStr.

Lemma append_cons (c : ascii) (s t : string) :
  String c s +:+ t = String c (s +:+ t).
Proof. reflexivity. Qed.

Lemma append_nil_l (t : string) : EmptyString +:+ t = t.
Proof. reflexivity. Qed.

Lemma append_nil_r (s : string) : s +:+ EmptyString = s.
Proof. induction s as [|c s IH]; [reflexivity |]. by rewrite append_cons, IH. Qed.

Lemma append_assoc (s t u : string) : (s +:+ t) +:+ u = s +:+ (t +:+ u).
Proof.
  induction s as [|c s IH]; [reflexivity |]. by rewrite !append_cons, IH.
Qed.

Lemma length_append (s t : string) :
  String.length (s +:+ t) = (String.length s + String.length t)%nat.
Proof.
  induction s as [|c s IH]; [reflexivity |]. rewrite append_cons. simpl. by rewrite IH.
Qed.

(** ** [strip] *)

Lemma lstrip_nonspace (c : ascii) (s : string) :
  is_space c = false → lstrip (String c s) = String c s.
Proof. intros H. simpl. by rewrite H. Qed.

Lemma rstrip_nonempty_keep (s : string) (c : ascii) :
  is_space c = false → rstrip (s +:+ String c EmptyString) = s +:+ String c EmptyString.
Proof.
  intros H. induction s as [|a s IH].
  - simpl. by rewrite H.
  - rewrite append_cons. simpl. rewrite IH.
    destruct s; by rewrite ?append_cons.
Qed.

(** A trailing line feed is stripped, and nothing else when the
    character before it is not white space. *)
Lemma rstrip_line (s : string) (c : ascii) :
  is_space c = false →
  rstrip (s +:+ String c (String LF EmptyString)) = s +:+ String c EmptyString.
Proof.
  intros H. induction s as [|a s IH].
  - simpl. by rewrite H.
  - rewrite !append_cons. simpl. rewrite IH.
    destruct s; by rewrite ?append_cons.
Qed.

(** ** Lines *)

(** ** Lines *)

Lemma one_line_app (s t : string) :
  one_line (s +:+ t) = one_line s && one_line t.
Proof.
  induction s as [|c s IH]; [reflexivity |].
  rewrite append_cons. simpl. rewrite IH. by rewrite andb_assoc.
Qed.

(** A record without a line end in it, written with its line feed, is
    read back as one line. *)
Lemma lines_from_one_line (rec : string) :
  ∀ cur, one_line rec = true →
  lines_from cur (rec +:+ String LF EmptyString)
  = [cur +:+ rec +:+ String LF EmptyString].
Proof.
  induction rec as [|c r IH]; intros cur H.
  - reflexivity.
  - simpl in H. apply andb_true_iff in H as [Hc Hr].
    apply andb_true_iff in Hc as [Hlf Hcr].
    apply negb_true_iff in Hlf, Hcr.
    rewrite append_cons. cbn [lines_from]. rewrite Hlf, Hcr.
    rewrite (IH _ Hr). by rewrite append_assoc.
Qed.

Lemma line_ended_cons (c : ascii) (r : string) :
  line_ended (String c r) = true →
  (r = EmptyString ∧ c = LF) ∨ (r ≠ EmptyString ∧ line_ended r = true).
Proof.
  destruct r as [|c' r']; simpl.
  - intros H. left. split; [reflexivity |]. by apply Ascii.eqb_eq.
  - intros H. right. split; [discriminate | exact H].
Qed.

Lemma line_ended_app_lf (s : string) :
  line_ended (s +:+ String LF EmptyString) = true.
Proof.
  induction s as [|c s IH]; [reflexivity |].
  rewrite append_cons. destruct s as [|c' s']; [reflexivity |].
  rewrite append_cons in *. exact IH.
Qed.

(** After complete lines, what is appended is read as lines of its
    own. *)
Lemma lines_from_app_ended (b : string) (n : nat) :
  ∀ a cur, (String.length a ≤ n)%nat →
  line_ended a = true → (a = EmptyString → cur = EmptyString) →
  lines_from cur (a +:+ b) = lines_from cur a ++ lines b.
Proof.
  induction n as [|n IH]; intros a cur Hn Ha Hcur.
  - destruct a; [| simpl in Hn; lia]. by rewrite (Hcur eq_refl).
  - destruct a as [|c r]; [by rewrite (Hcur eq_refl) |].
    simpl in Hn. rewrite append_cons. cbn [lines_from].
    destruct (line_ended_cons c r Ha) as [[-> ->] | [Hr Hre]].
    + reflexivity.
    + destruct (Ascii.eqb c LF) eqn:Elf.
      * rewrite <- app_comm_cons. f_equal. apply IH; [lia | exact Hre | done].
      * destruct (Ascii.eqb c CR) eqn:Ecr.
        -- destruct r as [|c' r']; [done |]. rewrite append_cons.
           destruct (Ascii.eqb c' LF) eqn:Elf'.
           ++ rewrite <- app_comm_cons. f_equal. simpl in Hn.
              apply IH; [lia | | done].
              destruct r' as [|c2 r2]; [reflexivity | exact Hre].
           ++ rewrite <- app_comm_cons. f_equal. rewrite <- append_cons.
              apply IH; [lia | exact Hre | done].
        -- apply IH; [lia | exact Hre | done].
Qed.

Lemma lines_app_record (content rec : string) :
  line_ended content = true → one_line rec = true →
  lines (content +:+ rec +:+ String LF EmptyString)
  = lines content ++ [rec +:+ String LF EmptyString].
Proof.
  intros Hc Hr. unfold lines.
  rewrite (lines_from_app_ended _ (String.length content)); [| lia | exact Hc | done].
  unfold lines. by rewrite (lines_from_one_line rec EmptyString Hr).
Qed.

End TextFacts.

Section JsonFacts.
Import PyStr Json.

Lemma cps_cons (a : ascii) (s : string) :
  cps (String a s) = N_of_ascii a :: cps s.
Proof. reflexivity. Qed.

(** The scanner reads an encoded character back. *)
Lemma scan_encode_char (a : ascii) (rest : string) :
  scan (SPlain None) (encode_char (N_of_ascii a) +:+ rest)
  = produce [N_of_ascii a] (scan (SPlain None) rest).
Proof. by_ascii_cases a. Qed.

(** [scanstring] reads back the text that [encode_str] wrote. *)
Lemma scan_encode_chars (s rest : string) :
  scan (SPlain None) (encode_chars (cps s) +:+ String QUOTE rest)
  = Some (cps s, rest).
Proof.
  induction s as [|a s IH]; [reflexivity |].
  rewrite cps_cons. cbn [encode_chars].
  rewrite append_assoc, scan_encode_char, IH. reflexivity.
Qed.

Lemma encode_str_app (s : list N) (rest : string) :
  encode_str s +:+ rest = String QUOTE (encode_chars s +:+ String QUOTE rest).
Proof.
  unfold encode_str. by rewrite append_cons, append_assoc, append_cons.
Qed.

Lemma scanstring_encode_str (s rest : string) :
  scanstring (encode_chars (cps s) +:+ String QUOTE rest) = Some (cps s, rest).
Proof. apply scan_encode_chars. Qed.

(** A string value is read back, with any fuel. *)
Lemma scan_once_encode_str (fuel : nat) (s rest : string) :
  scan_once (S fuel) (encode_str (cps s) +:+ rest) = Some (JStr (cps s), rest).
Proof.
  rewrite encode_str_app. cbn [scan_once].
  change (Ascii.eqb QUOTE QUOTE) with true. cbv iota.
  by rewrite scanstring_encode_str.
Qed.

Lemma dumps_obj (members : list (list N * json)) :
  dumps (JObj members) = "{" +:+ join ", " (map member_text members) +:+ "}".
Proof. reflexivity. Qed.

Lemma member_text_str (k v rest : string) :
  member_text (cps k, JStr (cps v)) +:+ rest
  = String QUOTE (encode_chars (cps k) +:+ String QUOTE
      (String ":" (String " " (String QUOTE
         (encode_chars (cps v) +:+ String QUOTE rest))))).
Proof.
  unfold member_text. cbn [fst snd dumps].
  by rewrite !append_assoc, !encode_str_app.
Qed.

Lemma skip_ws_keep (c : ascii) (r : string) :
  is_ws c = false → skip_ws (String c r) = String c r.
Proof. intros H. simpl. by rewrite H. Qed.

Lemma skip_ws_skip (c : ascii) (r : string) :
  is_ws c = true → skip_ws (String c r) = skip_ws r.
Proof. intros H. simpl. by rewrite H. Qed.

Lemma skip_ws_member (kv : string * string) (rest : string) :
  skip_ws (member_text (cps kv.1, JStr (cps kv.2)) +:+ rest)
  = member_text (cps kv.1, JStr (cps kv.2)) +:+ rest.
Proof. rewrite member_text_str. by apply skip_ws_keep. Qed.

(** One step of each reader. *)
Lemma parse_members_unfold (fuel : nat) (r : string) :
  parse_members (S fuel) (String QUOTE r)
  = match scanstring r with
    | None => None
    | Some (k, r1) =>
        match skip_ws r1 with
        | String c2 r2 =>
            if Ascii.eqb c2 ":" then
              match scan_once fuel (skip_ws r2) with
              | None => None
              | Some (v, r3) =>
                  match skip_ws r3 with
                  | String c4 r4 =>
                      if Ascii.eqb c4 "}" then Some ([(k, v)], r4)
                      else if Ascii.eqb c4 "," then
                        match parse_members fuel (skip_ws r4) with
                        | Some (kvs, r5) => Some ((k, v) :: kvs, r5)
                        | None => None
                        end
                      else None
                  | EmptyString => None
                  end
              end
            else None
        | EmptyString => None
        end
    end.
Proof. reflexivity. Qed.

Lemma scan_once_object (fuel : nat) (r r1 : string) :
  skip_ws r = String QUOTE r1 →
  scan_once (S fuel) (String "{" r)
  = match parse_members fuel (String QUOTE r1) with
    | Some (kvs, r2) => Some (JObj (dict_of_pairs kvs), r2)
    | None => None
    end.
Proof. intros H. cbn [scan_once]. by rewrite H. Qed.

(** A member with a string value, and what the reader does after it. *)
Lemma parse_members_member (fuel : nat) (k v rest : string) :
  parse_members (S (S fuel)) (member_text (cps k, JStr (cps v)) +:+ rest)
  = match skip_ws rest with
    | String c4 r4 =>
        if Ascii.eqb c4 "}" then Some ([(cps k, JStr (cps v))], r4)
        else if Ascii.eqb c4 "," then
          match parse_members (S fuel) (skip_ws r4) with
          | Some (kvs, r5) => Some ((cps k, JStr (cps v)) :: kvs, r5)
          | None => None
          end
        else None
    | EmptyString => None
    end.
Proof.
  rewrite member_text_str, parse_members_unfold, scanstring_encode_str.
  rewrite skip_ws_keep by reflexivity.
  change (Ascii.eqb ":" ":") with true. cbv iota.
  rewrite skip_ws_skip, skip_ws_keep by reflexivity.
  rewrite <- encode_str_app, scan_once_encode_str. reflexivity.
Qed.

Lemma join_cons2 (sep p q : string) (rest : list string) :
  join sep (p :: q :: rest) = p +:+ sep +:+ join sep (q :: rest).
Proof. reflexivity. Qed.

Lemma skip_ws_members (kvs : list (string * string)) (rest : string) :
  kvs ≠ [] →
  skip_ws (join ", " (map member_text (str_dict kvs)) +:+ rest)
  = join ", " (map member_text (str_dict kvs)) +:+ rest.
Proof.
  destruct kvs as [|kv [|kv2 kvs]]; [done | |]; intros _.
  - apply skip_ws_member.
  - cbn [str_dict map]. rewrite join_cons2, append_assoc. apply skip_ws_member.
Qed.

(** The members of a dictionary of strings are read back, given one
    unit of fuel for each member and one more. *)
Lemma parse_members_str_dict (kvs : list (string * string)) :
  ∀ fuel rest, kvs ≠ [] → (length kvs < fuel)%nat →
  parse_members fuel (join ", " (map member_text (str_dict kvs)) +:+ String "}" rest)
  = Some (str_dict kvs, rest).
Proof.
  induction kvs as [|kv kvs IH]; intros fuel rest Hne Hfuel; [done |].
  destruct fuel as [|[|fuel]]; [simpl in Hfuel; lia | simpl in Hfuel; lia |].
  destruct kvs as [|kv2 kvs].
  - cbn [str_dict map join]. rewrite parse_members_member.
    rewrite skip_ws_keep by reflexivity. reflexivity.
  - change (str_dict (kv :: kv2 :: kvs))
      with ((cps kv.1, JStr (cps kv.2)) :: str_dict (kv2 :: kvs)).
    cbn [map]. change (map member_text (str_dict (kv2 :: kvs)))
      with (member_text (cps kv2.1, JStr (cps kv2.2)) :: map member_text (str_dict kvs)).
    rewrite join_cons2.
    change (member_text (cps kv2.1, JStr (cps kv2.2)) :: map member_text (str_dict kvs))
      with (map member_text (str_dict (kv2 :: kvs))).
    rewrite !append_assoc, parse_members_member.
    rewrite append_cons, skip_ws_keep by reflexivity.
    change (Ascii.eqb "," "}") with false. change (Ascii.eqb "," ",") with true.
    cbv iota. rewrite append_cons, skip_ws_skip by reflexivity.
    rewrite append_nil_l, skip_ws_members by done.
    rewrite IH; [reflexivity | done | simpl in *; lia].
Qed.

Lemma length_member_text (kv : list N * json) :
  (1 ≤ String.length (member_text kv))%nat.
Proof.
  unfold member_text, encode_str. rewrite append_cons. simpl. lia.
Qed.

Lemma length_join_members (l : list (list N * json)) :
  (length l ≤ String.length (join ", " (map member_text l)))%nat.
Proof.
  induction l as [|x [|y l] IH]; [simpl; lia | |].
  - cbn [map join length]. apply length_member_text.
  - cbn [map]. rewrite join_cons2, !length_append.
    cbn [map] in IH. pose proof (length_member_text x). simpl in *. lia.
Qed.

(** [loads] reads back what [dumps] writes for a dictionary of
    strings with distinct keys. *)
Lemma loads_dumps_str_dict (kvs : list (string * string)) :
  kvs ≠ [] →
  dict_of_pairs (str_dict kvs) = str_dict kvs →
  loads (dumps (JObj (str_dict kvs))) = Some (JObj (str_dict kvs)).
Proof.
  intros Hne Hkeys. unfold loads. rewrite dumps_obj.
  set (body := join ", " (map member_text (str_dict kvs))).
  rewrite append_cons, append_nil_l.
  rewrite skip_ws_keep by reflexivity.
  assert (Hq : ∃ r1, body +:+ "}" = String QUOTE r1).
  { unfold body. destruct kvs as [|kv [|kv2 kvs]]; [done | |].
    - cbn [str_dict map join]. rewrite member_text_str. eauto.
    - cbn [str_dict map]. rewrite join_cons2, !append_assoc, member_text_str. eauto. }
  destruct Hq as [r1 Hq].
  rewrite (scan_once_object _ _ r1).
  - rewrite <- Hq. unfold body.
    rewrite parse_members_str_dict; [| done |].
    + by rewrite Hkeys.
    + cbn [String.length]. rewrite length_append.
      pose proof (length_join_members (str_dict kvs)) as Hlen.
      unfold str_dict in Hlen at 1. rewrite length_map in Hlen. simpl. lia.
  - rewrite <- Hq. unfold body. by apply skip_ws_members.
Qed.

(** C9, the codec part: a record of the log is read back as the
    dictionary it was written from. *)
Lemma loads_dumps_entry (stamp T msg sev : string) :
  loads (dumps (Alerts.entry stamp T msg sev)) = Some (Alerts.entry stamp T msg sev).
Proof.
  apply (loads_dumps_str_dict
           [("timestamp", stamp); ("type", T); ("message", msg); ("severity", sev)]);
    [done | reflexivity].
Qed.

End JsonFacts.

(* ================================================================== *)
(** * Properties of [AlertSystem]: the cooldown gate *)
(* ================================================================== *)

Section AlertCooldown.
Import PyStr Json Alerts.

(** For a cooldown between 0 and 2^33 seconds the check of [trigger]
    is the comparison of the whole microseconds. *)
Lemma in_cooldown_exact (s : alert_system) (now : Z) (T : string) :
  exact_window s →
  in_cooldown s now T
  = match _cooldowns s !! T with
    | Some last => now - last <? cooldown s
    | None => false
    end.
Proof.
  intros [H0 H1]. unfold in_cooldown, cooldown in *.
  destruct (_cooldowns s !! T) as [last|]; [| reflexivity].
  apply total_seconds_lt_exact. unfold MAX_EXACT_SECONDS in H1. lia.
Qed.

Lemma in_cooldown_true (s : alert_system) (now : Z) (T : string) :
  exact_window s →
  in_cooldown s now T = true ↔
  ∃ last, _cooldowns s !! T = Some last ∧ now - last < cooldown s.
Proof.
  intros Hw. rewrite (in_cooldown_exact s now T Hw).
  destruct (_cooldowns s !! T) as [last|]; split.
  - intros H. exists last. split; [reflexivity | lia].
  - intros (l & Hl & Hlt). injection Hl as <-. lia.
  - discriminate.
  - intros (l & Hl & _). discriminate.
Qed.

Lemma in_cooldown_false (s : alert_system) (now : Z) (T : string) :
  exact_window s →
  in_cooldown s now T = false ↔
  (_cooldowns s !! T = None
   ∨ ∃ last, _cooldowns s !! T = Some last ∧ cooldown s ≤ now - last).
Proof.
  intros Hw. rewrite (in_cooldown_exact s now T Hw).
  destruct (_cooldowns s !! T) as [last|]; split.
  - intros H. right. exists last. split; [reflexivity | lia].
  - intros [Hn | (l & Hl & Hle)]; [discriminate |]. injection Hl as <-. lia.
  - intros _. by left.
  - reflexivity.
Qed.

(** The check looks at the entry of the type and at the configuration
    only. *)
Lemma in_cooldown_same (s s' : alert_system) (now : Z) (T : string) :
  _cooldowns s' !! T = _cooldowns s !! T → config s' = config s →
  in_cooldown s' now T = in_cooldown s now T.
Proof. intros H1 H2. unfold in_cooldown. by rewrite H1, H2. Qed.

Lemma trigger_suppressed s now stamp T msg sev :
  in_cooldown s now T = true → trigger s now stamp T msg sev = (s, []).
Proof. intros H. unfold trigger. by rewrite H. Qed.

Lemma trigger_accepted s now stamp T msg sev :
  in_cooldown s now T = false →
  trigger s now stamp T msg sev =
    (accepted_state s now stamp T msg sev,
     (if on_alert_visual s then [Visual T msg] else [])
     ++ (if String.eqb sev "critical" && on_alert_voice s
         then [Voice ("Alert! " +:+ msg)] else [])).
Proof. intros H. unfold trigger. by rewrite H. Qed.

Lemma visual_calls_app (out1 out2 : list sink_call) :
  visual_calls (out1 ++ out2) = visual_calls out1 ++ visual_calls out2.
Proof. apply filter_app. Qed.

Lemma visual_calls_accepted (reg b : bool) (T msg t : string) :
  visual_calls ((if reg then [Visual T msg] else [])
                ++ (if b then [Voice t] else []))
  = if reg then [Visual T msg] else [].
Proof. by destruct reg, b. Qed.

(** What one accepted call does. *)
Lemma trigger_accepted_effects s now stamp T msg sev :
  in_cooldown s now T = false →
  let r := trigger s now stamp T msg sev in
  _cooldowns r.1 = <[T := now]> (_cooldowns s)
  ∧ log_file r.1 = Some (log_text s +:+ record_line stamp T msg sev)
  ∧ visual_calls r.2 = (if on_alert_visual s then [Visual T msg] else [])
  ∧ cooldown r.1 = cooldown s
  ∧ on_alert_visual r.1 = on_alert_visual s.
Proof.
  intros H. rewrite (trigger_accepted _ _ _ _ _ _ H). simpl.
  repeat split. apply visual_calls_accepted.
Qed.

(** A call of [trigger] changes neither the configuration nor the
    registration of the sinks. *)
Lemma trigger_frame s now stamp T msg sev :
  let s' := (trigger s now stamp T msg sev).1 in
  cooldown s' = cooldown s ∧ on_alert_visual s' = on_alert_visual s
  ∧ on_alert_voice s' = on_alert_voice s.
Proof.
  unfold trigger. destruct (in_cooldown s now T); simpl; auto.
Qed.

(** A call for one type leaves the entries of the other types alone. *)
Lemma trigger_other_type s now stamp T msg sev T' :
  T ≠ T' →
  _cooldowns (trigger s now stamp T msg sev).1 !! T' = _cooldowns s !! T'.
Proof.
  intros Hne. unfold trigger. destruct (in_cooldown s now T); simpl; [reflexivity |].
  by rewrite lookup_insert_ne.
Qed.

Lemma run_cons s c cs :
  run s (c :: cs)
  = ((run (trigger_call s c).1 cs).1,
     (trigger_call s c).2 ++ (run (trigger_call s c).1 cs).2).
Proof.
  simpl. destruct (trigger_call s c) as [s1 out1]. simpl.
  by destruct (run s1 cs) as [s2 out2].
Qed.

Lemma trigger_config s now stamp T msg sev :
  config (trigger s now stamp T msg sev).1 = config s.
Proof. unfold trigger. by destruct (in_cooldown s now T). Qed.

(** Calls that the gate suppresses for [T], mixed with any calls for
    other types, leave the entry of [T] where it was. *)
Lemma run_keeps_entry (T : string) (t0 : Z) (cs : list call) :
  ∀ s0 s, _cooldowns s !! T = Some t0 → _cooldowns s0 !! T = Some t0 →
  config s = config s0 →
  Forall (fun c' => type_of c' = T → in_cooldown s0 (at_time c') T = true) cs →
  _cooldowns (run s cs).1 !! T = Some t0 ∧ config (run s cs).1 = config s0.
Proof.
  induction cs as [|c cs IH]; intros s0 s Hs Hs0 Hcfg Hall; [by split |].
  apply Forall_cons in Hall as [Hc Hall].
  rewrite run_cons. cbn [fst].
  pose proof (trigger_config s (at_time c) (stamp_of c) (type_of c)
                (message_of c) (severity_of c)) as Hcd.
  fold (trigger_call s c) in Hcd.
  assert (Hkeep : _cooldowns (trigger_call s c).1 !! T = Some t0).
  { destruct (decide (type_of c = T)) as [Heq | Hne].
    - unfold trigger_call. rewrite trigger_suppressed; [exact Hs |].
      rewrite Heq. rewrite <- (Hc Heq). apply in_cooldown_same; congruence.
    - unfold trigger_call. rewrite trigger_other_type; [exact Hs | exact Hne]. }
  apply (IH s0 (trigger_call s c).1 Hkeep Hs0); [congruence | exact Hall].
Qed.

(** A call that comes at least the cooldown after the entry of its
    type, the two times being [datetime]s, passes the check, whatever the
    cooldown. *)
Lemma in_cooldown_passed (s : alert_system) (now last : Z) (T : string) :
  _cooldowns s !! T = Some last →
  cooldown s ≤ now - last → Z.abs (now - last) ≤ DATETIME_SPAN →
  in_cooldown s now T = false.
Proof.
  intros Hl Hge Hspan. unfold in_cooldown, cooldown in *. rewrite Hl.
  set (W := default 30 (fall_cooldown_seconds (config s))) in *.
  remember (now - last) as us eqn:Hus. clear Hus. unfold DATETIME_SPAN in Hspan.
  unfold PyFloat.total_seconds, PyFloat.true_div, PyFloat.lt_int.
  apply Z.ltb_ge.
  destruct (Z.lt_trichotomy us 0) as [Hneg | [Hz | Hpos]].
  - rewrite (nearest_neg us 1000000 Hneg). cbn [PyFloat.mant PyFloat.expo].
    assert (He : PyFloat.binade (- us) 1000000 ≤ 0).
    { apply binade_nonpos; [lia | lia |].
      change (2 ^ 53) with 9007199254740992. lia. }
    pose proof (pow2_den_pos (PyFloat.binade (- us) 1000000)) as HP.
    rewrite (pow2_num_nonpos _ He).
    assert (Hle : PyFloat.round_half_even
                    (- us * PyFloat.pow2_den (PyFloat.binade (- us) 1000000))
                    (1000000 * 1)
                  ≤ - W * PyFloat.pow2_den (PyFloat.binade (- us) 1000000)).
    { apply round_half_even_le; [lia | nia]. }
    lia.
  - subst us. change (PyFloat.nearest 0 1000000) with {| PyFloat.mant := 0; PyFloat.expo := 0 |}.
    cbn [PyFloat.mant PyFloat.expo].
    change (PyFloat.pow2_den 0) with 1. change (PyFloat.pow2_num 0) with 1. lia.
  - rewrite (nearest_pos us 1000000 Hpos). cbn [PyFloat.mant PyFloat.expo].
    assert (He : PyFloat.binade us 1000000 ≤ 0).
    { apply binade_nonpos; [lia | lia |].
      change (2 ^ 53) with 9007199254740992. lia. }
    pose proof (pow2_den_pos (PyFloat.binade us 1000000)) as HP.
    rewrite (pow2_num_nonpos _ He), Z.mul_1_r.
    apply round_half_even_ge; [lia | nia].
Qed.

(** C1, for a cooldown between 0 and 2^33 seconds.  The cooldown gate
    of [trigger].  A call made while the time since the last accepted
    call of its type is below the cooldown does nothing: the state, and
    with it the log, is as before, and no sink is called.  A call made
    when that time is at least the cooldown, or for a type that has no
    entry yet, records its time, appends its one record to the log and
    calls the visual sink (when one is registered) once.  Hence of two
    calls for one type, the first of them accepted, the second adds
    nothing when it comes within the cooldown, and adds its own record
    and its own notification when it comes at least the cooldown
    later. *)
Theorem trigger_cooldown_gate (s : alert_system) (c1 c2 : call) :
  exact_window s →
  let T := type_of c1 in
  let W := cooldown s in
  ((∃ last, _cooldowns s !! T = Some last ∧ at_time c1 - last < W) →
     trigger_call s c1 = (s, []))
  ∧ ((_cooldowns s !! T = None
      ∨ ∃ last, _cooldowns s !! T = Some last ∧ W ≤ at_time c1 - last) →
     let r := trigger_call s c1 in
     _cooldowns r.1 !! T = Some (at_time c1)
     ∧ log_file r.1 = Some (log_text s +:+ record_of c1)
     ∧ visual_calls r.2
       = if on_alert_visual s then [Visual T (message_of c1)] else [])
  ∧ (type_of c2 = T → in_cooldown s (at_time c1) T = false →
     let r := run s [c1; c2] in
     (at_time c2 - at_time c1 < W →
        log_file r.1 = Some (log_text s +:+ record_of c1)
        ∧ visual_calls r.2
          = if on_alert_visual s then [Visual T (message_of c1)] else [])
     ∧ (W ≤ at_time c2 - at_time c1 →
        log_file r.1 = Some ((log_text s +:+ record_of c1) +:+ record_of c2)
        ∧ visual_calls r.2
          = if on_alert_visual s
            then [Visual T (message_of c1); Visual T (message_of c2)]
            else [])).
Proof.
  intros Hexact T W. split; [| split].
  - intros H. apply trigger_suppressed. by apply in_cooldown_true.
  - intros H. apply (in_cooldown_false s _ _ Hexact) in H.
    destruct (trigger_accepted_effects s (at_time c1) (stamp_of c1) T
                (message_of c1) (severity_of c1) H) as (Hc & Hl & Hv & _).
    unfold trigger_call. fold T. repeat split.
    + rewrite Hc. apply lookup_insert_eq.
    + exact Hl.
    + exact Hv.
  - intros HT Hacc.
    destruct (trigger_accepted_effects s (at_time c1) (stamp_of c1) T
                (message_of c1) (severity_of c1) Hacc)
      as (Hc & Hl & Hv & Hw & Hreg).
    rewrite run_cons. rewrite run_cons. simpl.
    change (trigger s (at_time c1) (stamp_of c1) T (message_of c1) (severity_of c1))
      with (trigger_call s c1) in *.
    set (s1 := (trigger_call s c1).1) in *.
    assert (Hexact1 : exact_window s1) by (unfold exact_window; by rewrite Hw).
    assert (Hlast : _cooldowns s1 !! T = Some (at_time c1)).
    { rewrite Hc. apply lookup_insert_eq. }
    rewrite app_nil_r, visual_calls_app, Hv.
    split.
    + intros Hlt.
      assert (Hsup : in_cooldown s1 (at_time c2) (type_of c2) = true).
      { apply (in_cooldown_true s1 _ _ Hexact1). exists (at_time c1). rewrite HT.
        split; [exact Hlast | rewrite Hw; exact Hlt]. }
      unfold trigger_call. rewrite (trigger_suppressed _ _ _ _ _ _ Hsup).
      simpl. rewrite app_nil_r. split; [exact Hl | reflexivity].
    + intros Hge.
      assert (Hok : in_cooldown s1 (at_time c2) (type_of c2) = false).
      { apply (in_cooldown_false s1 _ _ Hexact1). right. exists (at_time c1). rewrite HT.
        split; [exact Hlast | rewrite Hw; exact Hge]. }
      destruct (trigger_accepted_effects s1 (at_time c2) (stamp_of c2)
                  (type_of c2) (message_of c2) (severity_of c2) Hok)
        as (_ & Hl2 & Hv2 & _).
      fold (trigger_call s1 c2) in Hl2, Hv2. rewrite Hl2, Hv2.
      unfold log_text at 1. rewrite Hl. simpl. unfold record_of. rewrite Hreg, HT.
      split; [reflexivity | by destruct (on_alert_visual s)].
Qed.

(** The claim as the specification words it, for every cooldown,
    fails on a cooldown of 2 * 10^10 seconds: [total_seconds()] of an
    elapsed time one microsecond below it is the float 2 * 10^10, which
    is not below the cooldown, so the call is accepted: it appends its
    record and calls the visual sink. *)
Lemma long_window_counterexample :
  _cooldowns long_window_system !! "fall" = Some 0
  ∧ (at_time late_call - 0 <? cooldown long_window_system) = true
  ∧ in_cooldown long_window_system (at_time late_call) "fall" = false
  ∧ log_file (trigger_call long_window_system late_call).1
    = Some (record_of late_call)
  ∧ (trigger_call long_window_system late_call).2 = [Visual "fall" "Fall detected"].
Proof. vm_compute. repeat split. Qed.

(** C10.  A suppressed call leaves the state, and with it the cooldown
    table, as it was.  So when the entry of [T] holds the time [t0] of
    the last accepted call, then after any number of suppressed calls
    for [T] (and any calls for other types between them) the entry still
    holds [t0], and a call for [T] made at least the cooldown after [t0]
    is accepted: it records its own time and appends its record.  The
    times are [datetime]s, so the last call is not further from [t0]
    than two [datetime]s can be.  For a cooldown between 0 and 2^33
    seconds the suppressed calls for [T] are those that come less than
    the cooldown after [t0]. *)
Theorem suppressed_calls_keep_window
    (s : alert_system) (T : string) (t0 : Z) (cs : list call) (c : call) :
  _cooldowns s !! T = Some t0 →
  Forall (fun c' => type_of c' = T → in_cooldown s (at_time c') T = true) cs →
  type_of c = T →
  cooldown s ≤ at_time c - t0 →
  Z.abs (at_time c - t0) ≤ DATETIME_SPAN →
  (∀ c', in_cooldown s (at_time c') (type_of c') = true →
         trigger_call s c' = (s, []))
  ∧ (exact_window s →
     ∀ c', type_of c' = T →
           (in_cooldown s (at_time c') T = true ↔ at_time c' - t0 < cooldown s))
  ∧ let s' := (run s cs).1 in
    _cooldowns s' !! T = Some t0
    ∧ in_cooldown s' (at_time c) T = false
    ∧ _cooldowns (trigger_call s' c).1 !! T = Some (at_time c)
    ∧ log_file (trigger_call s' c).1 = Some (log_text s' +:+ record_of c).
Proof.
  intros Hs Hall HT Hge Hspan. split; [| split].
  - intros c' Hsup. unfold trigger_call. by apply trigger_suppressed.
  - intros Hexact c' HT'. rewrite (in_cooldown_true s _ _ Hexact). split.
    + intros (last & Hl & Hlt). congruence.
    + intros Hlt. by exists t0.
  - destruct (run_keeps_entry T t0 cs s s Hs Hs eq_refl Hall) as [Hkeep Hcfg].
    cbv zeta. set (s' := (run s cs).1) in *.
    assert (Hok : in_cooldown s' (at_time c) T = false).
    { apply (in_cooldown_passed s' _ t0); [exact Hkeep | | exact Hspan].
      unfold cooldown in *. by rewrite Hcfg. }
    destruct (trigger_accepted_effects s' (at_time c) (stamp_of c) T
                (message_of c) (severity_of c) Hok) as (Hc & Hl & _).
    unfold trigger_call, record_of. rewrite HT. repeat split; try assumption.
    rewrite Hc. apply lookup_insert_eq.
Qed.

End AlertCooldown.

Section AlertCooldownWitnesses.
Import PyStr Json Alerts.

Lemma sample_exact_window : exact_window sample_system.
Proof. vm_compute. split; discriminate. Qed.

Lemma after_call_a_exact_window : exact_window (trigger_call sample_system call_a).1.
Proof. vm_compute. split; discriminate. Qed.

Lemma trigger_cooldown_gate_witness :
  (trigger_call (trigger_call sample_system call_a).1 call_b
   = ((trigger_call sample_system call_a).1, []))
  ∧ _cooldowns (trigger_call sample_system call_a).1 !! "fall" = Some 100000000
  ∧ visual_calls (run sample_system [call_a; call_b]).2
    = [Visual "fall" "Fall detected"]
  ∧ visual_calls (run sample_system [call_a; call_c]).2
    = [Visual "fall" "Fall detected"; Visual "fall" "Another fall"].
Proof.
  split; [| split; [| split]].
  - apply (trigger_cooldown_gate (trigger_call sample_system call_a).1 call_b call_b
             after_call_a_exact_window).
    exists 100000000. split; [reflexivity | vm_compute; reflexivity].
  - apply (trigger_cooldown_gate sample_system call_a call_b sample_exact_window).
    left. reflexivity.
  - apply (trigger_cooldown_gate sample_system call_a call_b sample_exact_window);
      [reflexivity | reflexivity | vm_compute; reflexivity].
  - apply (trigger_cooldown_gate sample_system call_a call_c sample_exact_window);
      [reflexivity | reflexivity | vm_compute; discriminate].
Defined.

Lemma suppressed_calls_keep_window_witness :
  _cooldowns (run (trigger_call sample_system call_a).1 [call_b; call_b]).1 !! "fall"
  = Some 100000000
  ∧ in_cooldown (run (trigger_call sample_system call_a).1 [call_b; call_b]).1
      (at_time call_c) "fall" = false.
Proof.
  destruct (suppressed_calls_keep_window
              (trigger_call sample_system call_a).1 "fall" 100000000
              [call_b; call_b] call_c) as (_ & _ & H1 & H2 & _).
  - reflexivity.
  - repeat constructor; intros _; vm_compute; reflexivity.
  - reflexivity.
  - vm_compute; discriminate.
  - vm_compute; discriminate.
  - split; [exact H1 | exact H2].
Defined.

End AlertCooldownWitnesses.

(* ================================================================== *)
(** * Properties of [AlertSystem]: the log *)
(* ================================================================== *)

Section AlertLog.
Import PyStr Json Alerts.

Lemma one_line_encode_char (a : ascii) :
  one_line (encode_char (N_of_ascii a)) = true.
Proof. by_ascii_cases a. Qed.

Lemma one_line_encode_chars (s : string) : one_line (encode_chars (cps s)) = true.
Proof.
  induction s as [|a s IH]; [reflexivity |].
  rewrite cps_cons. cbn [encode_chars].
  by rewrite one_line_app, one_line_encode_char, IH.
Qed.

Lemma one_line_encode_str (s : string) : one_line (encode_str (cps s)) = true.
Proof.
  unfold encode_str. cbn [one_line]. rewrite one_line_app, one_line_encode_chars.
  reflexivity.
Qed.

Lemma one_line_member (kv : string * string) :
  one_line (member_text (cps kv.1, JStr (cps kv.2))) = true.
Proof.
  unfold member_text. cbn [fst snd dumps].
  by rewrite !one_line_app, !one_line_encode_str.
Qed.

Lemma one_line_members (kvs : list (string * string)) :
  one_line (join ", " (map member_text (str_dict kvs))) = true.
Proof.
  induction kvs as [|kv [|kv2 kvs] IH]; [reflexivity | apply one_line_member |].
  change (str_dict (kv :: kv2 :: kvs))
    with ((cps kv.1, JStr (cps kv.2)) :: str_dict (kv2 :: kvs)).
  cbn [map]. cbn [map] in IH.
  change (str_dict (kv2 :: kvs))
    with ((cps kv2.1, JStr (cps kv2.2)) :: str_dict kvs) in *.
  cbn [map] in *. rewrite join_cons2.
  by rewrite !one_line_app, one_line_member, IH.
Qed.

(** [json.dumps] writes a record on one line. *)
Lemma one_line_dumps_entry (stamp T msg sev : string) :
  one_line (dumps (entry stamp T msg sev)) = true.
Proof.
  change (entry stamp T msg sev)
    with (JObj (str_dict [("timestamp", stamp); ("type", T);
                          ("message", msg); ("severity", sev)])).
  rewrite dumps_obj, !one_line_app, one_line_members. reflexivity.
Qed.

(** [line.strip()] on a line of the log gives the record back. *)
Lemma strip_record_line (stamp T msg sev : string) :
  strip (record_line stamp T msg sev) = dumps (entry stamp T msg sev).
Proof.
  unfold record_line.
  change (entry stamp T msg sev)
    with (JObj (str_dict [("timestamp", stamp); ("type", T);
                          ("message", msg); ("severity", sev)])).
  rewrite dumps_obj.
  set (body := join ", " (map member_text _)).
  unfold strip. rewrite !append_cons, append_nil_l.
  rewrite lstrip_nonspace by reflexivity.
  rewrite append_assoc, append_cons, append_nil_l.
  rewrite <- (append_cons "{" body (String "}" (String LF EmptyString))).
  rewrite rstrip_line by reflexivity. by rewrite append_cons.
Qed.

Lemma parse_lines_record (content stamp T msg sev : string) :
  line_ended content = true →
  parse_lines (content +:+ record_line stamp T msg sev)
  = parse_lines content ++ [entry stamp T msg sev].
Proof.
  intros Hc. unfold parse_lines, record_line.
  rewrite lines_app_record by (auto using one_line_dumps_entry).
  rewrite omap_app. f_equal. cbn [omap list_omap].
  fold (record_line stamp T msg sev).
  by rewrite strip_record_line, loads_dumps_entry.
Qed.

Lemma line_ended_record (content stamp T msg sev : string) :
  line_ended (content +:+ record_line stamp T msg sev) = true.
Proof.
  unfold record_line. rewrite <- append_assoc. apply line_ended_app_lf.
Qed.

Lemma get_recent_alerts_text (s : alert_system) (count : Z) :
  get_recent_alerts s count = slice_from_neg count (parse_lines (log_text s)).
Proof.
  unfold get_recent_alerts, log_text. destruct (log_file s); [reflexivity |].
  unfold slice_from_neg. simpl. destruct (0 <? count); by rewrite ?skipn_nil.
Qed.

Lemma log_text_accepted s now stamp T msg sev :
  in_cooldown s now T = false →
  log_text (trigger s now stamp T msg sev).1
  = log_text s +:+ record_line stamp T msg sev.
Proof. intros H. by rewrite (trigger_accepted _ _ _ _ _ _ H). Qed.

(** What a call adds to the parsed log: nothing, or its own record. *)
Lemma trigger_call_log (s : alert_system) (c : call) :
  line_ended (log_text s) = true →
  line_ended (log_text (trigger_call s c).1) = true
  ∧ ∃ es, parse_lines (log_text (trigger_call s c).1) = parse_lines (log_text s) ++ es
          ∧ (length es ≤ 1)%nat.
Proof.
  intros Hs. unfold trigger_call.
  destruct (in_cooldown s (at_time c) (type_of c)) eqn:E.
  - rewrite (trigger_suppressed _ _ _ _ _ _ E). simpl.
    split; [exact Hs |]. exists []. rewrite app_nil_r. split; [reflexivity | simpl; lia].
  - rewrite (log_text_accepted _ _ _ _ _ _ E).
    split; [apply line_ended_record |].
    eexists. split; [by apply parse_lines_record | simpl; lia].
Qed.


(** ** The slice [alerts[-count:]] *)

Lemma slice_positive {A} (count : Z) (l : list A) :
  0 < count → slice_from_neg count l = skipn (length l - Z.to_nat count) l.
Proof.
  intros H. unfold slice_from_neg. destruct (0 <? count) eqn:E; [reflexivity | lia].
Qed.

Lemma slice_zero {A} (l : list A) : slice_from_neg 0 l = l.
Proof. reflexivity. Qed.

(** For a positive count the slice is the end of the list, in the
    order of the list, and holds [count] items or the whole list. *)
Lemma slice_positive_suffix {A} (count : Z) (l : list A) :
  0 < count →
  ∃ front, l = front ++ slice_from_neg count l
           ∧ length (slice_from_neg count l) = Nat.min (Z.to_nat count) (length l).
Proof.
  intros H. rewrite (slice_positive _ _ H).
  exists (firstn (length l - Z.to_nat count) l).
  split; [by rewrite firstn_skipn | rewrite length_skipn; lia].
Qed.



End AlertLog.

Section AlertLogClaims.
Import PyStr Json Alerts.

(** A log that only [_log_alert] wrote to is made of complete lines. *)
Lemma run_line_ended (cs : list call) :
  ∀ s, line_ended (log_text s) = true → line_ended (log_text (run s cs).1) = true.
Proof.
  induction cs as [|c cs IH]; intros s Hs; [exact Hs |].
  rewrite run_cons. cbn [fst]. apply IH. by apply trigger_call_log.
Qed.

(** ** [get_recent_alerts] with a positive count *)

(** The call returns the end of the list of the well-formed entries of
    the log, in the order of the log: [count] of them, or all when there
    are fewer.  A line that [json.loads] rejects is not in that list. *)
Lemma recent_alerts_positive (s : alert_system) (count : Z) :
  0 < count →
  ∃ front,
    parse_lines (log_text s) = front ++ get_recent_alerts s count
    ∧ length (get_recent_alerts s count)
      = Nat.min (Z.to_nat count) (length (parse_lines (log_text s))).
Proof.
  intros H. rewrite get_recent_alerts_text. by apply slice_positive_suffix.
Qed.

(** On the log of fifteen records, a count of ten gives the last ten,
    in the order they were written. *)
Lemma recent_alerts_fifteen :
  get_recent_alerts after_fifteen 10 = map entry_of (skipn 5 fifteen_calls).
Proof. vm_compute. reflexivity. Qed.

(** A line that is not JSON, between two records, is left out. *)
Lemma recent_alerts_skips_malformed :
  get_recent_alerts with_malformed_line 10 = [entry_of call_a; entry_of call_c].
Proof. vm_compute. reflexivity. Qed.

(** C8, where the code departs from it.  With a count of zero the slice
    [alerts[-0:]] is [alerts[0:]]: the call returns every well-formed
    entry of the log, where the last zero entries are none.  On the log
    of two records it returns both. *)
Theorem recent_alerts_zero_returns_all :
  (∀ s, get_recent_alerts s 0 = parse_lines (log_text s))
  ∧ get_recent_alerts after_two 0 = [entry_of call_a; entry_of call_c]
  ∧ get_recent_alerts after_two 1 = [entry_of call_c]
  ∧ get_recent_alerts after_two (-1) = [entry_of call_c].
Proof.
  split; [| split; [| split]].
  - intros s. by rewrite get_recent_alerts_text.
  - vm_compute. reflexivity.
  - vm_compute. reflexivity.
  - vm_compute. reflexivity.
Qed.

Lemma entry_fields (stamp T msg sev : string) :
  field "timestamp" (entry stamp T msg sev) = Some (JStr (cps stamp))
  ∧ field "type" (entry stamp T msg sev) = Some (JStr (cps T))
  ∧ field "message" (entry stamp T msg sev) = Some (JStr (cps msg))
  ∧ field "severity" (entry stamp T msg sev) = Some (JStr (cps sev)).
Proof. repeat split. Qed.



End AlertLogClaims.

(* ================================================================== *)
(** * Properties of [SensorHub] *)
(* ================================================================== *)

Section SensorProps.
Import Sensors.

Lemma with_error_count_same (s : sensor) :
  with_error_count (error_count s) s = s.
Proof. by destruct s. Qed.

Lemma with_status_same (s : sensor) :
  with_status (status s) s = s.
Proof. by destruct s. Qed.

(** ** Failed reads *)

(** A failed read of a connected sensor below the threshold: the
    counter goes up by one, nothing else changes, nobody is told. *)
Lemma poll_body_failed_read_below h l name env s :
  objects h !! l = Some s →
  status s = Connected → is_Some (read_fn s) → read_fails env →
  error_count s + 1 ≤ 5 →
  poll_body h l name env
  = (store h l (with_error_count (error_count s + 1) s), [ReadFn name]).
Proof.
  intros Hs Hst Hrf Henv Hcnt. unfold poll_body. rewrite Hs.
  rewrite (bool_decide_eq_true_2 _ Hst), (bool_decide_eq_true_2 _ Hrf). simpl.
  rewrite Henv. simpl.
  destruct (5 <? error_count s + 1) eqn:E; [lia | reflexivity].
Qed.

(** A failed read that takes the counter above the threshold. *)
Lemma poll_body_failed_read_above h l name env s :
  objects h !! l = Some s →
  status s = Connected → is_Some (read_fn s) → read_fails env →
  5 < error_count s + 1 →
  poll_body h l name env
  = (store h l (with_value "ERR"
                  (with_status Offline
                     (with_error_count (error_count s + 1) s))),
     [ReadFn name]).
Proof.
  intros Hs Hst Hrf Henv Hcnt. unfold poll_body. rewrite Hs.
  rewrite (bool_decide_eq_true_2 _ Hst), (bool_decide_eq_true_2 _ Hrf). simpl.
  rewrite Henv. simpl.
  destruct (5 <? error_count s + 1) eqn:E; [reflexivity | lia].
Qed.

Lemma poll_step_events h l name env :
  (poll_step h l name env).2
  = (poll_body h l name env).2 ++ sleep_of (poll_body h l name env).1 l.
Proof. unfold poll_step. by destruct (poll_body h l name env). Qed.

Lemma poll_step_state h l name env :
  (poll_step h l name env).1 = (poll_body h l name env).1.
Proof. unfold poll_step. by destruct (poll_body h l name env). Qed.

Lemma poll_loop_cons h l name env envs :
  poll_loop h l name (env :: envs)
  = ((poll_loop (poll_step h l name env).1 l name envs).1,
     (poll_step h l name env).2
     ++ (poll_loop (poll_step h l name env).1 l name envs).2).
Proof.
  simpl. destruct (poll_step h l name env) as [h1 e1]. simpl.
  by destruct (poll_loop h1 l name envs).
Qed.

Lemma poll_loop_app h l name envs1 envs2 :
  poll_loop h l name (envs1 ++ envs2)
  = ((poll_loop (poll_loop h l name envs1).1 l name envs2).1,
     (poll_loop h l name envs1).2
     ++ (poll_loop (poll_loop h l name envs1).1 l name envs2).2).
Proof.
  revert h. induction envs1 as [|env envs1 IH]; intros h.
  - simpl. by destruct (poll_loop h l name envs2).
  - rewrite <- app_comm_cons, !poll_loop_cons, IH. simpl. by rewrite app_assoc.
Qed.

Lemma filter_publish_sleep h l :
  filter (fun e => is_publish e = true) (sleep_of h l) = [].
Proof. unfold sleep_of. by destruct (objects h !! l). Qed.

(** [n] failed reads in a row that keep the counter within the
    threshold. *)
Lemma failed_reads_below (envs : list io) :
  ∀ h l name s,
  objects h !! l = Some s →
  status s = Connected → is_Some (read_fn s) →
  Forall read_fails envs →
  error_count s + Z.of_nat (length envs) ≤ 5 →
  let r := poll_loop h l name envs in
  objects r.1 !! l
  = Some (with_error_count (error_count s + Z.of_nat (length envs)) s)
  ∧ callbacks r.1 = callbacks h
  ∧ filter (fun e => is_publish e = true) r.2 = [].
Proof.
  induction envs as [|env envs IH]; intros h l name s Hs Hst Hrf Hall Hcnt.
  - simpl. rewrite Z.add_0_r, with_error_count_same. by repeat split.
  - apply Forall_cons in Hall as [Henv Hall].
    rewrite length_cons, Nat2Z.inj_succ in *.
    rewrite poll_loop_cons. simpl.
    rewrite poll_step_state, poll_step_events.
    rewrite (poll_body_failed_read_below h l name env s) by (auto; lia).
    simpl.
    set (s1 := with_error_count (error_count s + 1) s).
    set (h1 := store h l s1).
    assert (H1 : objects h1 !! l = Some s1) by apply lookup_insert_eq.
    destruct (IH h1 l name s1 H1) as (Ho & Hc & Hp); auto.
    { simpl. lia. }
    split; [| split].
    + rewrite Ho. f_equal. simpl. unfold with_error_count. simpl. f_equal. lia.
    + rewrite Hc. reflexivity.
    + rewrite filter_cons. simpl. rewrite filter_app, filter_publish_sleep, Hp.
      reflexivity.
Qed.

(** C2, as the code has it.  Take a sensor that is connected, has a
    read capability and has no failure on its counter.  Five failed
    reads in a row leave it connected, with its value as it was and its
    counter at five.  The sixth failed read in a row, which takes the
    counter above five, sets its status to offline and its value to
    "ERR".  None of these failed reads calls a subscriber. *)
Theorem failed_reads_threshold
    (h : hub) (l : nat) (name : string) (s : sensor) (envs : list io) (env : io) :
  objects h !! l = Some s →
  status s = Connected → is_Some (read_fn s) → error_count s = 0 →
  length envs = 5%nat → Forall read_fails envs → read_fails env →
  let r5 := poll_loop h l name envs in
  let r6 := poll_loop h l name (envs ++ [env]) in
  objects r5.1 !! l = Some (with_error_count 5 s)
  ∧ filter (fun e => is_publish e = true) r5.2 = []
  ∧ objects r6.1 !! l
    = Some (with_value "ERR" (with_status Offline (with_error_count 6 s)))
  ∧ filter (fun e => is_publish e = true) r6.2 = [].
Proof.
  intros Hs Hst Hrf H0 Hlen Hall Henv.
  destruct (failed_reads_below envs h l name s Hs Hst Hrf Hall) as (Ho & Hc & Hp).
  { rewrite H0, Hlen. simpl. lia. }
  rewrite H0, Hlen in Ho. simpl in Ho.
  cbv zeta. rewrite poll_loop_app, poll_loop_cons. cbn [poll_loop fst snd].
  set (h5 := (poll_loop h l name envs).1) in *.
  rewrite poll_step_state, poll_step_events.
  rewrite (poll_body_failed_read_above h5 l name env _ Ho) by (auto; simpl; lia).
  cbn [fst snd]. repeat split; [exact Ho | exact Hp | apply lookup_insert_eq |].
  rewrite filter_app, Hp, app_nil_r. cbn [app].
  rewrite filter_cons, decide_False by (simpl; discriminate).
  apply filter_publish_sleep.
Qed.

Lemma failed_reads_threshold_witness :
  let r5 := poll_loop demo_hub 0%nat "MAX30102" (replicate 5 read_error) in
  let r6 := poll_loop demo_hub 0%nat "MAX30102" (replicate 6 read_error) in
  get_status r5.1 "MAX30102" = Some Connected
  ∧ get_status r6.1 "MAX30102" = Some Offline
  ∧ get_reading r6.1 "MAX30102" = Some "ERR".
Proof.
  destruct (failed_reads_threshold demo_hub 0%nat "MAX30102"
              {| name := "MAX30102"; status := Connected; value := "72 bpm";
                 read_fn := Some 0%nat; interval := 2000; i2c_addr := None;
                 last_read := 0; error_count := 0 |}
              (replicate 5 read_error) read_error) as (H5 & _ & H6 & _).
  - reflexivity.
  - reflexivity.
  - simpl. eauto.
  - reflexivity.
  - reflexivity.
  - repeat constructor.
  - reflexivity.
  - vm_compute. repeat split.
Defined.

(** The claim as the specification words it fails on the demo sensor:
    after exactly five failed reads in a row the sensor is still
    connected, not offline, its value is not "ERR", and the one
    subscriber was never called. *)
Lemma five_failed_reads_counterexample :
  let r := poll_loop demo_hub 0%nat "MAX30102" (replicate 5 read_error) in
  get_status r.1 "MAX30102" = Some Connected
  ∧ get_status r.1 "MAX30102" ≠ Some Offline
  ∧ get_reading r.1 "MAX30102" = Some "72 bpm"
  ∧ callbacks r.1 = [0%nat]
  ∧ filter (fun e => is_publish e = true) r.2 = [].
Proof. vm_compute. repeat split. discriminate. Qed.

End SensorProps.

Section RegistryProps.
Import Sensors.

Lemma hub_wf_empty : hub_wf empty_hub.
Proof. unfold hub_wf. apply map_Forall_empty. Qed.

Lemma hub_wf_register h name rf iv addr :
  hub_wf h → hub_wf (register h name rf iv addr).
Proof.
  unfold hub_wf, register. simpl. intros Hwf.
  apply map_Forall_insert_2; [lia |].
  eapply map_Forall_impl; [exact Hwf |]. simpl. intros; lia.
Qed.

Lemma hub_wf_store h l s : hub_wf h → hub_wf (store h l s).
Proof. trivial. Qed.

Lemma hub_wf_on_update h cb : hub_wf h → hub_wf (on_update h cb).
Proof. trivial. Qed.

(** C4, as the code has it.  [register] has no check for a name that
    is registered already and never fails: the registry then holds, under
    that name, a fresh dictionary built from the arguments of the call,
    pending, with the default value and a counter of zero, whatever was
    there before.  The sensors registered under other names are as they
    were. *)
Theorem register_replaces
    (h : hub) (n : string) (rf : option nat) (iv : Z) (addr : option Z) :
  hub_wf h →
  is_Some (get_sensor h n) →
  let h' := register h n rf iv addr in
  get_sensor h' n = Some (fresh_sensor n rf iv addr)
  ∧ get_status h' n = Some Pending
  ∧ get_reading h' n = Some NO_VALUE
  ∧ (∀ other, other ≠ n → get_sensor h' other = get_sensor h other)
  ∧ hub_wf h'.
Proof.
  intros Hwf _. cbv zeta.
  assert (Hn : get_sensor (register h n rf iv addr) n
               = Some (fresh_sensor n rf iv addr)).
  { unfold get_sensor, register. simpl.
    rewrite lookup_insert_eq. apply lookup_insert_eq. }
  split; [exact Hn |].
  unfold get_status, get_reading. rewrite Hn. simpl.
  repeat split.
  - intros other Hne. unfold get_sensor, register. simpl.
    rewrite lookup_insert_ne by congruence.
    destruct (sensors h !! other) as [l|] eqn:El; [| reflexivity].
    apply Hwf in El. simpl in El.
    rewrite lookup_insert_ne by lia. reflexivity.
  - by apply hub_wf_register.
Qed.

Lemma demo_hub_wf : hub_wf demo_hub.
Proof.
  unfold demo_hub. apply hub_wf_store, hub_wf_on_update, hub_wf_register, hub_wf_empty.
Qed.

Lemma register_replaces_witness :
  get_status (register demo_hub "MAX30102" None 1000 (Some 87)) "MAX30102"
  = Some Pending.
Proof.
  apply (register_replaces demo_hub "MAX30102" None 1000 (Some 87)).
  - exact demo_hub_wf.
  - vm_compute. eauto.
Defined.

(** The claim as the specification words it fails on the demo hub: a
    second [register] under the name of the connected heart rate sensor
    goes through, and the descriptor and the runtime state that were
    registered under the name are not what the registry holds after
    it. *)
Lemma register_duplicate_counterexample :
  let h' := register demo_hub "MAX30102" None 1000 (Some 87) in
  get_status demo_hub "MAX30102" = Some Connected
  ∧ get_reading demo_hub "MAX30102" = Some "72 bpm"
  ∧ get_status h' "MAX30102" = Some Pending
  ∧ get_reading h' "MAX30102" = Some NO_VALUE
  ∧ get_sensor h' "MAX30102" ≠ get_sensor demo_hub "MAX30102".
Proof. vm_compute. repeat split. discriminate. Qed.

(** ** Offline sensors *)

(** In the offline branch a turn of the loop is one call of [probe]. *)
Lemma poll_body_offline h l n env s :
  objects h !! l = Some s → status s = Offline →
  poll_body h l n env
  = ((probe h n env).1.1, Probe n :: (probe h n env).2).
Proof.
  intros Hs Hst. unfold poll_body. rewrite Hs.
  rewrite bool_decide_eq_false_2 by (rewrite Hst; discriminate). simpl.
  rewrite (bool_decide_eq_true_2 _ Hst).
  by destruct (probe h n env) as [[h1 b] evs].
Qed.

(** A probe that returns [True] has set the registered sensor to
    connected. *)
Lemma probe_true_connected h n env :
  (probe h n env).1.2 = true →
  get_status (probe h n env).1.1 n = Some Connected.
Proof.
  unfold probe, get_status, get_sensor.
  destruct (sensors h !! n) as [l|] eqn:El; [| discriminate].
  destruct (objects h !! l) as [s|] eqn:Es; [| discriminate].
  destruct (if _bus h then addr_truthy (i2c_addr s) else None) as [a|].
  - destruct (bus_ok env); [| discriminate]. intros _. simpl.
    rewrite El. by rewrite lookup_insert_eq.
  - destruct (read_fn s); [| discriminate].
    destruct (read_result env); [| discriminate]. intros _. simpl.
    rewrite El. by rewrite lookup_insert_eq.
Qed.

(** A probe that fails leaves the registered sensor offline, and the
    registry as it was. *)
Lemma probe_failing_offline h n env l s :
  sensors h !! n = Some l → objects h !! l = Some s → status s = Offline →
  failing env →
  let h1 := (probe h n env).1.1 in
  (probe h n env).1.2 = false
  ∧ sensors h1 = sensors h
  ∧ ∃ s1, objects h1 !! l = Some s1 ∧ status s1 = Offline.
Proof.
  intros El Es Hst [Hb Hr]. unfold probe. rewrite El, Es, Hb, Hr.
  destruct (if _bus h then addr_truthy (i2c_addr s) else None) as [a|].
  - simpl. repeat split. eexists. split; [apply lookup_insert_eq | reflexivity].
  - destruct (read_fn s); simpl; repeat split.
    + eexists. split; [apply lookup_insert_eq | reflexivity].
    + by exists s.
Qed.

Lemma filter_probe_sleep h l :
  filter (fun e => is_probe e = true) (sleep_of h l) = [].
Proof. unfold sleep_of. by destruct (objects h !! l). Qed.

Lemma probe_events_no_probe h n env :
  filter (fun e => is_probe e = true) (probe h n env).2 = [].
Proof.
  unfold probe.
  destruct (sensors h !! n); [| reflexivity].
  destruct (objects h !! _) as [s|]; [| reflexivity].
  destruct (if _bus h then addr_truthy (i2c_addr s) else None).
  - by destruct (bus_ok env).
  - destruct (read_fn s); [| reflexivity]. by destruct (read_result env).
Qed.

(** However many probes fail, the sensor is offline after them and each
    turn of the loop made its probe. *)
Lemma failed_probes (envs : list io) :
  ∀ h l n s,
  sensors h !! n = Some l → objects h !! l = Some s → status s = Offline →
  Forall failing envs →
  let r := poll_loop h l n envs in
  sensors r.1 = sensors h
  ∧ (∃ s1, objects r.1 !! l = Some s1 ∧ status s1 = Offline)
  ∧ filter (fun e => is_probe e = true) r.2 = replicate (length envs) (Probe n).
Proof.
  induction envs as [|env envs IH]; intros h l n s El Es Hst Hall.
  - simpl. repeat split. by exists s.
  - apply Forall_cons in Hall as [Henv Hall].
    rewrite poll_loop_cons. cbn [fst snd].
    rewrite poll_step_state, poll_step_events.
    rewrite (poll_body_offline h l n env s Es Hst). cbn [fst snd].
    destruct (probe_failing_offline h n env l s El Es Hst Henv)
      as (_ & Hreg & s1 & Es1 & Hst1).
    set (h1 := (probe h n env).1.1) in *.
    destruct (IH h1 l n s1) as (Hreg' & Hoff & Hev); auto.
    { by rewrite Hreg. }
    split; [congruence | split; [exact Hoff |]].
    rewrite !filter_app, Hev, filter_probe_sleep, app_nil_r.
    rewrite filter_cons, decide_True by reflexivity.
    rewrite probe_events_no_probe. reflexivity.
Qed.

(** C7.  For a sensor that is offline (and whose dictionary is the one
    the registry holds), a turn of the polling loop is a call of
    [probe] and nothing else.  This goes on for as long as the probes
    fail: after any number of failed probes the sensor is still offline,
    every turn has made its probe, and the next turn probes again.  When
    that probe succeeds the sensor is connected. *)
Theorem offline_sensor_reprobed
    (h : hub) (l : nat) (n : string) (s : sensor) (envs : list io) (env : io) :
  sensors h !! n = Some l → objects h !! l = Some s → status s = Offline →
  Forall failing envs →
  let r := poll_loop h l n envs in
  get_status r.1 n = Some Offline
  ∧ filter (fun e => is_probe e = true) r.2 = replicate (length envs) (Probe n)
  ∧ poll_body r.1 l n env = ((probe r.1 n env).1.1, Probe n :: (probe r.1 n env).2)
  ∧ ((probe r.1 n env).1.2 = true →
     get_status (poll_body r.1 l n env).1 n = Some Connected).
Proof.
  intros El Es Hst Hall.
  destruct (failed_probes envs h l n s El Es Hst Hall) as (Hreg & (s1 & Es1 & Hst1) & Hev).
  cbv zeta. set (h1 := (poll_loop h l n envs).1) in *.
  assert (Hbody := poll_body_offline h1 l n env s1 Es1 Hst1).
  repeat split.
  - unfold get_status, get_sensor. rewrite Hreg, El, Es1. simpl. by rewrite Hst1.
  - exact Hev.
  - exact Hbody.
  - intros Hok. rewrite Hbody. simpl. by apply probe_true_connected.
Qed.

End RegistryProps.

Section OfflineWitness.
Import Sensors.

Lemma offline_sensor_reprobed_witness :
  let r := poll_loop offline_hub 0%nat "MAX30102" (replicate 3 read_error) in
  get_status r.1 "MAX30102" = Some Offline
  ∧ filter (fun e => is_probe e = true) r.2 = replicate 3 (Probe "MAX30102")
  ∧ get_status (poll_body r.1 0%nat "MAX30102" (read_ok "70 bpm")).1 "MAX30102"
    = Some Connected.
Proof.
  destruct (offline_sensor_reprobed offline_hub 0%nat "MAX30102"
              {| name := "MAX30102"; status := Offline; value := "ERR";
                 read_fn := Some 0%nat; interval := 2000; i2c_addr := None;
                 last_read := 0; error_count := 6 |}
              (replicate 3 read_error) (read_ok "70 bpm"))
    as (Hoff & Hprobes & _ & Hback).
  - reflexivity.
  - reflexivity.
  - reflexivity.
  - repeat constructor.
  - cbv zeta. split; [exact Hoff |]. split; [exact Hprobes |].
    apply Hback. vm_compute. reflexivity.
Defined.

End OfflineWitness.

(* ================================================================== *)
(** * Properties of [VoiceAssistant] *)
(* ================================================================== *)

Section VoiceProps.
Import PyStr Voice.

Lemma is_empty_true (s : string) : is_empty s = true ↔ s = EmptyString.
Proof. destruct s; simpl; split; congruence. Qed.

Lemma is_empty_false (s : string) : is_empty s = false ↔ s ≠ EmptyString.
Proof. destruct s; simpl; split; congruence. Qed.

(** ** [speak] *)

Lemma speak_spoken s text : spoken (speak s text).2 = [text].
Proof.
  unfold speak. destruct (_tts_ready s); simpl; [| reflexivity].
  by destruct (on_command_result s).
Qed.

Lemma speak_dispatched s text : dispatched (speak s text).2 = [].
Proof.
  unfold speak. destruct (_tts_ready s); simpl; [| reflexivity].
  by destruct (on_command_result s).
Qed.

Lemma speak_played s text :
  played (speak s text).2 = if _tts_ready s then [text] else [].
Proof.
  unfold speak. destruct (_tts_ready s); simpl; [| reflexivity].
  by destruct (on_command_result s).
Qed.

Lemma speak_listening s text : listening (speak s text).1 = listening s.
Proof. unfold speak. by destruct (_tts_ready s). Qed.

Lemma speak_frame s text :
  command_handlers (speak s text).1 = command_handlers s
  ∧ _tts_ready (speak s text).1 = _tts_ready s
  ∧ on_listening_change (speak s text).1 = on_listening_change s
  ∧ on_command_result (speak s text).1 = on_command_result s.
Proof.
  unfold speak. destruct (_tts_ready s) eqn:E; simpl; rewrite ?E; auto.
Qed.

(** ** [_handle_command] *)

Lemma run_handler_listening clk h cmd s :
  listening (run_handler clk h cmd s).2 = true → listening s = true.
Proof. intros H. destruct h; simpl in H; first [exact H | discriminate]. Qed.

Lemma run_handler_frame clk h cmd s :
  let s' := (run_handler clk h cmd s).2 in
  command_handlers s' = command_handlers s
  ∧ _tts_ready s' = _tts_ready s
  ∧ on_listening_change s' = on_listening_change s
  ∧ on_command_result s' = on_command_result s.
Proof. by destruct h. Qed.

(** [_handle_command] written out by the handler that [route] finds. *)
Lemma handle_command_eq clk s cmd :
  _handle_command clk s cmd
  = let response_state :=
      match route (command_handlers s) cmd with
      | Some h => run_handler clk h cmd s
      | None => (fallback cmd, s)
      end in
    ((speak response_state.2 response_state.1).1,
     [Command cmd; Led "thinking"] ++ (speak response_state.2 response_state.1).2).
Proof.
  unfold _handle_command. destruct (route (command_handlers s) cmd) as [h|].
  - destruct (run_handler clk h cmd s) as [resp s1]. simpl.
    by destruct (speak s1 resp).
  - simpl. by destruct (speak s (fallback cmd)).
Qed.

Lemma omap_app_events {B} (f : event → option B) (l1 l2 : list event) :
  omap f (l1 ++ l2) = omap f l1 ++ omap f l2.
Proof. apply omap_app. Qed.

Lemma handle_command_dispatched clk s cmd :
  dispatched (_handle_command clk s cmd).2 = [cmd].
Proof.
  rewrite handle_command_eq. cbv zeta. cbn [snd].
  unfold dispatched. rewrite omap_app_events.
  change (omap _ (speak ?a ?b).2) with (dispatched (speak a b).2).
  by rewrite speak_dispatched.
Qed.

Lemma handle_command_spoken clk s cmd :
  spoken (_handle_command clk s cmd).2
  = [match route (command_handlers s) cmd with
     | Some h => (run_handler clk h cmd s).1
     | None => fallback cmd
     end].
Proof.
  rewrite handle_command_eq. cbv zeta. cbn [snd].
  unfold spoken. rewrite omap_app_events.
  change (omap _ (speak ?a ?b).2) with (spoken (speak a b).2).
  rewrite speak_spoken. simpl.
  by destruct (route (command_handlers s) cmd).
Qed.

Lemma handle_command_played clk s cmd :
  played (_handle_command clk s cmd).2
  = if _tts_ready s then spoken (_handle_command clk s cmd).2 else [].
Proof.
  rewrite handle_command_spoken.
  rewrite handle_command_eq. cbv zeta. cbn [snd].
  unfold played. rewrite omap_app_events.
  change (omap _ (speak ?a ?b).2) with (played (speak a b).2).
  rewrite speak_played. simpl.
  destruct (route (command_handlers s) cmd) as [h|]; simpl; [| reflexivity].
  by destruct (run_handler_frame clk h cmd s) as (_ & -> & _).
Qed.

(** A command never opens the listening window. *)
Lemma handle_command_listening clk s cmd :
  listening (_handle_command clk s cmd).1 = true → listening s = true.
Proof.
  rewrite handle_command_eq. cbv zeta. cbn [fst].
  rewrite speak_listening.
  destruct (route (command_handlers s) cmd) as [h|]; simpl; [| trivial].
  apply run_handler_listening.
Qed.

(** ** [route] *)

Lemma route_first (pre post : list (string * handler)) key h cmd :
  Forall (fun kh => contains kh.1 cmd = false) pre →
  contains key cmd = true →
  route (pre ++ (key, h) :: post) cmd = Some h.
Proof.
  induction 1 as [| [k' h'] pre Hk _ IH]; intros Hkey; simpl.
  - by rewrite Hkey.
  - simpl in Hk. rewrite Hk. by apply IH.
Qed.

Lemma route_none (t : list (string * handler)) cmd :
  Forall (fun kh => contains kh.1 cmd = false) t → route t cmd = None.
Proof.
  induction 1 as [| [k' h'] t Hk _ IH]; simpl; [reflexivity |].
  simpl in Hk. by rewrite Hk.
Qed.

(** On lowercase keys and a lowercase command, the test [key in
    command] is the match that ignores case. *)
Lemma matches_ci_lower key cmd :
  is_lower key → is_lower cmd → matches_ci key cmd = contains key cmd.
Proof. unfold matches_ci, is_lower. by intros -> ->. Qed.

(** ** Lowercase is what the table and the recognition loop hold *)

Lemma lower_char_idemp (c : ascii) : lower_char (lower_char c) = lower_char c.
Proof. by_ascii_cases c. Qed.

Lemma lower_idemp (s : string) : is_lower (lower s).
Proof.
  unfold is_lower. induction s as [|c s IH]; simpl; [reflexivity |].
  by rewrite lower_char_idemp, IH.
Qed.

Lemma lstrip_lower (s : string) : is_lower s → is_lower (lstrip s).
Proof.
  unfold is_lower. induction s as [|c s IH]; simpl; [reflexivity |].
  intros H. injection H as Hc Hs.
  destruct (is_space c); [by apply IH |]. simpl. by rewrite Hc, Hs.
Qed.

Lemma rstrip_lower (s : string) : is_lower s → is_lower (rstrip s).
Proof.
  unfold is_lower. induction s as [|c s IH]; simpl; [reflexivity |].
  intros H. injection H as Hc Hs.
  destruct (is_empty (rstrip s) && is_space c); [reflexivity |].
  simpl. by rewrite Hc, IH.
Qed.

Lemma strip_lower (s : string) : is_lower s → is_lower (strip s).
Proof. intros H. unfold strip. by apply rstrip_lower, lstrip_lower. Qed.

(** The text that [listen_continuous] hands on is lowercase. *)
Lemma normalize_lower (raw : string) : is_lower (normalize raw).
Proof. apply strip_lower, lower_idemp. Qed.

Lemma drop_lower (n : nat) (s : string) : is_lower s → is_lower (drop n s).
Proof.
  unfold is_lower. revert s. induction n as [|n IH]; intros [|c s]; simpl; auto.
  intros H. injection H as Hc Hs. by apply IH.
Qed.

Lemma find_after_lower sep (s : string) r :
  is_lower s → find_after sep s = Some r → is_lower r.
Proof.
  revert r. induction s as [|c s IH]; intros r Hl; cbn [find_after].
  - destruct (String.prefix sep EmptyString); [| discriminate].
    intros [= <-]. by apply drop_lower.
  - destruct (String.prefix sep (String c s)).
    + intros [= <-]. by apply drop_lower.
    + apply IH. unfold is_lower in Hl. simpl in Hl. injection Hl as _ Hs. exact Hs.
Qed.

(** So is the command that follows the wake phrase. *)
Lemma trailing_command_lower cfg (text : string) :
  is_lower text → is_lower (trailing_command cfg text).
Proof.
  intros H. unfold trailing_command. apply strip_lower.
  destruct (find_after (wake_phrase cfg) text) as [r|] eqn:E; simpl; [| exact H].
  by apply (find_after_lower _ _ _ H E).
Qed.

Lemma dict_set_lower_keys (k : string) (h : handler) (t : list (string * handler)) :
  is_lower k → Forall (fun kh => is_lower kh.1) t →
  Forall (fun kh => is_lower kh.1) (dict_set k h t).
Proof.
  intros Hk. induction 1 as [| [k' h'] t Hk' Ht IH]; simpl.
  - by repeat constructor.
  - destruct (decide (k' = k)); constructor; auto.
Qed.

(** The keys of the table are lowercase: those of
    [_register_default_commands] are written so, and [register_command]
    lowers the keywords it is given. *)
Lemma default_commands_lower :
  Forall (fun kh => is_lower kh.1) default_commands.
Proof. unfold default_commands. repeat constructor. Qed.

Lemma register_keys_lower (kws : list string) (h : handler) :
  ∀ t, Forall (fun kh => is_lower kh.1) t →
       Forall (fun kh => is_lower kh.1) (register_keys kws h t).
Proof.
  unfold register_keys. induction kws as [|kw kws IH]; intros t Ht; simpl; [exact Ht |].
  apply IH, dict_set_lower_keys; [apply lower_idemp | exact Ht].
Qed.

End VoiceProps.

Section VoiceClaims.
Import PyStr Voice.

Lemma prefix_lower (k t : string) :
  String.prefix k t = true → String.prefix (lower k) (lower t) = true.
Proof.
  revert t. induction k as [|a k IH]; intros [|b t]; simpl; try done.
  destruct (ascii_dec a b) as [-> | Hne]; [| discriminate].
  intros H. destruct (ascii_dec (lower_char b) (lower_char b)); [by apply IH | done].
Qed.

(** A keyword that occurs in a text also occurs in it when case is
    ignored. *)
Lemma contains_matches_ci (k t : string) :
  contains k t = true → matches_ci k t = true.
Proof.
  unfold matches_ci. induction t as [|b t IH]; simpl.
  - rewrite orb_false_r. intros H. apply (prefix_lower k EmptyString) in H.
    simpl in H. by rewrite H.
  - intros H. apply orb_true_iff in H as [H | H].
    + apply (prefix_lower k (String b t)) in H. simpl in H. by rewrite H.
    + rewrite (IH H). apply orb_true_r.
Qed.

Lemma Forall_matches_ci_contains (t : list (string * handler)) (cmd : string) :
  Forall (fun kh => is_lower kh.1) t → is_lower cmd →
  Forall (fun kh => matches_ci kh.1 cmd = false) t →
  Forall (fun kh => contains kh.1 cmd = false) t.
Proof.
  intros Hl Hc Hm. induction Hm as [| kh t Hk _ IH]; constructor.
  - apply Forall_cons in Hl as [Hkl _]. by rewrite <- (matches_ci_lower _ _ Hkl Hc).
  - apply IH. by apply Forall_cons in Hl as [_ ?].
Qed.

Lemma register_keys_map (kws : list string) (h : handler) :
  ∀ t, register_keys kws h t
       = fold_left (fun d k => dict_set k h d) (map lower kws) t.
Proof.
  unfold register_keys. induction kws as [|kw kws IH]; intros t; [reflexivity |].
  simpl. apply IH.
Qed.

(** Lowering a text keeps its blanks, so it can be done before the
    stripping or after it. *)
Lemma is_space_lower_char (c : ascii) : is_space (lower_char c) = is_space c.
Proof. by_ascii_cases c. Qed.

Lemma is_empty_lower (s : string) : is_empty (lower s) = is_empty s.
Proof. by destruct s. Qed.

Lemma lower_lstrip (s : string) : lower (lstrip s) = lstrip (lower s).
Proof.
  induction s as [|c s IH]; [reflexivity |].
  cbn [lstrip lower]. rewrite is_space_lower_char.
  by destruct (is_space c).
Qed.

Lemma lower_rstrip (s : string) : lower (rstrip s) = rstrip (lower s).
Proof.
  induction s as [|c s IH]; [reflexivity |].
  cbn [rstrip lower]. cbv zeta.
  rewrite <- IH, is_empty_lower, is_space_lower_char.
  by destruct (is_empty (rstrip s) && is_space c).
Qed.

Lemma lower_strip (s : string) : lower (strip s) = normalize s.
Proof. unfold normalize, strip. by rewrite lower_rstrip, lower_lstrip. Qed.

Lemma process_speech_listening cfg clk s text :
  contains (wake_phrase cfg) text = false →
  listening s = true →
  _process_speech cfg clk s text
  = Some (set_listening false (_handle_command clk s text).1,
          Heard text :: (_handle_command clk s text).2 ++ [Led "idle"]
          ++ (if on_listening_change (_handle_command clk s text).1
              then [ListeningChange false] else [])).
Proof.
  intros Hin Hl. unfold _process_speech. rewrite Hin, Hl.
  by destruct (_handle_command clk s text).
Qed.

Lemma dispatched_app (l1 l2 : list event) :
  dispatched (l1 ++ l2) = dispatched l1 ++ dispatched l2.
Proof. apply omap_app. Qed.

Lemma spoken_app (l1 l2 : list event) : spoken (l1 ++ l2) = spoken l1 ++ spoken l2.
Proof. apply omap_app. Qed.

(** What is handed to [speak] when a recognition result is dispatched
    from the listening state. *)
Lemma on_final_result_listening cfg clk s raw :
  listening s = true → normalize raw ≠ EmptyString →
  contains (wake_phrase cfg) (normalize raw) = false →
  ∃ s' evs,
    on_final_result cfg clk s raw = Some (s', evs)
    ∧ dispatched evs = [normalize raw]
    ∧ spoken evs = spoken (_handle_command clk s (normalize raw)).2.
Proof.
  intros Hl Hraw Hc. unfold on_final_result.
  apply is_empty_false in Hraw. rewrite Hraw. cbn [negb].
  rewrite (process_speech_listening cfg clk s _ Hc Hl).
  eexists _, _. split; [reflexivity |]. split.
  - change (Heard ?t :: ?l) with ([Heard t] ++ l).
    rewrite !dispatched_app, handle_command_dispatched.
    by destruct (on_listening_change _).
  - change (Heard ?t :: ?l) with ([Heard t] ++ l).
    rewrite !spoken_app.
    by destruct (on_listening_change _); cbn; rewrite app_nil_r.
Qed.

(** C6, as the code has it.  [_handle_command] tests [key in command]
    letter for letter, for every command text and every table: the first
    key of the table that occurs in the command, in insertion order,
    decides the handler, and the response of that handler is handed to
    [speak]; when no key occurs in it, the fallback response, which
    echoes the command, is.  Either way exactly one response is handed
    to [speak], and the speech engine, when there is one, plays it.  The
    command "what is today's date" is routed to the date handler by the
    key "date"; with the keys "today" and "date" in that order it is the
    handler of "today" that is taken.

    Ignoring case is the work of the two ends.  The recognition loop
    lowers and strips the text it hands on, and [register_command]
    lowers the keywords, so the keys stay lowercase.  Hence for a
    recognition result in any case, taken as a command by a listening
    assistant whose keys are lowercase, the first key that occurs in the
    text with case ignored decides; "What Is Today's DATE" gets the
    answer of the date handler. *)
Theorem command_dispatch_first_match (clk : clock) (s : assistant) (cmd : string) :
  let r := _handle_command clk s cmd in
  (∀ pre key h post,
     command_handlers s = pre ++ (key, h) :: post →
     Forall (fun kh => contains kh.1 cmd = false) pre →
     contains key cmd = true →
     spoken r.2 = [(run_handler clk h cmd s).1])
  ∧ (Forall (fun kh => contains kh.1 cmd = false) (command_handlers s) →
     spoken r.2 = [fallback cmd])
  ∧ length (spoken r.2) = 1%nat
  ∧ (_tts_ready s = true → played r.2 = spoken r.2)
  ∧ route default_commands "what is today's date" = Some _cmd_date
  ∧ route [("today", _cmd_hello); ("date", _cmd_date)] "what is today's date"
    = Some _cmd_hello
  ∧ (∀ cfg raw,
       listening s = true →
       Forall (fun kh => is_lower kh.1) (command_handlers s) →
       normalize raw ≠ EmptyString →
       contains (wake_phrase cfg) (normalize raw) = false →
       ∃ s' evs,
         on_final_result cfg clk s raw = Some (s', evs)
         ∧ dispatched evs = [normalize raw]
         ∧ (∀ pre key h post,
              command_handlers s = pre ++ (key, h) :: post →
              Forall (fun kh => matches_ci kh.1 (strip raw) = false) pre →
              matches_ci key (strip raw) = true →
              spoken evs = [(run_handler clk h (normalize raw) s).1])
         ∧ (Forall (fun kh => matches_ci kh.1 (strip raw) = false)
              (command_handlers s) →
            spoken evs = [fallback (normalize raw)]))
  ∧ (∀ kws h,
       Forall (fun kh => is_lower kh.1) (command_handlers s) →
       Forall (fun kh => is_lower kh.1) (command_handlers (register_command s kws h)))
  ∧ (spoken <$> (snd <$> on_final_result default_config noon woken
                           "What Is Today's DATE"))
    = Some ["Today is Tuesday, November 03"].
Proof.
  cbv zeta.
  split; [| split; [| split; [| split; [| split; [| split; [| split; [| split]]]]]]];
    try reflexivity.
  - intros pre key h post Ht Hpre Hkey.
    rewrite handle_command_spoken, Ht.
    by rewrite (route_first pre post key h cmd).
  - intros Hnone. rewrite handle_command_spoken.
    by rewrite route_none.
  - by rewrite handle_command_spoken.
  - intros Htts. by rewrite handle_command_played, Htts.
  - intros cfg raw Hl Hkeys Hraw Hwake.
    destruct (on_final_result_listening cfg clk s raw Hl Hraw Hwake)
      as (s' & evs & Heq & Hd & Hsp).
    exists s', evs. split; [exact Heq |]. split; [exact Hd |].
    rewrite Hsp, handle_command_spoken.
    assert (Hci : ∀ key, is_lower key →
              matches_ci key (strip raw) = contains key (normalize raw)).
    { intros key Hk. unfold matches_ci. by rewrite lower_strip, Hk. }
    split.
    + intros pre key h post Ht Hpre Hkey. rewrite Ht in *.
      apply Forall_app in Hkeys as [Hpl Hrest].
      apply Forall_cons in Hrest as [Hkl _]. cbn [fst] in Hkl.
      rewrite (route_first pre post key h (normalize raw)); [reflexivity | |].
      * apply Forall_forall. intros kh Hin.
        rewrite Forall_forall in Hpl, Hpre.
        rewrite <- (Hci _ (Hpl kh Hin)). by apply Hpre.
      * by rewrite <- (Hci _ Hkl).
    + intros Hnone. rewrite route_none; [reflexivity |].
      apply Forall_forall. intros kh Hin.
      rewrite Forall_forall in Hkeys, Hnone.
      rewrite <- (Hci _ (Hkeys kh Hin)). by apply Hnone.
  - intros kws h Hkeys. unfold register_command. cbn [command_handlers set_command_handlers].
    by apply register_keys_lower.
Qed.

Lemma command_dispatch_first_match_witness :
  spoken (_handle_command noon init "what is today's date").2
  = ["Today is Tuesday, November 03"]
  ∧ spoken (_handle_command noon init "open the pod bay doors").2
    = ["I heard you say: open the pod bay doors. I'm still learning!"].
Proof.
  destruct (command_dispatch_first_match noon init "what is today's date")
    as (Hfirst & _).
  destruct (command_dispatch_first_match noon init "open the pod bay doors")
    as (_ & Hnone & _).
  split.
  - apply (Hfirst [("time", _cmd_time); ("what time", _cmd_time)]
             "date" _cmd_date (skipn 3 default_commands)).
    + reflexivity.
    + repeat constructor.
    + reflexivity.
  - apply Hnone.
    change (command_handlers init) with default_commands.
    unfold default_commands.
    repeat (apply List.Forall_cons; [vm_compute; reflexivity |]).
    apply List.Forall_nil.
Defined.

(** The claim as the specification words it, for every command text,
    fails on a command with capital letters: the key "date" occurs in
    "What Is Today's DATE" when case is ignored, and [_handle_command]
    answers it with the fallback all the same. *)
Lemma capital_command_counterexample :
  matches_ci "date" "What Is Today's DATE" = true
  ∧ route default_commands "What Is Today's DATE" = None
  ∧ spoken (_handle_command noon init "What Is Today's DATE").2
    = ["I heard you say: What Is Today's DATE. I'm still learning!"].
Proof. vm_compute. repeat split. Qed.

(** ** The wake phrase *)

(** The three ways of [_process_speech]. *)
Lemma process_speech_command cfg clk s text :
  wake_phrase cfg ≠ EmptyString →
  contains (wake_phrase cfg) text = true →
  trailing_command cfg text ≠ EmptyString →
  _process_speech cfg clk s text
  = Some ((_handle_command clk s (trailing_command cfg text)).1,
          Heard text :: (_handle_command clk s (trailing_command cfg text)).2).
Proof.
  intros Hw Hin Hcmd. unfold _process_speech, split1_last. rewrite Hin.
  apply is_empty_false in Hw. rewrite Hw.
  fold (trailing_command cfg text).
  apply is_empty_false in Hcmd. rewrite Hcmd. simpl.
  by destruct (_handle_command clk s (trailing_command cfg text)).
Qed.

Lemma process_speech_wake_only cfg clk s text :
  wake_phrase cfg ≠ EmptyString →
  contains (wake_phrase cfg) text = true →
  trailing_command cfg text = EmptyString →
  _process_speech cfg clk s text
  = Some ((speak (set_listening true s) "Yes? I'm listening.").1,
          [Heard text; Led "listening"]
          ++ (speak (set_listening true s) "Yes? I'm listening.").2
          ++ (if on_listening_change s then [ListeningChange true] else [])).
Proof.
  intros Hw Hin Hcmd. unfold _process_speech, split1_last. rewrite Hin.
  apply is_empty_false in Hw. rewrite Hw.
  fold (trailing_command cfg text). rewrite Hcmd. simpl.
  destruct (speak_frame (set_listening true s) "Yes? I'm listening.")
    as (_ & _ & Hcb & _).
  destruct (speak (set_listening true s) "Yes? I'm listening.") as [s1 evs].
  simpl in *. by rewrite Hcb.
Qed.

(** C3, as the code has it.  Take an utterance that contains the wake
    phrase.  When text follows the phrase, that text, stripped, is
    handed to [_handle_command] at once, and an assistant that was not
    listening is not listening after it.  When nothing follows, no
    command is dispatched and the assistant is listening; the next
    utterance that does not itself contain the wake phrase is then
    dispatched as the command, whole, and the assistant is no longer
    listening after it. *)
Theorem wake_phrase_routing
    (cfg : voice_config) (clk : clock) (s : assistant) (text : string) :
  wake_phrase cfg ≠ EmptyString →
  contains (wake_phrase cfg) text = true →
  let cmd := trailing_command cfg text in
  (cmd ≠ EmptyString →
     _process_speech cfg clk s text
     = Some ((_handle_command clk s cmd).1,
             Heard text :: (_handle_command clk s cmd).2)
     ∧ dispatched (Heard text :: (_handle_command clk s cmd).2) = [cmd]
     ∧ (listening s = false → listening (_handle_command clk s cmd).1 = false))
  ∧ (cmd = EmptyString →
     ∃ s1 evs,
       _process_speech cfg clk s text = Some (s1, evs)
       ∧ listening s1 = true
       ∧ dispatched evs = []
       ∧ ∀ next, contains (wake_phrase cfg) next = false →
           ∃ s2 evs2,
             _process_speech cfg clk s1 next = Some (s2, evs2)
             ∧ dispatched evs2 = [next]
             ∧ listening s2 = false).
Proof.
  intros Hw Hin cmd. split.
  - intros Hcmd. split; [by apply process_speech_command |]. split.
    + simpl. change (omap _ ?l) with (dispatched l).
      apply handle_command_dispatched.
    + intros Hidle.
      destruct (listening (_handle_command clk s cmd).1) eqn:E; [| reflexivity].
      apply handle_command_listening in E. congruence.
  - intros Hcmd.
    eexists _, _. split; [by apply process_speech_wake_only |].
    split; [by rewrite speak_listening |]. split.
    + rewrite !dispatched_app, speak_dispatched. simpl.
      by destruct (on_listening_change s).
    + intros next Hnext. eexists _, _.
      split; [apply process_speech_listening; [exact Hnext | by rewrite speak_listening] |].
      split; [| reflexivity].
      change (Heard next :: ?l) with ([Heard next] ++ l).
      rewrite !dispatched_app, handle_command_dispatched. simpl.
      by destruct (on_listening_change _).
Qed.

Lemma wake_phrase_routing_witness :
  (dispatched <$> (snd <$> _process_speech default_config noon init
                             "hey maya what time is it"))
  = Some ["what time is it"]
  ∧ ∃ s1 evs,
      _process_speech default_config noon init "hey maya" = Some (s1, evs)
      ∧ listening s1 = true
      ∧ ∃ s2 evs2,
          _process_speech default_config noon s1 "what time is it" = Some (s2, evs2)
          ∧ dispatched evs2 = ["what time is it"]
          ∧ listening s2 = false.
Proof.
  split.
  - destruct (wake_phrase_routing default_config noon init "hey maya what time is it")
      as [Hcmd _]; [discriminate | reflexivity |].
    destruct Hcmd as (Heq & Hd & _); [discriminate |].
    rewrite Heq. exact (f_equal Some Hd).
  - destruct (wake_phrase_routing default_config noon init "hey maya")
      as [_ Hwake]; [discriminate | reflexivity |].
    destruct Hwake as (s1 & evs & Heq & Hl & _ & Hnext); [reflexivity |].
    exists s1, evs. split; [exact Heq |]. split; [exact Hl |].
    apply (Hnext "what time is it"). reflexivity.
Defined.

(** The claim as the specification words it fails when the next
    utterance itself contains the wake phrase.  After "hey maya" the
    assistant is listening.  A second "hey maya" is not dispatched as a
    command and leaves the assistant listening; "hey maya what time is
    it" dispatches its trailing text only, and leaves the assistant
    listening as well. *)
Lemma next_utterance_counterexample :
  _process_speech default_config noon init "hey maya"
  = Some (woken, [Heard "hey maya"; Led "listening"; Speak "Yes? I'm listening."])
  ∧ (dispatched <$> (snd <$> _process_speech default_config noon woken "hey maya"))
    = Some []
  ∧ (listening <$> (fst <$> _process_speech default_config noon woken "hey maya"))
    = Some true
  ∧ (dispatched <$> (snd <$> _process_speech default_config noon woken
                               "hey maya what time is it"))
    = Some ["what time is it"]
  ∧ (listening <$> (fst <$> _process_speech default_config noon woken
                              "hey maya what time is it"))
    = Some true.
Proof. vm_compute. repeat split. Qed.

End VoiceClaims.

Section SpeakingFlag.
Import PyStr Voice.

Lemma same_but_speaking_fields s1 s2 :
  same_but_speaking s1 s2 →
  listening s1 = listening s2 ∧ _tts_ready s1 = _tts_ready s2
  ∧ command_handlers s1 = command_handlers s2
  ∧ on_listening_change s1 = on_listening_change s2
  ∧ on_command_result s1 = on_command_result s2.
Proof.
  unfold same_but_speaking, set_speaking. intros H. injection H. auto.
Qed.

Lemma same_but_speaking_intro s1 s2 :
  listening s1 = listening s2 → _tts_ready s1 = _tts_ready s2 →
  command_handlers s1 = command_handlers s2 →
  on_listening_change s1 = on_listening_change s2 →
  on_command_result s1 = on_command_result s2 →
  same_but_speaking s1 s2.
Proof.
  unfold same_but_speaking, set_speaking. by intros -> -> -> -> ->.
Qed.

Lemma same_but_speaking_set b s : same_but_speaking (set_speaking b s) s.
Proof. reflexivity. Qed.

Lemma set_listening_same b s1 s2 :
  same_but_speaking s1 s2 →
  same_but_speaking (set_listening b s1) (set_listening b s2).
Proof.
  intros H. apply same_but_speaking_fields in H as (H1 & H2 & H3 & H4 & H5).
  apply same_but_speaking_intro; simpl; done.
Qed.

Lemma speak_same s1 s2 text :
  same_but_speaking s1 s2 →
  same_but_speaking (speak s1 text).1 (speak s2 text).1
  ∧ (speak s1 text).2 = (speak s2 text).2.
Proof.
  intros H. pose proof (same_but_speaking_fields _ _ H) as (H1 & H2 & H3 & H4 & H5).
  unfold speak. rewrite H2, H5. destruct (_tts_ready s2) eqn:E; simpl.
  - split; [| reflexivity]. apply same_but_speaking_intro; simpl; congruence.
  - by split.
Qed.

Lemma run_handler_same clk h cmd s1 s2 :
  same_but_speaking s1 s2 →
  same_but_speaking (run_handler clk h cmd s1).2 (run_handler clk h cmd s2).2
  ∧ (run_handler clk h cmd s1).1 = (run_handler clk h cmd s2).1.
Proof.
  intros H. destruct h; simpl; (split; [| reflexivity]); try exact H.
  by apply set_listening_same.
Qed.

Lemma handle_command_same clk s1 s2 cmd :
  same_but_speaking s1 s2 →
  same_but_speaking (_handle_command clk s1 cmd).1 (_handle_command clk s2 cmd).1
  ∧ (_handle_command clk s1 cmd).2 = (_handle_command clk s2 cmd).2.
Proof.
  intros H. pose proof (same_but_speaking_fields _ _ H) as (_ & _ & Ht & _).
  rewrite !handle_command_eq. cbv zeta. cbn [fst snd]. rewrite Ht.
  destruct (route (command_handlers s2) cmd) as [h|].
  - destruct (run_handler_same clk h cmd s1 s2 H) as [Hs Hr]. rewrite Hr.
    destruct (speak_same _ _ (run_handler clk h cmd s2).1 Hs) as [Hs' He].
    by rewrite He.
  - simpl. destruct (speak_same _ _ (fallback cmd) H) as [Hs' He]. by rewrite He.
Qed.

Lemma observe_same (r1 r2 : assistant * list event) :
  same_but_speaking r1.1 r2.1 → r1.2 = r2.2 →
  observe (Some r1) = observe (Some r2).
Proof.
  intros H He. apply same_but_speaking_fields in H as (H1 & _ & H3 & _).
  unfold observe. simpl. by rewrite H1, H3, He.
Qed.

Lemma process_speech_same cfg clk s1 s2 text :
  same_but_speaking s1 s2 →
  observe (_process_speech cfg clk s1 text) = observe (_process_speech cfg clk s2 text).
Proof.
  intros H. pose proof (same_but_speaking_fields _ _ H) as (Hl & _ & _ & Hcb & _).
  unfold _process_speech. cbv zeta.
  destruct (contains (wake_phrase cfg) text).
  - destruct (split1_last (wake_phrase cfg) text) as [after|]; [| reflexivity].
    destruct (negb (is_empty (strip after))).
    + destruct (handle_command_same clk s1 s2 (strip after) H) as [Hs He].
      destruct (_handle_command clk s1 (strip after)) as [a1 e1].
      destruct (_handle_command clk s2 (strip after)) as [a2 e2].
      simpl in Hs, He. apply observe_same; simpl; [exact Hs | by rewrite He].
    + destruct (speak_same _ _ "Yes? I'm listening." (set_listening_same true _ _ H))
        as [Hs He].
      destruct (speak (set_listening true s1) "Yes? I'm listening.") as [a1 e1].
      destruct (speak (set_listening true s2) "Yes? I'm listening.") as [a2 e2].
      simpl in Hs, He.
      pose proof (same_but_speaking_fields _ _ Hs) as (_ & _ & _ & Hcb' & _).
      apply observe_same; simpl; [exact Hs | by rewrite He, Hcb'].
  - rewrite Hl. destruct (listening s2).
    + destruct (handle_command_same clk s1 s2 text H) as [Hs He].
      destruct (_handle_command clk s1 text) as [a1 e1].
      destruct (_handle_command clk s2 text) as [a2 e2].
      simpl in Hs, He.
      pose proof (same_but_speaking_fields _ _ Hs) as (_ & _ & _ & Hcb' & _).
      apply observe_same; simpl; [by apply set_listening_same | by rewrite He, Hcb'].
    + by apply observe_same.
Qed.

(** The flag after [speak], [_handle_command] and [_process_speech]:
    cleared when something was played, untouched otherwise. *)
Lemma speak_speaking s text :
  speaking (speak s text).1
  = match played (speak s text).2 with [] => speaking s | _ => false end.
Proof.
  unfold speak. destruct (_tts_ready s); [| reflexivity].
  cbn [negb fst snd]. by destruct (on_command_result s).
Qed.

Lemma run_handler_speaking clk h cmd s :
  speaking (run_handler clk h cmd s).2 = speaking s.
Proof. by destruct h. Qed.

Lemma handle_command_speaking clk s cmd :
  speaking (_handle_command clk s cmd).1
  = match played (_handle_command clk s cmd).2 with
    | [] => speaking s
    | _ => false
    end.
Proof.
  unfold _handle_command.
  destruct (route (command_handlers s) cmd) as [h|].
  - pose proof (run_handler_speaking clk h cmd s) as Hs.
    destruct (run_handler clk h cmd s) as [resp s1]. cbn [snd] in Hs.
    pose proof (speak_speaking s1 resp) as Hsp. rewrite Hs in Hsp.
    destruct (speak s1 resp) as [s2 evs]. by cbn [fst snd played omap] in *.
  - pose proof (speak_speaking s (fallback cmd)) as Hsp.
    destruct (speak s (fallback cmd)) as [s2 evs]. by cbn [fst snd played omap] in *.
Qed.

(** C5, as the code has it.  [speak] with a speech engine sets the
    [speaking] flag before the playback and clears it after it; without
    one it leaves the flag alone.  Nothing reads the flag:
    [_process_speech] dispatches the same commands, makes the same calls
    and leaves the same listening state on an utterance whether the flag
    is set or not, and writes it through [speak] only, so that after the
    utterance the flag is clear when a reply was played and is what it
    was otherwise.  In particular an utterance that is the wake phrase
    alone, heard while the flag is set, in the middle of a playback that
    another task began, opens the listening window. *)
Theorem speaking_flag_not_consulted
    (cfg : voice_config) (clk : clock) (s : assistant) (b : bool) (text : string) :
  observe (_process_speech cfg clk (set_speaking b s) text)
  = observe (_process_speech cfg clk s text)
  ∧ (wake_phrase cfg ≠ EmptyString →
     contains (wake_phrase cfg) text = true →
     trailing_command cfg text = EmptyString →
     ∃ s1 evs,
       _process_speech cfg clk (set_speaking true s) text = Some (s1, evs)
       ∧ listening s1 = true
       ∧ spoken evs = ["Yes? I'm listening."])
  ∧ (∀ reply,
       _tts_ready s = true →
       speaking (speak_begin s reply).1 = true
       ∧ speak s reply
         = ((speak_end (speak_begin s reply).1).1,
            (speak_begin s reply).2 ++ [Tts reply]
            ++ (speak_end (speak_begin s reply).1).2)
       ∧ speaking (speak s reply).1 = false)
  ∧ (∀ reply, _tts_ready s = false → speak s reply = (s, [Speak reply]))
  ∧ (∀ reply,
       wake_phrase cfg ≠ EmptyString →
       contains (wake_phrase cfg) text = true →
       trailing_command cfg text = EmptyString →
       ∃ s1 evs,
         _process_speech cfg clk (speak_begin s reply).1 text = Some (s1, evs)
         ∧ listening s1 = true
         ∧ spoken evs = ["Yes? I'm listening."])
  ∧ (∀ s' evs,
       _process_speech cfg clk s text = Some (s', evs) →
       speaking s' = match played evs with [] => speaking s | _ => false end).
Proof.
  assert (Hwake : ∀ s0,
            wake_phrase cfg ≠ EmptyString →
            contains (wake_phrase cfg) text = true →
            trailing_command cfg text = EmptyString →
            ∃ s1 evs,
              _process_speech cfg clk s0 text = Some (s1, evs)
              ∧ listening s1 = true
              ∧ spoken evs = ["Yes? I'm listening."]).
  { intros s0 Hw Hin Hcmd. eexists _, _.
    split; [by apply process_speech_wake_only |].
    split; [by rewrite speak_listening |].
    unfold spoken. rewrite !omap_app.
    change (omap _ (speak ?a ?t).2) with (spoken (speak a t).2).
    rewrite speak_spoken. simpl. by destruct (on_listening_change s0). }
  split; [| split; [| split; [| split; [| split]]]].
  - apply process_speech_same, same_but_speaking_set.
  - apply Hwake.
  - intros reply Htts. split; [reflexivity |]. split.
    + unfold speak, speak_begin, speak_end. rewrite Htts. cbn [negb fst snd].
      by rewrite <- !app_assoc.
    + unfold speak. by rewrite Htts.
  - intros reply Htts. unfold speak. by rewrite Htts.
  - intros reply. apply Hwake.
  - intros s' evs Heq. unfold _process_speech in Heq.
    destruct (contains (wake_phrase cfg) text).
    + destruct (split1_last (wake_phrase cfg) text) as [after|]; [| discriminate].
      destruct (negb (is_empty (strip after))).
      * pose proof (handle_command_speaking clk s (strip after)) as Hh.
        destruct (_handle_command clk s (strip after)) as [s1 e1].
        injection Heq as <- <-. exact Hh.
      * pose proof (speak_speaking (set_listening true s) "Yes? I'm listening.") as Hsp.
        destruct (speak (set_listening true s) "Yes? I'm listening.") as [s1 e1].
        injection Heq as <- <-. cbn [fst snd] in Hsp.
        rewrite Hsp. cbn [played omap list_omap]. unfold played.
        rewrite !omap_app.
        by destruct (on_listening_change s1); cbn; rewrite ?app_nil_r.
    + destruct (listening s).
      * pose proof (handle_command_speaking clk s text) as Hh.
        destruct (_handle_command clk s text) as [s1 e1].
        injection Heq as <- <-. cbn [fst snd] in Hh.
        cbn [speaking set_listening]. rewrite Hh. unfold played.
        cbn [omap list_omap]. rewrite !omap_app.
        by destruct (on_listening_change s1); cbn; rewrite ?app_nil_r.
      * injection Heq as <- <-. reflexivity.
Qed.

Lemma speaking_flag_not_consulted_witness :
  ∃ s1 evs,
    _process_speech default_config noon (set_speaking true mid_playback) "hey maya"
    = Some (s1, evs)
    ∧ listening s1 = true
    ∧ spoken evs = ["Yes? I'm listening."].
Proof.
  apply (speaking_flag_not_consulted default_config noon mid_playback true "hey maya");
    [discriminate | reflexivity | reflexivity].
Defined.

(** The claim as the specification words it fails: in the middle of a
    playback, with the [speaking] flag set, "hey maya" takes the
    assistant from idle to listening and makes it answer, as it does
    with the flag clear. *)
Lemma wake_word_while_speaking_counterexample :
  speaking mid_playback = true
  ∧ listening mid_playback = false
  ∧ (listening <$> (fst <$> _process_speech default_config noon mid_playback "hey maya"))
    = Some true
  ∧ (snd <$> _process_speech default_config noon mid_playback "hey maya")
    = Some [Heard "hey maya"; Led "listening"; Speak "Yes? I'm listening.";
            Led "speaking"; Tts "Yes? I'm listening."; Led "idle"].
Proof. vm_compute. repeat split. Qed.

End SpeakingFlag.

(* ================================================================== *)
(** * Further properties of [AlertSystem] *)
(* ================================================================== *)

Section AlertExtras.
Import PyStr Json Alerts.

Lemma in_cooldown_ext (s s' : alert_system) (now : Z) (T : string) :
  _cooldowns s' !! T = _cooldowns s !! T → cooldown s' = cooldown s →
  in_cooldown s' now T = in_cooldown s now T.
Proof.
  intros H1 H2. unfold in_cooldown, cooldown in *. rewrite H1.
  replace (default 30 (fall_cooldown_seconds (config s')))
    with (default 30 (fall_cooldown_seconds (config s))) by lia.
  reflexivity.
Qed.

(** The cooldown is kept for each type on its own: calls for other
    types, accepted or not, change nothing in what the gate answers
    for a type. *)
Theorem cooldown_is_per_type (s : alert_system) (cs : list call) (T : string) (now : Z) :
  Forall (fun c => type_of c ≠ T) cs →
  _cooldowns (run s cs).1 !! T = _cooldowns s !! T
  ∧ in_cooldown (run s cs).1 now T = in_cooldown s now T.
Proof.
  revert s. induction cs as [|c cs IH]; intros s Hall; [by split |].
  apply Forall_cons in Hall as [Hc Hall].
  rewrite run_cons. cbn [fst].
  destruct (IH (trigger_call s c).1 Hall) as [H1 H2].
  pose proof (trigger_other_type s (at_time c) (stamp_of c) (type_of c)
                (message_of c) (severity_of c) T Hc) as Hother.
  pose proof (trigger_frame s (at_time c) (stamp_of c) (type_of c)
                (message_of c) (severity_of c)) as (Hcd & _).
  fold (trigger_call s c) in Hother, Hcd.
  split; [congruence |].
  rewrite H2. by apply in_cooldown_ext.
Qed.

Lemma cooldown_is_per_type_witness :
  in_cooldown (run sample_system
                 [{| at_time := 100000000; stamp_of := "2026-01-01T00:01:40";
                     type_of := "medication"; message_of := "Time to take aspirin";
                     severity_of := "info" |}]).1 100000001 "fall"
  = false.
Proof.
  apply (cooldown_is_per_type sample_system _ "fall" 100000001).
  repeat constructor. discriminate.
Defined.

Lemma run_frame (cs : list call) :
  ∀ s, cooldown (run s cs).1 = cooldown s
       ∧ on_alert_visual (run s cs).1 = on_alert_visual s
       ∧ on_alert_voice (run s cs).1 = on_alert_voice s.
Proof.
  induction cs as [|c cs IH]; intros s; [by repeat split |].
  rewrite run_cons. cbn [fst].
  destruct (IH (trigger_call s c).1) as (H1 & H2 & H3).
  pose proof (trigger_frame s (at_time c) (stamp_of c) (type_of c)
                (message_of c) (severity_of c)) as (F1 & F2 & F3).
  fold (trigger_call s c) in F1, F2, F3.
  repeat split; congruence.
Qed.

(** What one call hands to the sinks. *)
Lemma trigger_call_out (s : alert_system) (c : call) :
  (trigger_call s c).2
  = if in_cooldown s (at_time c) (type_of c) then []
    else (if on_alert_visual s then [Visual (type_of c) (message_of c)] else [])
         ++ (if String.eqb (severity_of c) "critical" && on_alert_voice s
             then [Voice ("Alert! " +:+ message_of c)] else []).
Proof.
  unfold trigger_call, trigger.
  by destruct (in_cooldown s (at_time c) (type_of c)).
Qed.

(** The voice sink is called for critical alerts only: every text it
    is handed in a run is "Alert! " and the message of a critical call
    of that run. *)
Theorem voice_sink_only_critical (s : alert_system) (cs : list call) (t : string) :
  Voice t ∈ (run s cs).2 →
  on_alert_voice s = true
  ∧ ∃ c, c ∈ cs ∧ severity_of c = "critical" ∧ t = "Alert! " +:+ message_of c.
Proof.
  revert s. induction cs as [|c cs IH]; intros s Hin.
  - simpl in Hin. by apply elem_of_nil in Hin.
  - rewrite run_cons in Hin. cbn [snd] in Hin.
    apply elem_of_app in Hin as [Hin | Hin].
    + rewrite trigger_call_out in Hin.
      destruct (in_cooldown s (at_time c) (type_of c));
        [by apply elem_of_nil in Hin |].
      apply elem_of_app in Hin as [Hin | Hin].
      * destruct (on_alert_visual s); [| by apply elem_of_nil in Hin].
        apply list_elem_of_singleton in Hin. discriminate.
      * destruct (String.eqb (severity_of c) "critical") eqn:Esev;
          [| by apply elem_of_nil in Hin].
        destruct (on_alert_voice s) eqn:Ev; [| by apply elem_of_nil in Hin].
        simpl in Hin. apply list_elem_of_singleton in Hin. injection Hin as ->.
        split; [reflexivity |]. exists c. split; [apply elem_of_cons; by left |].
        split; [by apply String.eqb_eq | reflexivity].
    + destruct (IH _ Hin) as (Hv & c' & Hc' & Hsev & Ht).
      pose proof (trigger_frame s (at_time c) (stamp_of c) (type_of c)
                    (message_of c) (severity_of c)) as (_ & _ & F3).
      fold (trigger_call s c) in F3.
      split; [congruence |]. exists c'. split; [apply elem_of_cons; by right | by split].
Qed.

Lemma voice_sink_only_critical_witness :
  on_alert_voice sample_system = true
  ∧ ∃ c, c ∈ [call_a; call_b] ∧ severity_of c = "critical"
         ∧ "Alert! Fall detected" = "Alert! " +:+ message_of c.
Proof.
  apply (voice_sink_only_critical sample_system [call_a; call_b] "Alert! Fall detected").
  vm_compute. apply elem_of_cons. right. apply elem_of_cons. by left.
Defined.

(** The log only grows, and it grows in step with the visual sink: in
    a run on a log of complete lines, with a visual sink registered,
    the old text of the log is the start of the new one, and the
    entries that [get_recent_alerts] can read have grown by one for
    each call of the visual sink. *)
Theorem log_grows_with_notifications (s : alert_system) (cs : list call) :
  line_ended (log_text s) = true →
  on_alert_visual s = true →
  (∃ added, log_text (run s cs).1 = log_text s +:+ added)
  ∧ length (parse_lines (log_text (run s cs).1))
    = (length (parse_lines (log_text s)) + length (visual_calls (run s cs).2))%nat.
Proof.
  revert s. induction cs as [|c cs IH]; intros s Hs Hv.
  - split; [exists EmptyString; by rewrite append_nil_r | simpl; lia].
  - rewrite run_cons. cbn [fst snd].
    destruct (trigger_call_log s c Hs) as (Hs1 & _).
    pose proof (trigger_frame s (at_time c) (stamp_of c) (type_of c)
                  (message_of c) (severity_of c)) as (_ & F2 & _).
    fold (trigger_call s c) in F2.
    destruct (IH (trigger_call s c).1 Hs1) as ((added & Hadd) & Hlen); [congruence |].
    rewrite Hlen, visual_calls_app, length_app, Hadd.
    unfold trigger_call in *.
    destruct (in_cooldown s (at_time c) (type_of c)) eqn:E.
    + rewrite (trigger_suppressed _ _ _ _ _ _ E). cbn [fst snd].
      split; [by exists added | simpl; lia].
    + rewrite (log_text_accepted _ _ _ _ _ _ E).
      destruct (trigger_accepted_effects s _ (stamp_of c) _ (message_of c)
                  (severity_of c) E) as (_ & _ & Hvis & _).
      cbv zeta in Hvis. rewrite Hvis, Hv, parse_lines_record by exact Hs.
      split; [eexists; by rewrite append_assoc | rewrite length_app; simpl; lia].
Qed.

Lemma log_grows_with_notifications_witness :
  length (parse_lines (log_text (run sample_system [call_a; call_b; call_c]).1))
  = (0 + length (visual_calls (run sample_system [call_a; call_b; call_c]).2))%nat.
Proof.
  apply (log_grows_with_notifications sample_system [call_a; call_b; call_c]);
    reflexivity.
Defined.

Lemma recent_alerts_positive_witness :
  ∃ front,
    parse_lines (log_text after_fifteen) = front ++ get_recent_alerts after_fifteen 10
    ∧ length (get_recent_alerts after_fifteen 10)
      = Nat.min (Z.to_nat 10) (length (parse_lines (log_text after_fifteen))).
Proof. apply (recent_alerts_positive after_fifteen 10). lia. Defined.

End AlertExtras.

(* ================================================================== *)
(** * Properties of the monitors of [AlertSystem] *)
(* ================================================================== *)

Section MonitorProps.
Import PyStr Json Alerts Monitors.

(** ** [check_inactivity] *)

Lemma check_inactivity_cons (m : monitor) (t : tick) (ts : list tick) :
  check_inactivity m (t :: ts)
  = ((check_inactivity (check_inactivity_step m t).1 ts).1,
     (check_inactivity_step m t).2
     ++ (check_inactivity (check_inactivity_step m t).1 ts).2).
Proof.
  simpl. destruct (check_inactivity_step m t) as [m1 o1]. simpl.
  by destruct (check_inactivity m1 ts).
Qed.

(** ** [hours > threshold] *)

(** The quotient [total_seconds() / 3600] of an elapsed time that is
    not above the threshold is not above the whole number of hours:
    neither rounding goes past a whole number. *)
Lemma hours_not_gt (us T : Z) :
  Z.abs us ≤ DATETIME_SPAN → us ≤ T * 3600 * 1000000 →
  PyFloat.gt_int (hours us) T = false.
Proof.
  intros Hspan Hle. unfold DATETIME_SPAN in Hspan.
  unfold hours, PyFloat.div_int, PyFloat.total_seconds, PyFloat.true_div,
    PyFloat.gt_int.
  apply Z.ltb_ge.
  destruct (Z.lt_trichotomy us 0) as [Hneg | [Hz | Hpos]].
  - rewrite (nearest_neg us 1000000 Hneg). cbn [PyFloat.mant PyFloat.expo].
    set (e := PyFloat.binade (- us) 1000000).
    assert (He : e ≤ 0).
    { apply binade_nonpos; [lia | lia |].
      change (2 ^ 53) with 9007199254740992. lia. }
    destruct (mant_bounds (- us) 1000000 ltac:(lia) ltac:(lia)) as [Hm0 Hm1].
    fold e in Hm0, Hm1. rewrite (pow2_num_nonpos e He) in *.
    pose proof (pow2_den_pos e) as HP.
    set (P := PyFloat.pow2_den e) in *.
    set (m := PyFloat.round_half_even (- us * P) (1000000 * 1)) in *.
    assert (Hm : - T * 3600 * P ≤ m).
    { apply round_half_even_ge; [lia | nia]. }
    change (2 ^ 52) with 4503599627370496 in *.
    change (2 ^ 53) with 9007199254740992 in *.
    rewrite Z.mul_1_r. rewrite (nearest_neg (- m) (3600 * P)) by lia.
    cbn [PyFloat.mant PyFloat.expo]. rewrite Z.opp_involutive.
    set (e2 := PyFloat.binade m (3600 * P)).
    assert (He2 : e2 ≤ 0).
    { apply binade_nonpos; [lia | lia |].
      change (2 ^ 53) with 9007199254740992. nia. }
    rewrite (pow2_num_nonpos e2 He2).
    pose proof (pow2_den_pos e2) as HP2. set (P2 := PyFloat.pow2_den e2) in *.
    assert (Hm2 : - T * P2 ≤ PyFloat.round_half_even (m * P2) (3600 * P * 1)).
    { apply round_half_even_ge; [lia | nia]. }
    lia.
  - subst us.
    change (PyFloat.nearest 0 1000000) with {| PyFloat.mant := 0; PyFloat.expo := 0 |}.
    cbn [PyFloat.mant PyFloat.expo].
    change (PyFloat.pow2_den 0) with 1. change (PyFloat.pow2_num 0) with 1.
    change (PyFloat.nearest (0 * 1) (3600 * 1))
      with {| PyFloat.mant := 0; PyFloat.expo := 0 |}.
    cbn [PyFloat.mant PyFloat.expo].
    change (PyFloat.pow2_den 0) with 1. change (PyFloat.pow2_num 0) with 1. lia.
  - rewrite (nearest_pos us 1000000 Hpos). cbn [PyFloat.mant PyFloat.expo].
    set (e := PyFloat.binade us 1000000).
    assert (He : e ≤ 0).
    { apply binade_nonpos; [lia | lia |].
      change (2 ^ 53) with 9007199254740992. lia. }
    destruct (mant_bounds us 1000000 ltac:(lia) ltac:(lia)) as [Hm0 Hm1].
    fold e in Hm0, Hm1. rewrite (pow2_num_nonpos e He) in *.
    pose proof (pow2_den_pos e) as HP.
    set (P := PyFloat.pow2_den e) in *.
    set (m := PyFloat.round_half_even (us * P) (1000000 * 1)) in *.
    assert (Hm : m ≤ T * 3600 * P).
    { apply round_half_even_le; [lia | nia]. }
    change (2 ^ 52) with 4503599627370496 in *.
    change (2 ^ 53) with 9007199254740992 in *.
    rewrite Z.mul_1_r. rewrite (nearest_pos m (3600 * P)) by lia.
    cbn [PyFloat.mant PyFloat.expo].
    set (e2 := PyFloat.binade m (3600 * P)).
    assert (He2 : e2 ≤ 0).
    { apply binade_nonpos; [lia | lia |].
      change (2 ^ 53) with 9007199254740992. nia. }
    rewrite (pow2_num_nonpos e2 He2).
    pose proof (pow2_den_pos e2) as HP2. set (P2 := PyFloat.pow2_den e2) in *.
    assert (Hm2 : PyFloat.round_half_even (m * P2) (3600 * P * 1) ≤ T * P2).
    { apply round_half_even_le; [lia | nia]. }
    lia.
Qed.

(** For a threshold between 0 and 2^21 hours, the quotient is above
    the whole number of hours from the first microsecond past the
    threshold on. *)
Lemma hours_gt (us T : Z) :
  0 ≤ T ≤ 2 ^ 21 → T * 3600 * 1000000 < us ≤ DATETIME_SPAN →
  PyFloat.gt_int (hours us) T = true.
Proof.
  intros [HT0 HT1] [Hlt Hspan]. unfold DATETIME_SPAN in Hspan.
  change (2 ^ 21) with 2097152 in HT1.
  assert (Hpos : 0 < us) by lia.
  unfold hours, PyFloat.div_int, PyFloat.total_seconds, PyFloat.true_div,
    PyFloat.gt_int.
  apply Z.ltb_lt.
  rewrite (nearest_pos us 1000000 Hpos). cbn [PyFloat.mant PyFloat.expo].
  set (e := PyFloat.binade us 1000000).
  assert (He : e ≤ 0).
  { apply binade_nonpos; [lia | lia |].
    change (2 ^ 53) with 9007199254740992. lia. }
  destruct (mant_bounds us 1000000 ltac:(lia) ltac:(lia)) as [Hm0 Hm1].
  fold e in Hm0, Hm1.
  assert (Hfine : us < 2 ^ 33 * 1000000 → 2 ^ 20 ≤ PyFloat.pow2_den e).
  { intros H. by destruct (binade_fine us 1000000 Hpos ltac:(lia) H). }
  rewrite (pow2_num_nonpos e He) in *.
  pose proof (pow2_den_pos e) as HP.
  assert (HPe : PyFloat.pow2_den e = 2 ^ (- e)) by (by apply pow2_den_eq).
  set (P := PyFloat.pow2_den e) in *.
  set (m := PyFloat.round_half_even (us * P) (1000000 * 1)) in *.
  change (2 ^ 20) with 1048576 in *. change (2 ^ 33) with 8589934592 in *.
  change (2 ^ 52) with 4503599627370496 in *.
  change (2 ^ 53) with 9007199254740992 in *.
  assert (Hm : T * 3600 * P + 1 ≤ m).
  { apply round_half_even_ge; [lia |].
    destruct (Z_lt_le_dec us (8589934592 * 1000000)) as [Hs | Hs].
    - specialize (Hfine Hs). nia.
    - nia. }
  rewrite Z.mul_1_r. rewrite (nearest_pos m (3600 * P)) by lia.
  cbn [PyFloat.mant PyFloat.expo].
  set (e2 := PyFloat.binade m (3600 * P)).
  assert (He2 : e2 ≤ 0).
  { apply binade_nonpos; [lia | lia |].
    change (2 ^ 53) with 9007199254740992. nia. }
  destruct (binade_spec m (3600 * P) ltac:(lia) ltac:(lia)) as [Hlo2 _].
  fold e2 in Hlo2. rewrite (pow2_num_nonpos e2 He2) in *.
  pose proof (pow2_den_pos e2) as HP2.
  assert (HP2e : PyFloat.pow2_den e2 = 2 ^ (- e2)) by (by apply pow2_den_eq).
  set (P2 := PyFloat.pow2_den e2) in *.
  change (2 ^ 52) with 4503599627370496 in *.
  assert (Hbig : 2048 * P ≤ P2).
  { destruct (Z_le_gt_dec (11 - e) (- e2)) as [H | H].
    - rewrite HP2e, HPe. change 2048 with (2 ^ 11).
      rewrite <- Z.pow_add_r by lia. apply Z.pow_le_mono_r; lia.
    - exfalso. assert (H2 : P2 ≤ 1024 * P).
      { rewrite HP2e, HPe. change 1024 with (2 ^ 10).
        rewrite <- Z.pow_add_r by lia. apply Z.pow_le_mono_r; lia. }
      nia. }
  assert (Hm2 : T * P2 + 1 ≤ PyFloat.round_half_even (m * P2) (3600 * P * 1)).
  { apply round_half_even_gt; [lia | nia]. }
  lia.
Qed.

(** After a motion, the monitor raises nothing for as long as the
    checks come no more than the threshold after it: the state is as the
    motion left it and no sink is called. *)
Theorem inactivity_silent_after_motion (m : monitor) (t0 : Z) (ts : list tick) :
  Forall (fun t => checked_at t - t0 ≤ threshold m) ts →
  check_inactivity (update_motion m t0) ts = (update_motion m t0, []).
Proof.
  induction 1 as [|t ts Ht _ IH]; [reflexivity |].
  rewrite check_inactivity_cons.
  assert (Hstep : check_inactivity_step (update_motion m t0) t
                  = (update_motion m t0, [])).
  { unfold check_inactivity_step. cbn [last_motion monitors update_motion].
    cbv zeta. unfold threshold in Ht.
    destruct (Z.abs (checked_at t - t0) <=? DATETIME_SPAN) eqn:E; [| reflexivity].
    apply Z.leb_le in E. by rewrite (hours_not_gt _ _ E Ht). }
  rewrite Hstep. cbn [fst snd]. by rewrite IH.
Qed.

Lemma inactivity_silent_after_motion_witness :
  check_inactivity (update_motion sample_monitor 1000000)
    [tick_after 1 0 "1.0"; tick_after 4 0 "4.0"]
  = (update_motion sample_monitor 1000000, []).
Proof.
  apply (inactivity_silent_after_motion sample_monitor 1000000).
  repeat constructor; vm_compute; discriminate.
Defined.

(** A run of calls for one type, each at least the cooldown after the
    one before, the first of them accepted: all are accepted. *)
Lemma run_spaced (T : string) (cs : list call) :
  ∀ s, exact_window s →
  Forall (fun c => type_of c = T) cs →
  spaced (cooldown s) cs →
  (∀ c, head cs = Some c → in_cooldown s (at_time c) T = false) →
  log_text (run s cs).1 = log_text s +:+ records cs
  ∧ visual_calls (run s cs).2
    = if on_alert_visual s
      then map (fun c => Visual T (message_of c)) cs else [].
Proof.
  induction cs as [|c cs IH]; intros s Hexact Hall Hsp Hfirst.
  - simpl. rewrite append_nil_r. by destruct (on_alert_visual s).
  - apply Forall_cons in Hall as [HT Hall].
    assert (Hacc : in_cooldown s (at_time c) (type_of c) = false)
      by (rewrite HT; by apply Hfirst).
    destruct (trigger_accepted_effects s (at_time c) (stamp_of c) (type_of c)
                (message_of c) (severity_of c) Hacc)
      as (Hc & Hl & Hv & Hw & Hreg).
    fold (trigger_call s c) in Hc, Hl, Hv, Hw, Hreg. cbv zeta in *.
    rewrite run_cons. cbn [fst snd].
    assert (Hexact1 : exact_window (trigger_call s c).1)
      by (unfold exact_window; by rewrite Hw).
    destruct (IH (trigger_call s c).1 Hexact1 Hall) as [IH1 IH2].
    + rewrite Hw. destruct cs as [|c2 cs]; [exact I | by destruct Hsp].
    + intros c2 Hc2. destruct cs as [|c2' cs]; [discriminate |].
      injection Hc2 as ->. apply Forall_cons in Hall as [HT2 _].
      apply (in_cooldown_false _ _ _ Hexact1). right. exists (at_time c).
      split; [rewrite Hc, <- HT; apply lookup_insert_eq |].
      rewrite Hw. by destruct Hsp.
    + rewrite IH1, visual_calls_app, IH2, Hv, Hreg.
      unfold log_text at 1. rewrite Hl. cbn [default records foldr].
      fold (records cs). fold (record_of c). unfold id.
      split; [by rewrite append_assoc |].
      rewrite HT. by destruct (on_alert_visual s).
Qed.

Lemma check_inactivity_run (ts : list tick) :
  ∀ m, exact_threshold m →
  Forall (fun t => threshold m < checked_at t - last_motion m ≤ DATETIME_SPAN) ts →
  check_inactivity m ts
  = (with_system (run (system m) (map inactivity_call ts)).1 m,
     (run (system m) (map inactivity_call ts)).2).
Proof.
  induction ts as [|t ts IH]; intros m Hexact Hall.
  - simpl. by destruct m.
  - apply Forall_cons in Hall as [Ht Hall].
    rewrite check_inactivity_cons. cbn [map]. rewrite run_cons.
    assert (Hstep : check_inactivity_step m t
                    = (with_system (trigger_call (system m) (inactivity_call t)).1 m,
                       (trigger_call (system m) (inactivity_call t)).2)).
    { unfold check_inactivity_step. cbv zeta.
      unfold exact_threshold, MAX_EXACT_HOURS, threshold in *.
      rewrite (proj2 (Z.leb_le _ _)) by lia.
      rewrite hours_gt by lia. cbn [andb].
      by destruct (trigger_call (system m) (inactivity_call t)). }
    rewrite Hstep. cbn [fst snd]. rewrite IH by exact Hall || exact Hexact.
    reflexivity.
Qed.

(** Without motion the alert is raised again at every check.  For a
    threshold between 0 and 2^21 hours and a cooldown between 0 and 2^33
    seconds: when the checks come after the threshold and the calls of
    [trigger] follow one another by at least the cooldown (the loop
    sleeps 300 seconds between them, the default cooldown is 30), each
    check appends its record and calls the visual sink. *)
Theorem inactivity_alert_repeats (m : monitor) (ts : list tick) :
  exact_threshold m → exact_window (system m) →
  Forall (fun t => threshold m < checked_at t - last_motion m ≤ DATETIME_SPAN) ts →
  spaced (cooldown (system m)) (map inactivity_call ts) →
  (∀ t, head ts = Some t →
        in_cooldown (system m) (triggered_at t) "inactivity" = false) →
  let r := check_inactivity m ts in
  log_text (system r.1)
  = log_text (system m) +:+ records (map inactivity_call ts)
  ∧ visual_calls r.2
    = if on_alert_visual (system m)
      then map (fun t => Visual "inactivity"
                           ("No movement for " +:+ hours_text t +:+ " hours")) ts
      else [].
Proof.
  intros Hthr Hwin Hall Hsp Hfirst. cbv zeta.
  rewrite (check_inactivity_run ts m Hthr Hall). cbn [fst snd system with_system].
  destruct (run_spaced "inactivity" (map inactivity_call ts) (system m) Hwin)
    as [H1 H2].
  - apply Forall_map. by apply Forall_true.
  - exact Hsp.
  - intros c Hc. destruct ts as [|t ts]; [discriminate |].
    injection Hc as <-. by apply Hfirst.
  - split; [exact H1 |]. rewrite H2, map_map. reflexivity.
Qed.

Lemma inactivity_alert_repeats_witness :
  visual_calls
    (check_inactivity sample_monitor
       [tick_after 4 1 "4.0"; tick_after 4 301 "4.1"; tick_after 4 601 "4.2"]).2
  = [Visual "inactivity" "No movement for 4.0 hours";
     Visual "inactivity" "No movement for 4.1 hours";
     Visual "inactivity" "No movement for 4.2 hours"].
Proof.
  apply (inactivity_alert_repeats sample_monitor
           [tick_after 4 1 "4.0"; tick_after 4 301 "4.1"; tick_after 4 601 "4.2"]).
  - vm_compute. split; discriminate.
  - vm_compute. split; discriminate.
  - repeat constructor; vm_compute; (reflexivity || discriminate).
  - vm_compute. repeat split; discriminate.
  - intros t _. reflexivity.
Defined.

(** ** [check_medication_reminders] *)

(** Reminders that are not due are passed over. *)
Lemma remind_not_due s ct clock (pre : list reminder) :
  ∀ i rest, Forall (fun med => due ct med = false) pre →
  remind s ct clock i (pre ++ rest) = remind s ct clock (length pre + i) rest.
Proof.
  induction pre as [|med pre IH]; intros i rest Hpre; [reflexivity |].
  apply Forall_cons in Hpre as [Hmed Hpre].
  simpl. rewrite Hmed, (IH _ _ Hpre). f_equal. lia.
Qed.

(** Inside the cooldown of an accepted reminder, the reminders that
    follow are dropped. *)
Lemma remind_suppressed s ct clock (t1 : Z) (rest : list reminder) :
  exact_window s →
  ∀ i, _cooldowns s !! "medication" = Some t1 →
  (∀ j, (i ≤ j < i + length rest)%nat → (clock j).1 - t1 < cooldown s) →
  Forall (well_named ct) rest →
  remind s ct clock i rest = Some (s, []).
Proof.
  intros Hexact i Hs Hclock Hnamed. revert i Hclock.
  induction Hnamed as [|med rest Hmed _ IH]; intros i Hclock; [reflexivity |].
  simpl in Hclock.
  assert (Hrest : remind s ct clock (S i) rest = Some (s, [])).
  { apply IH. intros j Hj. apply Hclock. lia. }
  simpl. destruct (due ct med) eqn:Edue; [| exact Hrest].
  destruct (Hmed Edue) as [name Hname]. rewrite Hname.
  rewrite trigger_suppressed.
  - by rewrite Hrest.
  - apply (in_cooldown_true _ _ _ Hexact). exists t1.
    split; [exact Hs | apply Hclock; lia].
Qed.

(** Of the reminders that are due at one check only the first is
    raised.  For a cooldown between 0 and 2^33 seconds: when the
    reminders after the first due one are reached less than the cooldown
    after it, as they are when the calls follow at once, the first due
    reminder is logged and the ones after it are suppressed by the
    cooldown of the type "medication". *)
Theorem one_reminder_per_check
    (m : monitor) (ct : string) (clock : nat → Z * string)
    (pre rest : list reminder) (med : reminder) (name : string) :
  exact_window (system m) →
  medication_reminders (monitors m) = Some (pre ++ med :: rest) →
  Forall (fun med' => due ct med' = false) pre →
  due ct med = true → med_name med = Some name →
  Forall (well_named ct) rest →
  in_cooldown (system m) (clock (length pre)).1 "medication" = false →
  (∀ j, (length pre < j ≤ length pre + length rest)%nat →
        (clock j).1 - (clock (length pre)).1 < cooldown (system m)) →
  ∃ m1 out,
    check_medication_step m ct clock = Some (m1, out)
    ∧ log_text (system m1)
      = log_text (system m)
        +:+ record_line (clock (length pre)).2 "medication"
              ("Time to take " +:+ name) "info"
    ∧ visual_calls out
      = if on_alert_visual (system m)
        then [Visual "medication" ("Time to take " +:+ name)] else [].
Proof.
  intros Hexact Hcfg Hpre Hdue Hname Hrest Hacc Hclock.
  unfold check_medication_step. rewrite Hcfg. cbn [default]. unfold id.
  rewrite (remind_not_due _ _ _ pre 0 _ Hpre), Nat.add_0_r.
  cbn [remind]. rewrite Hdue, Hname.
  destruct (trigger_accepted_effects (system m) (clock (length pre)).1
              (clock (length pre)).2 "medication" ("Time to take " +:+ name)
              "info" Hacc) as (Hc & Hl & Hv & Hw & _).
  cbv zeta in *.
  destruct (trigger (system m) (clock (length pre)).1 (clock (length pre)).2
              "medication" ("Time to take " +:+ name) "info") as [s1 out1].
  cbn [fst snd] in *.
  rewrite (remind_suppressed s1 ct clock (clock (length pre)).1 rest).
  - eexists _, _. split; [reflexivity |]. cbn [system with_system].
    split; [unfold log_text at 1; by rewrite Hl | by rewrite app_nil_r].
  - unfold exact_window. by rewrite Hw.
  - rewrite Hc. apply lookup_insert_eq.
  - intros j Hj. rewrite Hw. apply Hclock. lia.
  - exact Hrest.
Qed.

Lemma one_reminder_per_check_witness :
  ∃ m1 out,
    check_medication_step sample_monitor "08:00" morning_clock = Some (m1, out)
    ∧ log_text (system m1)
      = log_text (system sample_monitor)
        +:+ record_line (morning_clock 0).2 "medication"
              ("Time to take " +:+ "aspirin") "info"
    ∧ visual_calls out
      = if on_alert_visual (system sample_monitor)
        then [Visual "medication" ("Time to take " +:+ "aspirin")] else [].
Proof.
  apply (one_reminder_per_check sample_monitor "08:00" morning_clock []
           [{| med_name := Some "vitamin D"; med_times := Some ["08:00"] |}]
           {| med_name := Some "aspirin"; med_times := Some ["08:00"; "20:00"] |}
           "aspirin").
  - vm_compute. split; discriminate.
  - reflexivity.
  - constructor.
  - reflexivity.
  - reflexivity.
  - repeat constructor. intros _. simpl. eauto.
  - reflexivity.
  - intros j Hj. unfold morning_clock, cooldown. simpl in *. lia.
Defined.

End MonitorProps.

(* ================================================================== *)
(** * Further properties of [SensorHub] *)
(* ================================================================== *)

Section HubExtras.
Import PyStr Sensors HubOps.

Lemma filter_publish_publish h n st v :
  filter (fun e => is_publish e = true) (publish h n st v) = publish h n st v.
Proof.
  unfold publish. induction (callbacks h) as [|cb cbs IH]; [reflexivity |].
  cbn [map]. rewrite filter_cons, decide_True by reflexivity. by rewrite IH.
Qed.

(** A successful read of a connected sensor. *)
Lemma poll_body_read_ok h l n env s v :
  objects h !! l = Some s →
  status s = Connected → is_Some (read_fn s) → read_result env = Some v →
  poll_body h l n env
  = (store h l (with_error_count 0 (with_value v s)),
     ReadFn n :: publish h n Connected v).
Proof.
  intros Hs Hst Hrf Henv. unfold poll_body. rewrite Hs.
  rewrite (bool_decide_eq_true_2 _ Hst), (bool_decide_eq_true_2 _ Hrf). simpl.
  rewrite Henv. simpl. by rewrite Hst.
Qed.

(** The failures that count are those in a row: a successful read
    sets the counter back to zero.  After up to five failed reads and
    one good one the sensor is connected, holds the value read, has a
    counter of zero, and every subscriber was called once, with that
    value. *)
Theorem read_success_resets_counter
    (h : hub) (l : nat) (n : string) (s : sensor)
    (envs : list io) (env : io) (v : string) :
  objects h !! l = Some s →
  status s = Connected → is_Some (read_fn s) →
  Forall read_fails envs →
  error_count s + Z.of_nat (length envs) ≤ 5 →
  read_result env = Some v →
  let r := poll_loop h l n (envs ++ [env]) in
  objects r.1 !! l = Some (with_error_count 0 (with_value v s))
  ∧ filter (fun e => is_publish e = true) r.2
    = map (fun cb => Publish cb n Connected v) (callbacks h).
Proof.
  intros Hs Hst Hrf Hall Hcnt Henv.
  destruct (failed_reads_below envs h l n s Hs Hst Hrf Hall Hcnt) as (Ho & Hc & Hp).
  cbv zeta in *. rewrite poll_loop_app, poll_loop_cons. cbn [poll_loop fst snd].
  set (h1 := (poll_loop h l n envs).1) in *.
  rewrite poll_step_state, poll_step_events.
  rewrite (poll_body_read_ok h1 l n env _ v Ho) by auto.
  cbn [fst snd]. split.
  - unfold store. cbn [objects]. rewrite lookup_insert_eq. by destruct s.
  - rewrite app_nil_r, filter_app, Hp, app_nil_l.
    rewrite filter_app, filter_publish_sleep, app_nil_r.
    rewrite filter_cons, decide_False by (simpl; discriminate).
    rewrite filter_publish_publish. unfold publish. by rewrite Hc.
Qed.

Lemma read_success_resets_counter_witness :
  let r := poll_loop demo_hub 0%nat "MAX30102"
             (replicate 5 read_error ++ [read_ok "70 bpm"]) in
  get_reading r.1 "MAX30102" = Some "70 bpm"
  ∧ filter (fun e => is_publish e = true) r.2
    = [Publish 0%nat "MAX30102" Connected "70 bpm"].
Proof.
  destruct (read_success_resets_counter demo_hub 0%nat "MAX30102"
              {| name := "MAX30102"; status := Connected; value := "72 bpm";
                 read_fn := Some 0%nat; interval := 2000; i2c_addr := None;
                 last_read := 0; error_count := 0 |}
              (replicate 5 read_error) (read_ok "70 bpm") "70 bpm") as [Ho Hp].
  - reflexivity.
  - reflexivity.
  - simpl. eauto.
  - repeat constructor.
  - simpl. lia.
  - reflexivity.
  - cbv zeta in *. split; [| exact Hp].
    unfold get_reading, get_sensor.
    replace (sensors (poll_loop demo_hub 0%nat "MAX30102"
                        (replicate 5 read_error ++ [read_ok "70 bpm"])).1 !! "MAX30102")
      with (Some 0%nat) by (vm_compute; reflexivity).
    by rewrite Ho.
Defined.

(** ** What [probe] does to the store *)

(** Any object of the store, after any call of [probe]: its
    capabilities, its address and its counter are as they were; it is
    pending only if it was; and it is untouched when it has no probe
    path. *)
Lemma probe_object h n env l s :
  objects h !! l = Some s →
  ∃ s', objects (probe h n env).1.1 !! l = Some s'
        ∧ read_fn s' = read_fn s ∧ i2c_addr s' = i2c_addr s
        ∧ error_count s' = error_count s
        ∧ (status s' = Pending → status s = Pending)
        ∧ (no_probe_path h s → s' = s).
Proof.
  intros Hs. unfold probe.
  destruct (sensors h !! n) as [l0|]; [| by exists s].
  destruct (objects h !! l0) as [s0|] eqn:Es0; [| by exists s].
  destruct (decide (l0 = l)) as [-> | Hne].
  - rewrite Hs in Es0. injection Es0 as <-.
    destruct (if _bus h then addr_truthy (i2c_addr s) else None) eqn:Epath.
    + destruct (bus_ok env); cbn [fst snd store objects];
        rewrite lookup_insert_eq; eexists; (split; [reflexivity |]);
        repeat split; try discriminate; intros [Hp _]; congruence.
    + destruct (read_fn s) eqn:Erf; [| by exists s].
      destruct (read_result env); cbn [fst snd store objects];
        rewrite lookup_insert_eq; eexists; (split; [reflexivity |]);
        repeat split; simpl; try done; try discriminate; intros [_ Hp]; congruence.
  - assert (Hkeep : ∀ x, <[l0 := x]> (objects h) !! l = Some s)
      by (intros x; by rewrite lookup_insert_ne).
    destruct (if _bus h then addr_truthy (i2c_addr s0) else None).
    + destruct (bus_ok env); cbn [fst snd store objects]; rewrite Hkeep; by exists s.
    + destruct (read_fn s0); [| by exists s].
      destruct (read_result env); cbn [fst snd store objects]; rewrite Hkeep;
        by exists s.
Qed.

Lemma probe_frame h n env :
  sensors (probe h n env).1.1 = sensors h
  ∧ _bus (probe h n env).1.1 = _bus h
  ∧ callbacks (probe h n env).1.1 = callbacks h.
Proof.
  unfold probe.
  destruct (sensors h !! n) as [l0|]; [| done].
  destruct (objects h !! l0) as [s0|]; [| done].
  destruct (if _bus h then addr_truthy (i2c_addr s0) else None).
  - by destruct (bus_ok env).
  - destruct (read_fn s0); [| done]. by destruct (read_result env).
Qed.

(** A probe that returns [True] on the sensor that the loop holds. *)
Lemma probe_true_object h n env l s :
  sensors h !! n = Some l → objects h !! l = Some s →
  (probe h n env).1.2 = true →
  ∃ s', objects (probe h n env).1.1 !! l = Some s'
        ∧ status s' = Connected ∧ read_fn s' = read_fn s
        ∧ error_count s' = error_count s.
Proof.
  intros El Es. unfold probe. rewrite El, Es.
  destruct (if _bus h then addr_truthy (i2c_addr s) else None).
  - destruct (bus_ok env); [| discriminate]. intros _.
    cbn [fst snd store objects]. rewrite lookup_insert_eq.
    eexists. split; [reflexivity | by destruct s].
  - destruct (read_fn s) eqn:Erf; [| discriminate].
    destruct (read_result env); [| discriminate]. intros _.
    cbn [fst snd store objects]. rewrite lookup_insert_eq.
    eexists. split; [reflexivity |]. by rewrite <- Erf.
Qed.

(** A sensor that went offline by the threshold and comes back by a
    probe keeps its counter: [probe] does not set it to zero.  So the
    first failed read after the return takes it offline again, with the
    value "ERR". *)
Theorem reconnected_sensor_drops_at_first_failure
    (h : hub) (l : nat) (n : string) (s : sensor) (env1 env2 : io) :
  sensors h !! n = Some l → objects h !! l = Some s →
  status s = Offline → is_Some (read_fn s) → 5 ≤ error_count s →
  (probe h n env1).1.2 = true → read_fails env2 →
  get_status (poll_loop h l n [env1]).1 n = Some Connected
  ∧ get_status (poll_loop h l n [env1; env2]).1 n = Some Offline
  ∧ get_reading (poll_loop h l n [env1; env2]).1 n = Some "ERR".
Proof.
  intros El Es Hst Hrf Hcnt Hok Hfail.
  destruct (probe_true_object h n env1 l s El Es Hok) as (s1 & Es1 & Hst1 & Hrf1 & Hc1).
  destruct (probe_frame h n env1) as (Hreg & _ & _).
  assert (Hstep1 : (poll_step h l n env1).1 = (probe h n env1).1.1).
  { rewrite poll_step_state, (poll_body_offline h l n env1 s Es Hst). reflexivity. }
  rewrite !poll_loop_cons. cbn [poll_loop fst]. rewrite Hstep1.
  set (h1 := (probe h n env1).1.1) in *.
  split; [| split].
  - unfold get_status, get_sensor. rewrite Hreg, El, Es1. simpl. by rewrite Hst1.
  - rewrite poll_step_state.
    rewrite (poll_body_failed_read_above h1 l n env2 s1 Es1 Hst1)
      by (rewrite ?Hrf1; auto; lia).
    unfold get_status, get_sensor. cbn [fst store sensors objects].
    rewrite Hreg, El, lookup_insert_eq. reflexivity.
  - rewrite poll_step_state.
    rewrite (poll_body_failed_read_above h1 l n env2 s1 Es1 Hst1)
      by (rewrite ?Hrf1; auto; lia).
    unfold get_reading, get_sensor. cbn [fst store sensors objects].
    rewrite Hreg, El, lookup_insert_eq. reflexivity.
Qed.

Lemma reconnected_sensor_drops_at_first_failure_witness :
  get_status (poll_loop offline_hub 0%nat "MAX30102" [read_ok "70 bpm"]).1 "MAX30102"
  = Some Connected
  ∧ get_status (poll_loop offline_hub 0%nat "MAX30102"
                  [read_ok "70 bpm"; read_error]).1 "MAX30102" = Some Offline
  ∧ get_reading (poll_loop offline_hub 0%nat "MAX30102"
                   [read_ok "70 bpm"; read_error]).1 "MAX30102" = Some "ERR".
Proof.
  apply (reconnected_sensor_drops_at_first_failure offline_hub 0%nat "MAX30102"
           {| name := "MAX30102"; status := Offline; value := "ERR";
              read_fn := Some 0%nat; interval := 2000; i2c_addr := None;
              last_read := 0; error_count := 6 |}).
  - reflexivity.
  - reflexivity.
  - reflexivity.
  - simpl. eauto.
  - simpl. lia.
  - reflexivity.
  - reflexivity.
Defined.

End HubExtras.

Section HubInvariants.
Import PyStr Sensors HubOps.

Lemma probe_events_connected_update h n m env :
  Forall (connected_update m) (probe h n env).2.
Proof.
  unfold probe.
  destruct (sensors h !! n); [| constructor].
  destruct (objects h !! _) as [s|]; [| constructor].
  destruct (if _bus h then addr_truthy (i2c_addr s) else None).
  - destruct (bus_ok env); by repeat constructor.
  - destruct (read_fn s); [| constructor].
    destruct (read_result env); by repeat constructor.
Qed.

Lemma publish_connected_update h n v :
  Forall (connected_update n) (publish h n Connected v).
Proof.
  unfold publish. apply Forall_forall. intros e He.
  apply list_elem_of_fmap in He as (cb & -> & _). by split.
Qed.

Lemma poll_body_connected_update h l n env :
  Forall (connected_update n) (poll_body h l n env).2.
Proof.
  unfold poll_body. destruct (objects h !! l) as [s|]; [| constructor].
  destruct (bool_decide (status s = Connected)) eqn:Hc.
  - destruct (bool_decide (is_Some (read_fn s))); cbn [andb].
    + destruct (read_result env) as [v|].
      * cbn [snd status value with_error_count with_value].
        apply bool_decide_eq_true_1 in Hc. rewrite Hc.
        constructor; [exact I | apply publish_connected_update].
      * cbn zeta. destruct (5 <? _); by repeat constructor.
    + destruct (bool_decide (status s = Offline)); [| constructor].
      pose proof (probe_events_connected_update h n n env) as Hp.
      destruct (probe h n env) as [[h1 b] evs]. by constructor.
  - cbn [andb]. destruct (bool_decide (status s = Offline)); [| constructor].
    pose proof (probe_events_connected_update h n n env) as Hp.
    destruct (probe h n env) as [[h1 b] evs]. by constructor.
Qed.

Lemma sleep_connected_update h l n : Forall (connected_update n) (sleep_of h l).
Proof. unfold sleep_of. destruct (objects h !! l); by repeat constructor. Qed.

Lemma poll_loop_connected_updates (envs : list io) :
  ∀ h l n, Forall (connected_update n) (poll_loop h l n envs).2.
Proof.
  induction envs as [|env envs IH]; intros h l n; [constructor |].
  rewrite poll_loop_cons. cbn [snd]. rewrite poll_step_events.
  rewrite !Forall_app. split; [split |].
  - apply poll_body_connected_update.
  - apply sleep_connected_update.
  - apply IH.
Qed.

(** Whatever the state of the hub and whatever the hardware answers,
    the polling loop of a sensor calls the subscribers only for that
    sensor and only with the status connected: the loop sets a sensor
    offline without telling them. *)
Theorem poll_loop_publishes_only_connected
    (h : hub) (l : nat) (n : string) (envs : list io) :
  Forall (connected_update n) (poll_loop h l n envs).2.
Proof. apply poll_loop_connected_updates. Qed.

Lemma deliver_app cb d evs1 evs2 :
  deliver cb d (evs1 ++ evs2) = deliver cb (deliver cb d evs1) evs2.
Proof. unfold deliver. apply foldl_app. Qed.

Lemma deliver_connected_update cb n evs :
  Forall (connected_update n) evs →
  ∀ d,
  (∀ m, m ≠ n → deliver cb d evs !! m = d !! m)
  ∧ (deliver cb d evs !! n = d !! n
     ∨ ∃ v, deliver cb d evs !! n = Some (Connected, v)).
Proof.
  induction 1 as [|e evs He _ IH]; intros d; [by split; [| left] |].
  change (deliver cb d (e :: evs)) with (deliver cb (deliver cb d [e]) evs).
  destruct (IH (deliver cb d [e])) as [Hm Hn].
  assert (He' : (∀ m, m ≠ n → deliver cb d [e] !! m = d !! m)
                ∧ (deliver cb d [e] !! n = d !! n
                   ∨ ∃ v, deliver cb d [e] !! n = Some (Connected, v))).
  { destruct e as [| | | cb' n' st v |]; try (by split; [| left]).
    destruct He as [-> ->]. cbn [deliver foldl].
    destruct (decide (cb' = cb)); [| by split; [| left]].
    unfold update_sensor. split.
    - intros m Hne. by rewrite lookup_insert_ne.
    - right. exists v. by rewrite lookup_insert_eq. }
  destruct He' as [Hm' Hn']. split.
  - intros m Hne. by rewrite Hm, Hm'.
  - destruct Hn as [Hn | Hn]; [| by right].
    rewrite Hn. exact Hn'.
Qed.

(** The display as [main.py] subscribes it, during the polling loop
    of the sensor [n]: the entries of the other sensors stay as they
    are, and the entry of [n] stays as it is or shows connected.  So a
    sensor that the display shows as connected is still shown as
    connected after the loop has set it offline. *)
Theorem display_keeps_connected
    (h : hub) (l : nat) (n : string) (envs : list io)
    (cb : nat) (d : gmap string (sensor_status * string)) (v : string) :
  d !! n = Some (Connected, v) →
  let d' := deliver cb d (poll_loop h l n envs).2 in
  (∃ v', d' !! n = Some (Connected, v'))
  ∧ (∀ m, m ≠ n → d' !! m = d !! m).
Proof.
  intros Hd. cbv zeta.
  destruct (deliver_connected_update cb n _
              (poll_loop_connected_updates envs h l n) d) as [Hm Hn].
  split; [| exact Hm].
  destruct Hn as [Hn | Hn]; [| exact Hn]. exists v. by rewrite Hn.
Qed.

Lemma display_keeps_connected_witness :
  let r := poll_loop demo_hub 0%nat "MAX30102" (replicate 6 read_error) in
  let d : gmap string (sensor_status * string) :=
    {["MAX30102" := (Connected, "72 bpm")]} in
  get_status r.1 "MAX30102" = Some Offline
  ∧ ∃ v', deliver 0%nat d r.2 !! "MAX30102" = Some (Connected, v').
Proof.
  cbv zeta. split; [vm_compute; reflexivity |].
  apply (display_keeps_connected demo_hub 0%nat "MAX30102" (replicate 6 read_error)
           0%nat {["MAX30102" := (Connected, "72 bpm")]} "72 bpm").
  apply lookup_singleton_eq.
Defined.

(** ** Successful reads *)

Lemma poll_loop_reads_ok (envs : list io) :
  ∀ h l n s,
  objects h !! l = Some s → status s = Connected → is_Some (read_fn s) →
  Forall (fun env => is_Some (read_result env)) envs →
  let r := poll_loop h l n envs in
  sensors r.1 = sensors h
  ∧ callbacks r.1 = callbacks h
  ∧ (∀ l', l' ≠ l → objects r.1 !! l' = objects h !! l')
  ∧ (∃ s', objects r.1 !! l = Some s' ∧ status s' = Connected
           ∧ read_fn s' = read_fn s
           ∧ value s' = default (value s) (last (readings envs)))
  ∧ filter (fun e => is_publish e = true) r.2
    = flat_map (fun v => publish h n Connected v) (readings envs).
Proof.
  induction envs as [|env envs IH]; intros h l n s Hs Hst Hrf Hall.
  - simpl. repeat split. by exists s.
  - apply Forall_cons in Hall as [[v Hv] Hall].
    rewrite poll_loop_cons. cbn [fst snd].
    rewrite poll_step_state, poll_step_events.
    rewrite (poll_body_read_ok h l n env s v Hs Hst Hrf Hv). cbn [fst snd].
    set (s1 := with_error_count 0 (with_value v s)).
    destruct (IH (store h l s1) l n s1) as (Hreg & Hcb & Hother & (s' & Es' & Hst' & Hrf' & Hv') & Hev);
      auto.
    { unfold store. cbn [objects]. apply lookup_insert_eq. }
    repeat split.
    + exact Hreg.
    + exact Hcb.
    + intros l' Hne. rewrite Hother by done. unfold store. cbn [objects].
      by rewrite lookup_insert_ne.
    + exists s'. repeat split; auto.
      rewrite Hv'. unfold readings. cbn [omap list_omap]. rewrite Hv.
      fold (readings envs). cbn [value s1 with_error_count with_value].
      destruct (readings envs) as [|v1 vs] eqn:Er; [reflexivity |].
      rewrite last_cons_cons.
      destruct (proj2 (last_is_Some (v1 :: vs)) ltac:(discriminate)) as [w ->].
      reflexivity.
    + rewrite !filter_app, Hev, filter_publish_sleep, app_nil_r.
      rewrite filter_cons, decide_False by (simpl; discriminate).
      rewrite filter_publish_publish.
      unfold readings. cbn [omap list_omap]. rewrite Hv. reflexivity.
Qed.

(** A second [register] under a name whose polling loop runs does not
    reach the loop: the loop holds the dictionary it took when it
    started.  While the reads succeed it goes on sending the readings of
    the old dictionary, as connected, under the name; the registry holds
    the new dictionary, which stays pending with the default value, so
    [get_status] and [get_reading] do not show what the subscribers
    get. *)
Theorem reregistered_sensor_polled_stale
    (h : hub) (l : nat) (n : string) (s : sensor)
    (rf : option nat) (iv : Z) (addr : option Z) (envs : list io) :
  hub_wf h →
  sensors h !! n = Some l → objects h !! l = Some s →
  status s = Connected → is_Some (read_fn s) →
  Forall (fun env => is_Some (read_result env)) envs →
  let r := poll_loop (register h n rf iv addr) l n envs in
  get_sensor r.1 n = Some (fresh_sensor n rf iv addr)
  ∧ filter (fun e => is_publish e = true) r.2
    = flat_map (fun v => publish h n Connected v) (readings envs).
Proof.
  intros Hwf El Es Hst Hrf Hall. cbv zeta.
  assert (Hlt : (l < next_id h)%nat) by exact (Hwf n l El).
  set (h' := register h n rf iv addr).
  assert (Es' : objects h' !! l = Some s).
  { unfold h', register. cbn [objects]. rewrite lookup_insert_ne by lia. exact Es. }
  destruct (poll_loop_reads_ok envs h' l n s Es' Hst Hrf Hall)
    as (Hreg & _ & Hother & _ & Hev).
  cbv zeta in *. split.
  - unfold get_sensor. rewrite Hreg. unfold h' at 1. unfold register at 1.
    cbn [sensors]. rewrite lookup_insert_eq.
    rewrite Hother by lia. unfold h', register. cbn [objects].
    by rewrite lookup_insert_eq.
  - exact Hev.
Qed.

Lemma reregistered_sensor_polled_stale_witness :
  let r := poll_loop (register demo_hub "MAX30102" None 1000 (Some 87)) 0%nat
             "MAX30102" [read_ok "70 bpm"; read_ok "71 bpm"] in
  get_sensor r.1 "MAX30102" = Some (fresh_sensor "MAX30102" None 1000 (Some 87))
  ∧ filter (fun e => is_publish e = true) r.2
    = [Publish 0%nat "MAX30102" Connected "70 bpm";
       Publish 0%nat "MAX30102" Connected "71 bpm"].
Proof.
  apply (reregistered_sensor_polled_stale demo_hub 0%nat "MAX30102"
           {| name := "MAX30102"; status := Connected; value := "72 bpm";
              read_fn := Some 0%nat; interval := 2000; i2c_addr := None;
              last_read := 0; error_count := 0 |}
           None 1000 (Some 87) [read_ok "70 bpm"; read_ok "71 bpm"]).
  - exact demo_hub_wf.
  - reflexivity.
  - reflexivity.
  - reflexivity.
  - simpl. eauto.
  - repeat constructor; simpl; eauto.
Defined.

End HubInvariants.

Section StartUp.
Import PyStr Sensors HubOps.

(** ** [scan_i2c] *)

(** What the scan reports: with a bus, exactly the addresses from 0x03
    to 0x77 on which a byte can be read, each under its name in the
    table or under "Unknown-0x" and its two hexadecimal digits; without
    a bus, nothing. *)
Theorem scan_i2c_reports (h : hub) (responds : Z → bool) (addr : Z) (label : string) :
  (addr, label) ∈ scan_i2c h responds
  ↔ _bus h = true ∧ 3 ≤ addr < 120 ∧ responds addr = true
    ∧ label = device_name addr.
Proof.
  unfold scan_i2c. destruct (_bus h).
  - rewrite list_elem_of_omap. split.
    + intros (a & Ha & Hr). apply elem_of_seqZ in Ha.
      destruct (responds a) eqn:Era; [| discriminate].
      injection Hr as <- <-. repeat split; auto; lia.
    + intros (_ & Hrange & Hr & ->). exists addr. split.
      * apply elem_of_seqZ. lia.
      * by rewrite Hr.
  - split; [by intros ?%elem_of_nil | by intros [? _]].
Qed.

(** ** [start_all] *)

Lemma probe_object_none h n env l :
  objects h !! l = None → objects (probe h n env).1.1 !! l = None.
Proof.
  intros Hl. unfold probe.
  destruct (sensors h !! n) as [l0|]; [| done].
  destruct (objects h !! l0) as [s0|] eqn:Es0; [| done].
  assert (Hne : l0 ≠ l) by congruence.
  destruct (if _bus h then addr_truthy (i2c_addr s0) else None).
  - destruct (bus_ok env); cbn [fst snd store objects]; by rewrite lookup_insert_ne.
  - destruct (read_fn s0); [| done].
    destruct (read_result env); cbn [fst snd store objects];
      by rewrite lookup_insert_ne.
Qed.

Lemma probe_events_no_publish h n m env :
  Forall (not_about m) (probe h n env).2.
Proof.
  unfold probe.
  destruct (sensors h !! n); [| constructor].
  destruct (objects h !! _) as [s|]; [| constructor].
  destruct (if _bus h then addr_truthy (i2c_addr s) else None).
  - destruct (bus_ok env); by repeat constructor.
  - destruct (read_fn s); [| constructor].
    destruct (read_result env); by repeat constructor.
Qed.

Lemma probe_each_cons h n names env :
  probe_each h (n :: names) env
  = ((probe_each (probe h n (env n)).1.1 names env).1,
     (probe h n (env n)).2 ++ (probe_each (probe h n (env n)).1.1 names env).2).
Proof.
  simpl. destruct (probe h n (env n)) as [[h1 b] evs1]. simpl.
  by destruct (probe_each h1 names env).
Qed.

Lemma no_probe_path_frame h h' s s' :
  _bus h' = _bus h → read_fn s' = read_fn s → i2c_addr s' = i2c_addr s →
  no_probe_path h' s' ↔ no_probe_path h s.
Proof. unfold no_probe_path. by intros -> -> ->. Qed.

Lemma probe_each_frame names env :
  ∀ h, sensors (probe_each h names env).1 = sensors h
       ∧ _bus (probe_each h names env).1 = _bus h
       ∧ callbacks (probe_each h names env).1 = callbacks h.
Proof.
  induction names as [|n names IH]; intros h; [done |].
  rewrite probe_each_cons. cbn [fst].
  destruct (IH (probe h n (env n)).1.1) as (H1 & H2 & H3).
  destruct (probe_frame h n (env n)) as (G1 & G2 & G3).
  repeat split; congruence.
Qed.

Lemma probe_each_events names env m :
  ∀ h, Forall (not_about m) (probe_each h names env).2.
Proof.
  induction names as [|n names IH]; intros h; [constructor |].
  rewrite probe_each_cons. cbn [snd]. apply Forall_app. split.
  - apply probe_events_no_publish.
  - apply IH.
Qed.

Lemma probe_each_object names env :
  ∀ h l s,
  objects h !! l = Some s →
  ∃ s', objects (probe_each h names env).1 !! l = Some s'
        ∧ read_fn s' = read_fn s ∧ i2c_addr s' = i2c_addr s
        ∧ (status s' = Pending → status s = Pending)
        ∧ (no_probe_path h s → s' = s).
Proof.
  induction names as [|n names IH]; intros h l s Hs; [by exists s |].
  rewrite probe_each_cons. cbn [fst].
  destruct (probe_object h n (env n) l s Hs) as (s1 & Es1 & Hrf1 & Ha1 & _ & Hp1 & Hu1).
  destruct (IH _ l s1 Es1) as (s2 & Es2 & Hrf2 & Ha2 & Hp2 & Hu2).
  exists s2. repeat split; try congruence; auto.
  intros Hno. rewrite <- (Hu1 Hno). apply Hu2.
  rewrite (Hu1 Hno).
  destruct (probe_frame h n (env n)) as (_ & Hb & _).
  by apply (no_probe_path_frame h _ s s).
Qed.

Lemma probe_each_object_none names env :
  ∀ h l, objects h !! l = None → objects (probe_each h names env).1 !! l = None.
Proof.
  induction names as [|n names IH]; intros h l Hl; [done |].
  rewrite probe_each_cons. cbn [fst]. by apply IH, probe_object_none.
Qed.

Lemma probe_each_has_read_fn names env h m :
  has_read_fn (probe_each h names env).1 m = has_read_fn h m.
Proof.
  unfold has_read_fn, get_sensor.
  destruct (probe_each_frame names env h) as (-> & _ & _).
  destruct (sensors h !! m) as [l|]; [| reflexivity].
  destruct (objects h !! l) as [s|] eqn:Es.
  - destruct (probe_each_object names env h l s Es) as (s' & -> & -> & _). reflexivity.
  - by rewrite (probe_each_object_none names env h l Es).
Qed.

Lemma start_all_eq h names env :
  start_all h names env
  = ((probe_each h names env).1,
     (probe_each h names env).2 ++ publish_all (probe_each h names env).1 names,
     List.filter (has_read_fn (probe_each h names env).1) names).
Proof. unfold start_all. by destruct (probe_each h names env). Qed.

Lemma start_all_snd h names env :
  (start_all h names env).2 = List.filter (has_read_fn h) names.
Proof.
  rewrite start_all_eq. cbn [snd].
  apply List.filter_ext. intros m. apply probe_each_has_read_fn.
Qed.

(** The polling tasks that [start_all] creates are those of the
    sensors registered with a read capability, whatever the probes gave:
    a sensor whose probe failed has its task all the same, and a sensor
    registered with an address only has none, connected or not. *)
Theorem start_all_tasks (h : hub) (names : list string) (env : string → io) :
  (start_all h names env).2 = List.filter (has_read_fn h) names.
Proof. apply start_all_snd. Qed.

Lemma probe_self_not_pending h n env l s :
  sensors h !! n = Some l → objects h !! l = Some s → ¬ no_probe_path h s →
  ∃ s', objects (probe h n env).1.1 !! l = Some s' ∧ status s' ≠ Pending.
Proof.
  intros El Es Hpath. unfold probe, no_probe_path in *. rewrite El, Es.
  destruct (if _bus h then addr_truthy (i2c_addr s) else None).
  - destruct (bus_ok env); cbn [fst snd store objects];
      rewrite lookup_insert_eq; eexists; split; try reflexivity; discriminate.
  - destruct (read_fn s); [| by destruct Hpath].
    destruct (read_result env); cbn [fst snd store objects];
      rewrite lookup_insert_eq; eexists; split; try reflexivity; discriminate.
Qed.

(** After [start_all] no sensor that can be probed, over the bus at
    its address or by its read capability, is left pending. *)
Theorem start_all_probed_not_pending
    (h : hub) (names : list string) (env : string → io) (n : string) (s : sensor) :
  n ∈ names → get_sensor h n = Some s → ¬ no_probe_path h s →
  ∃ st, get_status (start_all h names env).1.1 n = Some st ∧ st ≠ Pending.
Proof.
  intros Hin Hs Hpath. rewrite start_all_eq. cbn [fst].
  unfold get_status, get_sensor in *.
  destruct (probe_each_frame names env h) as (-> & _ & _).
  destruct (sensors h !! n) as [l|] eqn:El; [| discriminate].
  revert h s El Hs Hpath. induction names as [|n0 names IH]; intros h s El Hs Hpath.
  { by apply elem_of_nil in Hin. }
  rewrite probe_each_cons. cbn [fst].
  destruct (probe_frame h n0 (env n0)) as (Hreg & Hbus & _).
  destruct (decide (n0 = n)) as [-> | Hne].
  - destruct (probe_self_not_pending h n (env n) l s El Hs Hpath) as (s1 & Es1 & Hst1).
    destruct (probe_each_object names env _ l s1 Es1) as (s2 & -> & _ & _ & Hp & _).
    exists (status s2). split; [reflexivity |]. intros Hpend. by apply Hst1, Hp.
  - apply elem_of_cons in Hin as [-> | Hin]; [done |].
    destruct (probe_object h n0 (env n0) l s Hs) as (s1 & Es1 & Hrf1 & Ha1 & _).
    apply (IH Hin _ s1); [congruence | exact Es1 |].
    intros Hno. apply Hpath. by apply (no_probe_path_frame h _ s s1) in Hno.
Qed.

Lemma start_all_probed_not_pending_witness :
  get_status
    (start_all (live_hub true) live_names
       (fun n => {| bus_ok := String.eqb n "BME280"; read_result := None |})).1.1
    "MPU6050" = Some Offline.
Proof.
  destruct (start_all_probed_not_pending (live_hub true) live_names
              (fun n => {| bus_ok := String.eqb n "BME280"; read_result := None |})
              "MPU6050" (fresh_sensor "MPU6050" None 100 (Some 104)))
    as (st & Hst & _).
  - unfold live_names. set_solver.
  - reflexivity.
  - intros [Hno _]. discriminate Hno.
  - rewrite Hst. vm_compute in Hst. exact (eq_sym Hst).
Defined.

(** A sensor that [probe] has no way to try (no bus or no address, and
    no read capability) comes out of [start_all] as it went in, and no
    task polls it: in live mode without a bus the four sensors stay
    pending. *)
Theorem start_all_unreachable_unchanged
    (h : hub) (names : list string) (env : string → io) (n : string) (s : sensor) :
  get_sensor h n = Some s → no_probe_path h s →
  let r := start_all h names env in
  get_sensor r.1.1 n = Some s ∧ n ∉ r.2.
Proof.
  intros Hs Hno. cbv zeta. split.
  - rewrite start_all_eq. cbn [fst]. unfold get_sensor in *.
    destruct (probe_each_frame names env h) as (-> & _ & _).
    destruct (sensors h !! n) as [l|]; [| discriminate].
    destruct (probe_each_object names env h l s Hs) as (s' & -> & _ & _ & _ & Hu).
    by rewrite (Hu Hno).
  - rewrite start_all_snd. intros Hin.
    apply list_elem_of_In, List.filter_In in Hin as [_ Hrf].
    unfold has_read_fn in Hrf. rewrite Hs in Hrf.
    destruct Hno as [_ Hnone]. rewrite Hnone in Hrf.
    apply bool_decide_eq_true_1 in Hrf. by destruct Hrf.
Qed.

Lemma start_all_unreachable_unchanged_witness :
  let r := start_all (live_hub false) live_names (fun _ => read_ok "21.5") in
  get_sensor r.1.1 "BME280" = Some (fresh_sensor "BME280" None 10000 (Some 118))
  ∧ "BME280" ∉ r.2.
Proof.
  apply (start_all_unreachable_unchanged (live_hub false) live_names
           (fun _ => read_ok "21.5") "BME280").
  - reflexivity.
  - split; reflexivity.
Defined.

(** ** The display after [start_all] *)

Lemma deliver_not_about cb n evs :
  Forall (not_about n) evs → ∀ d, deliver cb d evs !! n = d !! n.
Proof.
  induction 1 as [|e evs He _ IH]; intros d; [reflexivity |].
  change (deliver cb d (e :: evs)) with (deliver cb (deliver cb d [e]) evs).
  rewrite IH. destruct e as [| | | cb' n' st v |]; try reflexivity.
  cbn [deliver foldl]. destruct (decide (cb' = cb)); [| reflexivity].
  unfold update_sensor. by rewrite lookup_insert_ne.
Qed.

Lemma deliver_publish cb h n st v d :
  cb ∈ callbacks h →
  deliver cb d (publish h n st v) !! n = Some (st, v).
Proof.
  unfold publish. intros Hin.
  assert (Hgen : ∀ cbs d0,
             (cb ∈ cbs ∨ d0 !! n = Some (st, v)) →
             deliver cb d0 (map (fun c => Publish c n st v) cbs) !! n = Some (st, v)).
  { induction cbs as [|c cbs IH]; intros d0 [Hc | Hd].
    - by apply elem_of_nil in Hc.
    - exact Hd.
    - cbn [map]. change (deliver cb d0 (?e :: ?evs))
        with (deliver cb (deliver cb d0 [e]) evs).
      apply IH. cbn [deliver foldl].
      destruct (decide (c = cb)) as [-> | Hne].
      + right. unfold update_sensor. by rewrite lookup_insert_eq.
      + left. apply elem_of_cons in Hc as [-> | Hc]; [done | exact Hc].
    - cbn [map]. change (deliver cb d0 (?e :: ?evs))
        with (deliver cb (deliver cb d0 [e]) evs).
      apply IH. right. cbn [deliver foldl].
      destruct (decide (c = cb)); [| exact Hd].
      unfold update_sensor. by rewrite lookup_insert_eq. }
  apply Hgen. by left.
Qed.

Lemma publish_not_about h m n st v :
  m ≠ n → Forall (not_about n) (publish h m st v).
Proof.
  intros Hne. unfold publish. apply Forall_forall. intros e He.
  apply list_elem_of_fmap in He as (cb & -> & _). exact Hne.
Qed.

Lemma deliver_publish_all cb h n s names :
  cb ∈ callbacks h → get_sensor h n = Some s → n ∈ names →
  ∀ d, deliver cb d (publish_all h names) !! n = Some (status s, value s).
Proof.
  intros Hcb Hs. induction names as [|m names IH]; intros Hin d.
  { by apply elem_of_nil in Hin. }
  unfold publish_all. cbn [flat_map]. fold (publish_all h names).
  rewrite deliver_app.
  destruct (decide (n ∈ names)) as [Hrest | Hrest]; [by apply IH |].
  apply elem_of_cons in Hin as [<- | Hin]; [| done].
  rewrite deliver_not_about.
  - rewrite Hs. by apply deliver_publish.
  - clear IH. unfold publish_all. induction names as [|k names IHn]; [constructor |].
    cbn [flat_map]. apply Forall_app. split.
    + destruct (get_sensor h k); [| constructor].
      apply publish_not_about. intros ->. apply Hrest. by left.
    + apply IHn. intros Hk. apply Hrest. by right.
Qed.

(** After [start_all] the display that [main.py] subscribes shows,
    for every registered sensor, the status and the value that the hub
    holds for it, whatever it showed before. *)
Theorem display_shows_hub_after_start_all
    (h : hub) (names : list string) (env : string → io)
    (cb : nat) (d : gmap string (sensor_status * string)) (n : string) :
  cb ∈ callbacks h → n ∈ names → is_Some (get_sensor h n) →
  let r := start_all h names env in
  ∃ st v, get_status r.1.1 n = Some st ∧ get_reading r.1.1 n = Some v
          ∧ deliver cb d r.1.2 !! n = Some (st, v).
Proof.
  intros Hcb Hin [s Hs]. cbv zeta. rewrite start_all_eq. cbn [fst snd].
  set (h1 := (probe_each h names env).1).
  destruct (probe_each_frame names env h) as (Hreg & _ & Hcbs). fold h1 in Hreg, Hcbs.
  assert (Hs1 : ∃ s1, get_sensor h1 n = Some s1).
  { unfold get_sensor in *. rewrite Hreg.
    destruct (sensors h !! n) as [l|]; [| discriminate].
    destruct (probe_each_object names env h l s Hs) as (s' & Es' & _).
    by exists s'. }
  destruct Hs1 as [s1 Hs1]. exists (status s1), (value s1).
  unfold get_status, get_reading. rewrite Hs1. repeat split.
  rewrite deliver_app. apply deliver_publish_all; auto. by rewrite Hcbs.
Qed.

Lemma display_shows_hub_after_start_all_witness :
  let r := start_all (live_hub true) live_names
             (fun n => {| bus_ok := String.eqb n "BME280"; read_result := None |}) in
  ∃ st v, get_status r.1.1 "BME280" = Some st ∧ get_reading r.1.1 "BME280" = Some v
          ∧ deliver 0%nat ∅ r.1.2 !! "BME280" = Some (st, v).
Proof.
  apply (display_shows_hub_after_start_all (live_hub true) live_names
           (fun n => {| bus_ok := String.eqb n "BME280"; read_result := None |})
           0%nat ∅ "BME280").
  - simpl. set_solver.
  - unfold live_names. set_solver.
  - vm_compute. eauto.
Defined.

End StartUp.

(* ================================================================== *)
(** * Further properties of [VoiceAssistant] *)
(* ================================================================== *)

Section VoiceExtras.
Import PyStr Voice VoiceLoop.

Lemma session_cons cfg clk s i ins :
  session cfg clk s (i :: ins)
  = match step cfg clk s i with
    | None => None
    | Some (s1, evs1) =>
        match session cfg clk s1 ins with
        | None => None
        | Some (s2, evs2) => Some (s2, evs1 ++ evs2)
        end
    end.
Proof. reflexivity. Qed.

(** ** Speech without the wake phrase *)

Lemma on_final_result_ignored cfg clk s raw :
  listening s = false →
  contains (wake_phrase cfg) (normalize raw) = false →
  on_final_result cfg clk s raw
  = Some (s, if is_empty (normalize raw) then [] else [Heard (normalize raw)]).
Proof.
  intros Hl Hc. unfold on_final_result, _process_speech. rewrite Hc, Hl.
  by destruct (is_empty (normalize raw)).
Qed.

Lemma session_ignored cfg clk s (raws : list string) :
  listening s = false →
  Forall (fun raw => contains (wake_phrase cfg) (normalize raw) = false) raws →
  ∃ evs, session cfg clk s (map Utterance raws) = Some (s, evs)
         ∧ dispatched evs = [] ∧ spoken evs = [] ∧ notified evs = [].
Proof.
  intros Hl. induction 1 as [| raw raws Hraw _ (evs & Heq & Hd & Hs & Hn)].
  - by exists [].
  - cbn [map]. rewrite session_cons. cbn [step].
    rewrite (on_final_result_ignored cfg clk s raw Hl Hraw), Heq.
    eexists. split; [reflexivity |].
    unfold dispatched, spoken, notified in *.
    rewrite !omap_app, Hd, Hs, Hn.
    by destruct (is_empty (normalize raw)).
Qed.

(** An assistant that is not listening does nothing with speech that
    does not hold the wake phrase, however much of it there is: the loop
    goes on, no command is dispatched, nothing is said, the display is
    not told anything, and the assistant is as it was. *)
Theorem speech_without_wake_phrase_ignored
    (cfg : voice_config) (clk : clock) (s : assistant) (raws : list string) :
  listening s = false →
  Forall (fun raw => contains (wake_phrase cfg) (normalize raw) = false) raws →
  ∃ evs, session cfg clk s (map Utterance raws) = Some (s, evs)
         ∧ dispatched evs = [] ∧ spoken evs = [] ∧ notified evs = [].
Proof. apply session_ignored. Qed.

Lemma speech_without_wake_phrase_ignored_witness :
  ∃ evs, session default_config noon init
           (map Utterance ["What time is it"; "call the EMERGENCY number"])
         = Some (init, evs)
         ∧ dispatched evs = [] ∧ spoken evs = [] ∧ notified evs = [].
Proof.
  apply (speech_without_wake_phrase_ignored default_config noon init
           ["What time is it"; "call the EMERGENCY number"]).
  - reflexivity.
  - repeat constructor.
Defined.

(** ** A wake word with a capital letter *)

Lemma is_lower_cons a (r : string) :
  is_lower (String a r) ↔ lower_char a = a ∧ is_lower r.
Proof.
  unfold is_lower. simpl. split.
  - intros H. by injection H.
  - by intros [-> ->].
Qed.

Lemma prefix_is_lower (k t : string) :
  String.prefix k t = true → is_lower t → is_lower k.
Proof.
  revert t. induction k as [|a k IH]; intros [|b t]; simpl; try done.
  destruct (ascii_dec a b) as [-> | Hne]; [| discriminate].
  intros Hp [Hb Ht]%is_lower_cons. apply is_lower_cons. split; [exact Hb |].
  by apply (IH t).
Qed.

Lemma contains_is_lower (k t : string) :
  contains k t = true → is_lower t → is_lower k.
Proof.
  induction t as [|b t IH]; cbn [contains].
  - rewrite orb_false_r. apply prefix_is_lower.
  - intros H Hl. apply orb_true_iff in H as [H | H].
    + by apply (prefix_is_lower k (String b t)).
    + apply IH; [exact H |]. by apply is_lower_cons in Hl as [_ ?].
Qed.

(** The recognizer's text is lowered before the wake word is looked
    for in it, and the configured wake word is not.  So with a wake word
    that has a capital letter, no speech wakes the assistant: whatever
    is said, nothing is dispatched and nothing is answered. *)
Theorem capital_wake_word_never_wakes
    (cfg : voice_config) (clk : clock) (s : assistant) (raws : list string) :
  ¬ is_lower (wake_phrase cfg) →
  listening s = false →
  ∃ evs, session cfg clk s (map Utterance raws) = Some (s, evs)
         ∧ dispatched evs = [] ∧ spoken evs = [].
Proof.
  intros Hcap Hl.
  destruct (session_ignored cfg clk s raws Hl) as (evs & Heq & Hd & Hs & _).
  - apply Forall_forall. intros raw _.
    destruct (contains (wake_phrase cfg) (normalize raw)) eqn:Hc; [| reflexivity].
    destruct Hcap. apply (contains_is_lower _ _ Hc), normalize_lower.
  - by exists evs.
Qed.

Lemma capital_wake_word_never_wakes_witness :
  ∃ evs, session capital_config noon init
           (map Utterance ["Hey Maya"; "Hey Maya what time is it"])
         = Some (init, evs)
         ∧ dispatched evs = [] ∧ spoken evs = [].
Proof.
  apply (capital_wake_word_never_wakes capital_config noon init
           ["Hey Maya"; "Hey Maya what time is it"]).
  - unfold is_lower. vm_compute. discriminate.
  - reflexivity.
Defined.

(** ** An empty wake word *)

Lemma contains_empty (t : string) : contains EmptyString t = true.
Proof. by destruct t. Qed.

(** With the empty string as wake word, the first utterance that is
    not blank ends the listening loop: the empty string occurs in every
    text, and [split] refuses an empty separator. *)
Theorem empty_wake_word_ends_loop
    (cfg : voice_config) (clk : clock) (s : assistant)
    (raw : string) (rest : list input) :
  wake_word cfg = Some EmptyString →
  normalize raw ≠ EmptyString →
  session cfg clk s (Utterance raw :: rest) = None.
Proof.
  intros Hw Hraw. rewrite session_cons. cbn [step].
  unfold on_final_result. apply is_empty_false in Hraw. rewrite Hraw. cbn [negb].
  unfold _process_speech, wake_phrase. rewrite Hw. cbn [default].
  unfold id. by rewrite contains_empty.
Qed.

Lemma empty_wake_word_ends_loop_witness :
  session {| wake_word := Some EmptyString |} noon init
    [Utterance "hello"; Button] = None.
Proof.
  apply (empty_wake_word_ends_loop {| wake_word := Some EmptyString |} noon init
           "hello" [Button]).
  - reflexivity.
  - vm_compute. discriminate.
Defined.

(** ** The button *)

Lemma notified_app (l1 l2 : list event) :
  notified (l1 ++ l2) = notified l1 ++ notified l2.
Proof. apply omap_app. Qed.

Lemma speak_notified s text : notified (speak s text).2 = [].
Proof.
  unfold speak. destruct (_tts_ready s); simpl; [| reflexivity].
  by destruct (on_command_result s).
Qed.

Lemma handle_command_frame clk s cmd :
  let s' := (_handle_command clk s cmd).1 in
  command_handlers s' = command_handlers s
  ∧ _tts_ready s' = _tts_ready s
  ∧ on_listening_change s' = on_listening_change s
  ∧ on_command_result s' = on_command_result s.
Proof.
  cbv zeta. rewrite handle_command_eq. cbv zeta. cbn [fst].
  destruct (speak_frame
              (match route (command_handlers s) cmd with
               | Some h => run_handler clk h cmd s
               | None => (fallback cmd, s)
               end).2
              (match route (command_handlers s) cmd with
               | Some h => run_handler clk h cmd s
               | None => (fallback cmd, s)
               end).1) as (-> & -> & -> & ->).
  destruct (route (command_handlers s) cmd) as [h|]; [| done].
  apply run_handler_frame.
Qed.

Lemma handle_command_notified clk s cmd :
  notified (_handle_command clk s cmd).2 = [].
Proof.
  rewrite handle_command_eq. cbv zeta. cbn [snd].
  by rewrite notified_app, speak_notified.
Qed.

(** A press of the button on an assistant that is not listening, and
    then an utterance without the wake phrase: the utterance, lowered
    and stripped, is dispatched whole as the command, and the assistant
    is no longer listening; the display, when it is subscribed, is told
    that listening began and that it ended. *)
Theorem button_then_command
    (cfg : voice_config) (clk : clock) (s : assistant) (raw : string) :
  listening s = false →
  normalize raw ≠ EmptyString →
  contains (wake_phrase cfg) (normalize raw) = false →
  ∃ s' evs,
    session cfg clk s [Button; Utterance raw] = Some (s', evs)
    ∧ dispatched evs = [normalize raw]
    ∧ listening s' = false
    ∧ notified evs = (if on_listening_change s then [true; false] else []).
Proof.
  intros Hl Hraw Hc. rewrite !session_cons. cbn [step session].
  unfold _on_button_press. rewrite Hl.
  unfold on_final_result. apply is_empty_false in Hraw. rewrite Hraw. cbn [negb].
  rewrite (process_speech_listening cfg clk (set_listening true s) _ Hc)
    by reflexivity.
  eexists _, _. split; [reflexivity |].
  destruct (handle_command_frame clk (set_listening true s) (normalize raw))
    as (_ & _ & Hcb & _).
  cbv zeta in Hcb. rewrite Hcb. cbn [on_listening_change set_listening].
  split; [| split; [reflexivity |]].
  - rewrite app_nil_r, dispatched_app.
    change (Heard ?t :: ?l) with ([Heard t] ++ l).
    rewrite !dispatched_app, handle_command_dispatched.
    by destruct (on_listening_change s).
  - rewrite app_nil_r, notified_app.
    change (Heard ?t :: ?l) with ([Heard t] ++ l).
    rewrite !notified_app, handle_command_notified.
    by destruct (on_listening_change s).
Qed.

Lemma button_then_command_witness :
  ∃ s' evs,
    session default_config noon init [Button; Utterance "What time is it"]
    = Some (s', evs)
    ∧ dispatched evs = ["what time is it"]
    ∧ listening s' = false
    ∧ notified evs = [].
Proof.
  apply (button_then_command default_config noon init "What time is it").
  - reflexivity.
  - vm_compute. discriminate.
  - reflexivity.
Defined.

(** The button turns listening on and off in turn, and tells the
    display of the first only: no press calls [on_listening_change]
    with [False]. *)
Theorem button_never_notifies_off
    (cfg : voice_config) (clk : clock) (n : nat) (s : assistant) :
  ∃ s' evs,
    session cfg clk s (replicate n Button) = Some (s', evs)
    ∧ listening s' = (if Nat.even n then listening s else negb (listening s))
    ∧ Forall (fun b => b = true) (notified evs).
Proof.
  revert s. induction n as [|n IH]; intros s.
  - exists s, []. by repeat split.
  - cbn [replicate]. rewrite session_cons. cbn [step].
    destruct (IH (_on_button_press s).1) as (s' & evs & Heq & Hl & Hn).
    destruct (_on_button_press s) as [s1 evs1] eqn:Hpress. cbn [fst] in *.
    rewrite Heq. exists s', (evs1 ++ evs). split; [reflexivity |].
    unfold _on_button_press in Hpress. split.
    + rewrite Hl, Nat.even_succ, <- Nat.negb_even.
      destruct (listening s) eqn:E; injection Hpress as <- <-;
        cbn [listening set_listening]; by destruct (Nat.even n).
    + rewrite notified_app. apply Forall_app. split; [| exact Hn].
      destruct (listening s); injection Hpress as <- <-; [constructor |].
      destruct (on_listening_change s); by repeat constructor.
Qed.

End VoiceExtras.

Section CommandTable.
Import PyStr Voice VoiceLoop.

(** ** [register_command] *)

Lemma route_app (t1 t2 : list (string * handler)) cmd :
  route (t1 ++ t2) cmd
  = match route t1 cmd with
    | Some h => Some h
    | None => route t2 cmd
    end.
Proof.
  induction t1 as [| [k h] t1 IH]; simpl; [reflexivity |].
  by destruct (contains k cmd).
Qed.

Lemma dict_set_fresh (k : string) (h : handler) (t : list (string * handler)) :
  dict_get k t = None → dict_set k h t = t ++ [(k, h)].
Proof.
  induction t as [| [k' h'] t IH]; simpl; [reflexivity |].
  destruct (decide (k' = k)); [discriminate |]. intros H. by rewrite IH.
Qed.

Lemma dict_set_same (k : string) (h : handler) (t : list (string * handler)) :
  dict_get k t = Some h → dict_set k h t = t.
Proof.
  induction t as [| [k' h'] t IH]; simpl; [discriminate |].
  destruct (decide (k' = k)) as [-> | Hne].
  - by intros [= ->].
  - intros H. by rewrite IH.
Qed.

Lemma dict_get_dict_set (k k' : string) (h : handler) (t : list (string * handler)) :
  dict_get k' (dict_set k h t) = if decide (k = k') then Some h else dict_get k' t.
Proof.
  induction t as [| [k0 h0] t IH]; simpl.
  - by destruct (decide (k = k')).
  - destruct (decide (k0 = k)) as [-> | Hne]; simpl.
    + by destruct (decide (k = k')).
    + destruct (decide (k0 = k')) as [-> | Hne'].
      * by rewrite decide_False by congruence.
      * exact IH.
Qed.

Lemma register_keys_snoc (kws : list string) (kw : string) (h : handler) t :
  register_keys (kws ++ [kw]) h t = dict_set (lower kw) h (register_keys kws h t).
Proof. unfold register_keys. by rewrite fold_left_app. Qed.

(** The table after [register_command]: the keywords, lowered, lead
    to the handler; every other key leads where it led. *)
Lemma register_keys_get (kws : list string) (h : handler) :
  ∀ t k,
  dict_get k (register_keys kws h t)
  = if decide (k ∈ map lower kws) then Some h else dict_get k t.
Proof.
  induction kws as [|kw kws IH] using rev_ind; intros t k.
  - cbn [map]. destruct (decide (k ∈ [])) as [H |]; [by apply elem_of_nil in H | done].
  - rewrite register_keys_snoc, dict_get_dict_set, IH, map_app. cbn [map].
    destruct (decide (lower kw = k)) as [<- | Hne].
    + rewrite decide_True; [reflexivity |]. apply elem_of_app. right. by left.
    + destruct (decide (k ∈ map lower kws)) as [Hin | Hnin].
      * rewrite decide_True; [reflexivity |]. apply elem_of_app. by left.
      * rewrite decide_False; [reflexivity |].
        intros [? | ?%list_elem_of_singleton]%elem_of_app; congruence.
Qed.

Lemma existsb_snoc {A} (f : A → bool) (l : list A) (x : A) :
  existsb f (l ++ [x]) = existsb f l || f x.
Proof. rewrite existsb_app. simpl. by rewrite orb_false_r. Qed.

(** Keywords that are new to the table are put after the keys it has,
    so a registered command is reached only by a text that no earlier
    key occurs in: what the table routed before, it routes as before;
    what it did not route goes to the new handler when one of the
    keywords, lowered, occurs in it. *)
Theorem registered_keywords_come_last
    (kws : list string) (h : handler) (t : list (string * handler)) (cmd : string) :
  Forall (fun kw => dict_get (lower kw) t = None) kws →
  route (register_keys kws h t) cmd
  = match route t cmd with
    | Some h0 => Some h0
    | None =>
        if existsb (fun kw => contains (lower kw) cmd) kws then Some h else None
    end.
Proof.
  induction kws as [|kw kws IH] using rev_ind; intros Hnew.
  - simpl. by destruct (route t cmd).
  - apply Forall_app in Hnew as [Hkws Hkw]. apply Forall_inv in Hkw.
    rewrite register_keys_snoc, existsb_snoc.
    pose proof (register_keys_get kws h t (lower kw)) as Hget.
    destruct (decide (lower kw ∈ map lower kws)) as [Hin | Hnin].
    + rewrite (dict_set_same _ _ _ Hget), (IH Hkws).
      destruct (route t cmd); [reflexivity |].
      destruct (contains (lower kw) cmd) eqn:Hc; [| by rewrite orb_false_r].
      rewrite orb_true_r.
      apply list_elem_of_fmap in Hin as (kw' & Heq & Hin').
      assert (Hex : existsb (fun kw => contains (lower kw) cmd) kws = true).
      { apply existsb_exists. exists kw'. split.
        - by apply list_elem_of_In.
        - by rewrite <- Heq. }
      by rewrite Hex.
    + rewrite Hkw in Hget.
      rewrite (dict_set_fresh _ _ _ Hget), route_app, (IH Hkws).
      destruct (route t cmd); [reflexivity |].
      destruct (existsb _ kws); [reflexivity |]. simpl.
      by destruct (contains (lower kw) cmd).
Qed.

Lemma registered_keywords_come_last_witness :
  let cmd_readings := custom (fun _ => "No sensors are connected yet.") in
  route (register_keys reading_keywords cmd_readings default_commands)
    "show my vitals" = Some cmd_readings
  ∧ route (register_keys reading_keywords cmd_readings default_commands)
      "what time were the readings taken" = Some _cmd_time.
Proof.
  cbv zeta.
  assert (Hnew : Forall (fun kw => dict_get (lower kw) default_commands = None)
                   reading_keywords).
  { unfold reading_keywords. repeat (apply List.Forall_cons; [vm_compute; reflexivity |]).
    apply List.Forall_nil. }
  split.
  - rewrite (registered_keywords_come_last reading_keywords
               (custom (fun _ => "No sensors are connected yet."))
               default_commands "show my vitals" Hnew).
    reflexivity.
  - rewrite (registered_keywords_come_last reading_keywords
               (custom (fun _ => "No sensors are connected yet."))
               default_commands "what time were the readings taken" Hnew).
    reflexivity.
Defined.

(** ** Keys that cannot be reached *)

Lemma prefix_trans (a b c : string) :
  String.prefix a b = true → String.prefix b c = true → String.prefix a c = true.
Proof.
  revert b c. induction a as [|x a IH]; intros [|y b] [|z c]; simpl; try done.
  destruct (ascii_dec x y) as [-> | ?]; [| discriminate].
  destruct (ascii_dec y z) as [-> | ?]; [| discriminate].
  apply IH.
Qed.

Lemma contains_prefix (k s : string) :
  String.prefix k s = true → contains k s = true.
Proof. intros H. destruct s; cbn [contains]; by rewrite H. Qed.

Lemma contains_tail (k : string) a (s : string) :
  contains k s = true → contains k (String a s) = true.
Proof. intros H. cbn [contains]. rewrite H. apply orb_true_r. Qed.

Lemma contains_of_prefix (k1 k2 : string) :
  contains k1 k2 = true →
  ∀ s, String.prefix k2 s = true → contains k1 s = true.
Proof.
  induction k2 as [|a k2 IH]; cbn [contains].
  - rewrite orb_false_r. intros H1 s _.
    apply contains_prefix. destruct k1; [by destruct s | discriminate].
  - intros H s Hp. apply orb_true_iff in H as [H | H].
    + apply contains_prefix. by apply (prefix_trans k1 (String a k2) s).
    + destruct s as [|b s]; [discriminate |]. simpl in Hp.
      destruct (ascii_dec a b); [| discriminate].
      apply contains_tail. by apply IH.
Qed.

Lemma contains_trans (k1 k2 s : string) :
  contains k1 k2 = true → contains k2 s = true → contains k1 s = true.
Proof.
  intros H12. induction s as [|a s IH]; intros H; cbn [contains] in H.
  - rewrite orb_false_r in H. by apply (contains_of_prefix k1 k2 H12).
  - apply orb_true_iff in H as [H | H].
    + by apply (contains_of_prefix k1 k2 H12 (String a s)).
    + apply contains_tail. by apply IH.
Qed.

Lemma route_none_inv (t : list (string * handler)) cmd k h :
  route t cmd = None → (k, h) ∈ t → contains k cmd = false.
Proof.
  induction t as [| [k' h'] t IH]; simpl.
  - intros _ Hin. by apply elem_of_nil in Hin.
  - destruct (contains k' cmd) eqn:Hc; [discriminate |].
    intros Hr [[= -> ->] | Hin]%elem_of_cons; [exact Hc | by apply IH].
Qed.

(** A key in which an earlier key of the table occurs is never the one
    that decides: every command it occurs in holds the earlier key too,
    and the loop stops there.  The table routes as it would without the
    entry.  In the built-in table this is the case of "what time", which
    comes after "time". *)
Theorem key_after_its_substring_is_dead
    (pre post : list (string * handler)) (k1 k2 : string) (h1 h2 : handler)
    (cmd : string) :
  (k1, h1) ∈ pre → contains k1 k2 = true →
  route (pre ++ (k2, h2) :: post) cmd = route (pre ++ post) cmd.
Proof.
  intros Hin Hsub. rewrite !route_app.
  destruct (route pre cmd) eqn:Hpre; [reflexivity |].
  simpl. destruct (contains k2 cmd) eqn:Hc; [| reflexivity].
  pose proof (contains_trans k1 k2 cmd Hsub Hc) as H1.
  rewrite (route_none_inv pre cmd k1 h1 Hpre Hin) in H1. discriminate.
Qed.

Lemma key_after_its_substring_is_dead_witness :
  route default_commands "what time is it"
  = route (("time", _cmd_time) :: List.tl (List.tl default_commands))
      "what time is it".
Proof.
  apply (key_after_its_substring_is_dead [("time", _cmd_time)]
           (List.tl (List.tl default_commands)) "time" "what time"
           _cmd_time _cmd_time "what time is it").
  - by left.
  - reflexivity.
Defined.

(** ** Replies and the speech engine *)

Lemma feedback_nil tts shown : feedback tts shown [].
Proof. unfold feedback. split; [by destruct tts | by destruct (tts && shown)]. Qed.

Lemma feedback_app tts shown evs1 evs2 :
  feedback tts shown evs1 → feedback tts shown evs2 →
  feedback tts shown (evs1 ++ evs2).
Proof.
  unfold feedback, played, results, spoken. intros [P1 R1] [P2 R2].
  rewrite !omap_app, P1, P2, R1, R2.
  split; [by destruct tts | by destruct (tts && shown)].
Qed.

Lemma feedback_speak s text :
  feedback (_tts_ready s) (on_command_result s) (speak s text).2.
Proof.
  unfold feedback, speak. destruct (_tts_ready s); simpl; [| done].
  by destruct (on_command_result s).
Qed.

Lemma feedback_handle_command clk s cmd :
  feedback (_tts_ready s) (on_command_result s) (_handle_command clk s cmd).2.
Proof.
  rewrite handle_command_eq. cbv zeta. cbn [snd].
  apply (feedback_app _ _ [Command cmd; Led "thinking"]).
  - unfold feedback. simpl. split; [by destruct (_tts_ready s) | by destruct (_ && _)].
  - destruct (route (command_handlers s) cmd) as [h|]; cbn [fst snd].
    + destruct (run_handler_frame clk h cmd s) as (_ & <- & _ & <-).
      apply feedback_speak.
    + apply feedback_speak.
Qed.

Lemma feedback_other tts shown e :
  played [e] = [] → spoken [e] = [] → results [e] = [] → feedback tts shown [e].
Proof.
  unfold feedback. intros -> -> ->.
  split; [by destruct tts | by destruct (tts && shown)].
Qed.

Lemma step_feedback cfg clk s i s1 evs1 :
  step cfg clk s i = Some (s1, evs1) →
  _tts_ready s1 = _tts_ready s ∧ on_command_result s1 = on_command_result s
  ∧ feedback (_tts_ready s) (on_command_result s) evs1.
Proof.
  destruct i as [raw |]; cbn [step].
  - unfold on_final_result. destruct (is_empty (normalize raw)); cbn [negb].
    { intros [= <- <-]. split; [| split]; [reflexivity.. | apply feedback_nil]. }
    set (text := normalize raw). unfold _process_speech.
    destruct (contains (wake_phrase cfg) text).
    + destruct (split1_last (wake_phrase cfg) text) as [after|]; [| discriminate].
      destruct (is_empty (strip after)); cbn [negb].
      * pose proof (speak_frame (set_listening true s) "Yes? I'm listening.")
          as (_ & Ht & _ & Hr).
        pose proof (feedback_speak (set_listening true s) "Yes? I'm listening.") as Hf.
        destruct (speak (set_listening true s) "Yes? I'm listening.") as [s2 evs2].
        cbn [fst snd] in *. intros [= <- <-].
        split; [| split]; [exact Ht | exact Hr |].
        apply (feedback_app _ _ [Heard text; Led "listening"]).
        { unfold feedback. simpl.
          split; [by destruct (_tts_ready s) | by destruct (_ && _)]. }
        apply feedback_app; [exact Hf |].
        destruct (on_listening_change s2); [| apply feedback_nil].
        by apply feedback_other.
      * pose proof (handle_command_frame clk s (strip after)) as (_ & Ht & _ & Hr).
        pose proof (feedback_handle_command clk s (strip after)) as Hf.
        destruct (_handle_command clk s (strip after)) as [s2 evs2].
        cbn [fst snd] in *. intros [= <- <-].
        split; [| split]; [exact Ht | exact Hr |].
        apply (feedback_app _ _ [Heard text]); [by apply feedback_other | exact Hf].
    + destruct (listening s).
      * pose proof (handle_command_frame clk s text) as (_ & Ht & _ & Hr).
        pose proof (feedback_handle_command clk s text) as Hf.
        destruct (_handle_command clk s text) as [s2 evs2].
        cbn [fst snd] in *. intros [= <- <-].
        split; [| split]; [exact Ht | exact Hr |].
        apply (feedback_app _ _ [Heard text]); [by apply feedback_other |].
        apply feedback_app; [exact Hf |].
        apply (feedback_app _ _ [Led "idle"]); [by apply feedback_other |].
        destruct (on_listening_change s2); [| apply feedback_nil].
        by apply feedback_other.
      * intros [= <- <-]. split; [| split]; [reflexivity.. |]. by apply feedback_other.
  - unfold _on_button_press. destruct (listening s); intros [= <- <-].
    + split; [| split]; [reflexivity.. | apply feedback_nil].
    + split; [| split]; [reflexivity.. |].
      destruct (on_listening_change s); [| apply feedback_nil].
      by apply feedback_other.
Qed.

(** What becomes of the replies during a listening loop.  With a
    speech engine every text handed to [speak] is played, and, when the
    display is subscribed, shown; without one nothing is played and
    nothing is shown either, since [speak] returns before it calls
    [on_command_result]. *)
Theorem replies_need_speech_engine
    (cfg : voice_config) (clk : clock) (ins : list input)
    (s s' : assistant) (evs : list event) :
  session cfg clk s ins = Some (s', evs) →
  played evs = (if _tts_ready s then spoken evs else [])
  ∧ results evs = (if _tts_ready s && on_command_result s then spoken evs else []).
Proof.
  revert s s' evs. induction ins as [|i ins IH]; intros s s' evs.
  - intros [= <- <-]. apply feedback_nil.
  - rewrite session_cons.
    destruct (step cfg clk s i) as [[s1 evs1]|] eqn:Hstep; [| discriminate].
    destruct (session cfg clk s1 ins) as [[s2 evs2]|] eqn:Hrest; [| discriminate].
    intros [= <- <-].
    destruct (step_feedback cfg clk s i s1 evs1 Hstep) as (Ht & Hr & Hf).
    apply feedback_app; [exact Hf |].
    rewrite <- Ht, <- Hr. by apply (IH s1 s2).
Qed.

Lemma replies_need_speech_engine_witness :
  let s := {| listening := false; speaking := false; _tts_ready := false;
              command_handlers := default_commands;
              on_listening_change := true; on_command_result := true |} in
  ∃ s' evs,
    session default_config noon s [Utterance "hey maya what time is it"]
    = Some (s', evs)
    ∧ spoken evs = ["It's 12:00 PM"] ∧ played evs = [] ∧ results evs = [].
Proof.
  cbv zeta. eexists _, _. split; [reflexivity |]. split; [reflexivity |].
  exact (replies_need_speech_engine default_config noon
           [Utterance "hey maya what time is it"]
           {| listening := false; speaking := false; _tts_ready := false;
              command_handlers := default_commands;
              on_listening_change := true; on_command_result := true |}
           _ _ eq_refl).
Defined.

End CommandTable.

(* ================================================================== *)
(** * Properties of [_deep_merge] and [load_config] *)
(* ================================================================== *)

Section SettingsProps.
Import PyStr Json Settings.

(** ** Dictionaries *)

Lemma dict_get_set {K V} `{EqDecision K} (k k' : K) (v : V) (t : list (K * V)) :
  dict_get k' (dict_set k v t) = if decide (k = k') then Some v else dict_get k' t.
Proof.
  induction t as [| [k0 v0] t IH]; simpl.
  - by destruct (decide (k = k')).
  - destruct (decide (k0 = k)) as [-> | Hne]; simpl.
    + by destruct (decide (k = k')).
    + destruct (decide (k0 = k')) as [-> | Hne'].
      * by rewrite decide_False by congruence.
      * exact IH.
Qed.

Lemma dict_set_id {K V} `{EqDecision K} (k : K) (v : V) (t : list (K * V)) :
  dict_get k t = Some v → dict_set k v t = t.
Proof.
  induction t as [| [k' v'] t IH]; simpl; [discriminate |].
  destruct (decide (k' = k)) as [-> | Hne].
  - by intros [= ->].
  - intros H. by rewrite IH.
Qed.

Lemma dict_get_None {K V} `{EqDecision K} (k : K) (t : list (K * V)) :
  dict_get k t = None ↔ k ∉ map fst t.
Proof.
  induction t as [| [k' v'] t IH]; simpl.
  - split; [intros _; apply not_elem_of_nil | done].
  - rewrite not_elem_of_cons. destruct (decide (k' = k)) as [-> | Hne].
    + split; [discriminate | by intros [? _]].
    + rewrite IH. split; [by split | by intros [_ ?]].
Qed.

Lemma dict_set_keys {K V} `{EqDecision K} (k : K) (v : V) (t : list (K * V)) :
  map fst (dict_set k v t)
  = if decide (k ∈ map fst t) then map fst t else map fst t ++ [k].
Proof.
  induction t as [| [k' v'] t IH]; cbn [dict_set map fst].
  - destruct (decide (k ∈ [])) as [Hin |]; [by apply elem_of_nil in Hin | reflexivity].
  - destruct (decide (k' = k)) as [-> | Hne]; cbn [map fst].
    + rewrite decide_True; [reflexivity | by left].
    + rewrite IH. destruct (decide (k ∈ map fst t)) as [Hin | Hnin].
      * rewrite decide_True; [reflexivity | by right].
      * rewrite decide_False; [reflexivity |].
        intros [? | ?]%elem_of_cons; congruence.
Qed.

Lemma dict_set_NoDup {K V} `{EqDecision K} (k : K) (v : V) (t : list (K * V)) :
  NoDup (map fst t) → NoDup (map fst (dict_set k v t)).
Proof.
  intros Hnd. rewrite dict_set_keys.
  destruct (decide (k ∈ map fst t)) as [Hin | Hnin]; [exact Hnd |].
  apply NoDup_app. repeat split; [exact Hnd | | apply NoDup_singleton].
  intros x Hx ->%list_elem_of_singleton. contradiction.
Qed.

Lemma dict_set_Forall {K V} `{EqDecision K} (P : V → Prop) (k : K) (v : V)
    (t : list (K * V)) :
  P v → Forall (fun kv => P kv.2) t → Forall (fun kv => P kv.2) (dict_set k v t).
Proof.
  intros Hv. induction 1 as [| [k' v'] t Hkv Ht IH]; simpl.
  - by repeat constructor.
  - destruct (decide (k' = k)); constructor; auto.
Qed.

Lemma dict_get_elem {K V} `{EqDecision K} (k : K) (v : V) (t : list (K * V)) :
  NoDup (map fst t) → (k, v) ∈ t → dict_get k t = Some v.
Proof.
  induction t as [| [k' v'] t IH]; simpl.
  - intros _ Hin. by apply elem_of_nil in Hin.
  - intros [Hk Hnd]%NoDup_cons [[= -> ->] | Hin]%elem_of_cons.
    + by rewrite decide_True.
    + destruct (decide (k' = k)) as [-> | Hne]; [| by apply IH].
      destruct Hk. apply list_elem_of_fmap. by exists (k, v).
Qed.

(** ** The loop of [_deep_merge] *)

Lemma deep_merge_nil base : _deep_merge base (JObj []) = base.
Proof. reflexivity. Qed.

Lemma deep_merge_cons base k v rest :
  _deep_merge base (JObj ((k, v) :: rest))
  = _deep_merge (dict_set k (merged_value (dict_get k base) v) base) (JObj rest).
Proof.
  cbn [_deep_merge]. unfold merged_value.
  destruct (dict_get k base) as [[]|]; destruct v; reflexivity.
Qed.

Lemma merged_value_leaf old v : is_dict v = false → merged_value old v = v.
Proof. unfold merged_value. destruct old as [[]|]; by destruct v. Qed.

Lemma merged_value_dict old items :
  merged_value old (JObj items)
  = match old with
    | Some (JObj b) => JObj (_deep_merge b (JObj items))
    | _ => JObj items
    end.
Proof. unfold merged_value. by destruct old as [[]|]. Qed.

(** What a dictionary holds under each key after a merge, when no key
    comes twice in the override: the keys that the override does not
    have keep their value; a key that it has holds its value, merged
    with the old one when both are dictionaries. *)
Lemma deep_merge_get (items : list (list N * json)) :
  ∀ base k,
  NoDup (map fst items) →
  dict_get k (_deep_merge base (JObj items))
  = match dict_get k items with
    | None => dict_get k base
    | Some v => Some (merged_value (dict_get k base) v)
    end.
Proof.
  induction items as [| [k0 v0] items IH]; intros base k Hnd; [reflexivity |].
  cbn [map fst] in Hnd. apply NoDup_cons in Hnd as [Hk0 Hnd].
  apply dict_get_None in Hk0.
  rewrite deep_merge_cons, (IH _ _ Hnd). cbn [dict_get].
  rewrite !dict_get_set.
  destruct (decide (k0 = k)) as [<- | Hne]; [| reflexivity].
  by rewrite Hk0.
Qed.

(** ** What [json.loads] gives *)

Lemma proper_obj (m : list (list N * json)) :
  proper (JObj m) = true
  ↔ NoDup (map fst m) ∧ Forall (fun kv => proper kv.2 = true) m.
Proof.
  cbn [proper]. rewrite andb_true_iff, bool_decide_eq_true.
  apply and_iff_compat_l.
  induction m as [| [k x] m IH]; [by split; [constructor |] |].
  rewrite andb_true_iff, Forall_cons, IH. reflexivity.
Qed.

Lemma dict_of_pairs_proper (kvs : list (list N * json)) :
  Forall (fun kv => proper kv.2 = true) kvs →
  proper (JObj (dict_of_pairs kvs)) = true.
Proof.
  intros Hall. apply proper_obj. unfold dict_of_pairs.
  assert (Hgen : ∀ t : list (list N * json),
             NoDup (map fst t) → Forall (fun kv => proper kv.2 = true) t →
             NoDup (map fst (fold_left (fun d kv => dict_set kv.1 kv.2 d) kvs t))
             ∧ Forall (fun kv => proper kv.2 = true)
                 (fold_left (fun d kv => dict_set kv.1 kv.2 d) kvs t)).
  { induction Hall as [| kv kvs Hkv _ IH]; intros t Hnd Ht; [by split |].
    cbn [fold_left]. apply IH.
    - by apply dict_set_NoDup.
    - by apply (dict_set_Forall (fun v => proper v = true)). }
  apply Hgen; constructor.
Qed.

Lemma scan_atom_leaf s v r : scan_atom s = Some (v, r) → proper v = true.
Proof.
  unfold scan_atom, match_number.
  repeat (destruct (after_word _ s); [by intros [= <- _] |]).
  destruct (match s with
            | String c r0 => if Ascii.eqb c "-" then ("-", r0) else (EmptyString, s)
            | EmptyString => (EmptyString, s)
            end) as [sign s1].
  destruct (match_int s1) as [[i s2]|]; [| discriminate].
  destruct (match_frac s2) as [f s3]. destruct (match_exp s3) as [e s4].
  by intros [= <- _].
Qed.

Lemma scan_once_S (fuel : nat) (s : string) :
  scan_once (S fuel) s
  = match s with
    | EmptyString => None
    | String c r =>
        if Ascii.eqb c QUOTE then
          match scanstring r with
          | Some (cs, r') => Some (JStr cs, r')
          | None => None
          end
        else if Ascii.eqb c "{" then
          match skip_ws r with
          | String c1 r1 =>
              if Ascii.eqb c1 "}" then Some (JObj [], r1)
              else match parse_members fuel (String c1 r1) with
                   | Some (kvs, r2) => Some (JObj (dict_of_pairs kvs), r2)
                   | None => None
                   end
          | EmptyString => None
          end
        else if Ascii.eqb c "[" then
          match skip_ws r with
          | String c1 r1 =>
              if Ascii.eqb c1 "]" then Some (JArr [], r1)
              else match parse_items fuel (String c1 r1) with
                   | Some (vs, r2) => Some (JArr vs, r2)
                   | None => None
                   end
          | EmptyString => None
          end
        else scan_atom s
    end.
Proof. reflexivity. Qed.

Lemma parse_members_S (fuel : nat) (s : string) :
  parse_members (S fuel) s
  = match s with
    | EmptyString => None
    | String c r =>
        if Ascii.eqb c QUOTE then
          match scanstring r with
          | None => None
          | Some (k, r1) =>
              match skip_ws r1 with
              | String c2 r2 =>
                  if Ascii.eqb c2 ":" then
                    match scan_once fuel (skip_ws r2) with
                    | None => None
                    | Some (v, r3) =>
                        match skip_ws r3 with
                        | String c4 r4 =>
                            if Ascii.eqb c4 "}" then Some ([(k, v)], r4)
                            else if Ascii.eqb c4 "," then
                              match parse_members fuel (skip_ws r4) with
                              | Some (kvs, r5) => Some ((k, v) :: kvs, r5)
                              | None => None
                              end
                            else None
                        | EmptyString => None
                        end
                    end
                  else None
              | EmptyString => None
              end
          end
        else None
    end.
Proof. reflexivity. Qed.

Lemma scan_proper (fuel : nat) :
  ∀ s,
  (∀ v r, scan_once fuel s = Some (v, r) → proper v = true)
  ∧ (∀ kvs r, parse_members fuel s = Some (kvs, r) →
     Forall (fun kv => proper kv.2 = true) kvs).
Proof.
  induction fuel as [|fuel IH]; intros s; [by split |]. split.
  - intros v r. rewrite scan_once_S.
    destruct s as [|c s0]; [discriminate |].
    destruct (Ascii.eqb c QUOTE).
    { destruct (scanstring s0) as [[cs r']|]; [| discriminate]. by intros [= <- _]. }
    destruct (Ascii.eqb c "{").
    { destruct (skip_ws s0) as [|c1 r1]; [discriminate |].
      destruct (Ascii.eqb c1 "}"); [by intros [= <- _] |].
      destruct (parse_members fuel (String c1 r1)) as [[kvs r2]|] eqn:Hm;
        [| discriminate].
      intros [= <- _]. apply dict_of_pairs_proper.
      by apply (proj2 (IH (String c1 r1)) kvs r2). }
    destruct (Ascii.eqb c "[").
    { destruct (skip_ws s0) as [|c1 r1]; [discriminate |].
      destruct (Ascii.eqb c1 "]"); [by intros [= <- _] |].
      destruct (parse_items fuel (String c1 r1)) as [[vs r2]|]; [| discriminate].
      by intros [= <- _]. }
    apply scan_atom_leaf.
  - intros kvs r. rewrite parse_members_S.
    destruct s as [|c s0]; [discriminate |].
    destruct (Ascii.eqb c QUOTE); [| discriminate].
    destruct (scanstring s0) as [[k r1]|]; [| discriminate].
    destruct (skip_ws r1) as [|c2 r2]; [discriminate |].
    destruct (Ascii.eqb c2 ":"); [| discriminate].
    destruct (scan_once fuel (skip_ws r2)) as [[v r3]|] eqn:Hv; [| discriminate].
    apply (proj1 (IH _)) in Hv.
    destruct (skip_ws r3) as [|c4 r4]; [discriminate |].
    destruct (Ascii.eqb c4 "}"); [intros [= <- _]; by repeat constructor |].
    destruct (Ascii.eqb c4 ","); [| discriminate].
    destruct (parse_members fuel (skip_ws r4)) as [[kvs' r5]|] eqn:Hm; [| discriminate].
    intros [= <- _]. constructor; [exact Hv |].
    by apply (proj2 (IH (skip_ws r4)) kvs' r5).
Qed.

(** In what [json.loads] returns no dictionary has a key twice. *)
Lemma loads_proper (text : string) (v : json) :
  loads text = Some v → proper v = true.
Proof.
  unfold loads.
  destruct (scan_once _ _) as [[v' rest]|] eqn:Hs; [| discriminate].
  destruct (is_empty (skip_ws rest)); [| discriminate].
  intros [= <-]. by apply (proj1 (scan_proper _ _)) in Hs.
Qed.

(** ** Settings of the user and defaults *)

Lemma merge_path_wins (path : list (list N)) :
  ∀ base items v,
  proper (JObj items) = true → path ≠ [] →
  lookup_path path (JObj items) = Some v → is_dict v = false →
  lookup_path path (JObj (_deep_merge base (JObj items))) = Some v.
Proof.
  induction path as [|k path IH]; intros base items v Hp Hne Hl Hv; [done |].
  apply proper_obj in Hp as [Hnd Hall].
  cbn [lookup_path] in *. rewrite (deep_merge_get items base k Hnd).
  destruct (dict_get k items) as [x|] eqn:Hx; [| discriminate].
  destruct path as [|k' path'].
  - cbn [lookup_path] in *. injection Hl as ->. by rewrite merged_value_leaf.
  - destruct x as [| | | | | xs]; try discriminate.
    rewrite merged_value_dict.
    destruct (dict_get k base) as [[| | | | | b]|]; try exact Hl.
    apply IH; [| done | exact Hl | exact Hv].
    assert (Hin : ∃ kv, kv ∈ items ∧ kv.2 = JObj xs).
    { clear -Hx. induction items as [| [k0 v0] items IHi]; [discriminate |].
      simpl in Hx. destruct (decide (k0 = k)).
      - injection Hx as ->. exists (k0, JObj xs). split; [by left | done].
      - destruct (IHi Hx) as (kv & Hin & Hkv). exists kv. split; [by right | done]. }
    destruct Hin as (kv & Hin & Hkv).
    rewrite Forall_forall in Hall. rewrite <- Hkv. by apply Hall.
Qed.

Lemma untouched_lookup (path : list (list N)) :
  ∀ v, untouched path v = true → lookup_path path v = None.
Proof.
  induction path as [|k path IH]; intros v; [by destruct v |].
  destruct v as [| | | | | m]; try discriminate.
  cbn [untouched lookup_path]. destruct (dict_get k m) as [x|]; [apply IH | done].
Qed.

Lemma dict_get_proper (k : list N) (items : list (list N * json)) (x : json) :
  Forall (fun kv => proper kv.2 = true) items →
  dict_get k items = Some x → proper x = true.
Proof.
  induction 1 as [| [k0 v0] items Hkv _ IH]; simpl; [discriminate |].
  destruct (decide (k0 = k)); [by intros [= <-] | exact IH].
Qed.

Lemma merge_path_kept (path : list (list N)) :
  ∀ base items,
  proper (JObj items) = true →
  untouched path (JObj items) = true →
  lookup_path path (JObj (_deep_merge base (JObj items)))
  = lookup_path path (JObj base).
Proof.
  induction path as [|k path IH]; intros base items Hp Hu; [discriminate |].
  apply proper_obj in Hp as [Hnd Hall].
  cbn [lookup_path untouched] in *. rewrite (deep_merge_get items base k Hnd).
  destruct (dict_get k items) as [x|] eqn:Hx; [| reflexivity].
  pose proof (dict_get_proper k items x Hall Hx) as Hpx.
  destruct path as [|k' path']; [by destruct x |].
  destruct x as [| | | | | xs]; try discriminate.
  rewrite merged_value_dict.
  destruct (dict_get k base) as [[| | | | | b]|];
    try (rewrite (untouched_lookup _ _ Hu); reflexivity).
  by apply IH.
Qed.

(** A setting that the file of the user gives is the setting after
    [load_config]: whatever the defaults are, a value of the file that
    is no dictionary is found in the result under the path it has in the
    file.  This is so also where the default under that path was a whole
    section. *)
Theorem loaded_settings_win
    (CONFIG : list (list N * json)) (text : string)
    (user : list (list N * json)) (path : list (list N)) (v : json) :
  loads text = Some (JObj user) →
  path ≠ [] →
  lookup_path path (JObj user) = Some v → is_dict v = false →
  ∃ cfg, load_config CONFIG (Some text) = Some cfg
         ∧ lookup_path path (JObj cfg) = Some v.
Proof.
  intros Hload Hne Hl Hv. unfold load_config. rewrite Hload.
  eexists. split; [reflexivity |].
  apply merge_path_wins; auto. by apply (loads_proper text).
Qed.

Lemma loaded_settings_win_witness :
  ∃ cfg, load_config CONFIG_sample (Some user_file) = Some cfg
         ∧ lookup_path [key "alerts"; key "fall_cooldown_seconds"] (JObj cfg)
           = Some (JNum "60").
Proof.
  apply (loaded_settings_win CONFIG_sample user_file
           [(key "alerts", JObj [(key "fall_cooldown_seconds", JNum "60")]);
            (key "voice", JStr (cps "off"))]
           [key "alerts"; key "fall_cooldown_seconds"] (JNum "60")).
  - vm_compute. reflexivity.
  - discriminate.
  - vm_compute. reflexivity.
  - reflexivity.
Defined.

(** A default that the file of the user says nothing about is kept by
    [load_config]: when the file, on the way down a path, holds
    dictionaries until a key of the path is missing, the result holds
    under that path what the defaults held. *)
Theorem untouched_defaults_kept
    (CONFIG : list (list N * json)) (text : string)
    (user : list (list N * json)) (path : list (list N)) :
  loads text = Some (JObj user) →
  untouched path (JObj user) = true →
  ∃ cfg, load_config CONFIG (Some text) = Some cfg
         ∧ lookup_path path (JObj cfg) = lookup_path path (JObj CONFIG).
Proof.
  intros Hload Hu. unfold load_config. rewrite Hload.
  eexists. split; [reflexivity |].
  apply merge_path_kept; auto. by apply (loads_proper text).
Qed.

Lemma untouched_defaults_kept_witness :
  ∃ cfg, load_config CONFIG_sample (Some user_file) = Some cfg
         ∧ lookup_path [key "alerts"; key "inactivity_alert_hours"] (JObj cfg)
           = Some (JNum "4").
Proof.
  destruct (untouched_defaults_kept CONFIG_sample user_file
              [(key "alerts", JObj [(key "fall_cooldown_seconds", JNum "60")]);
               (key "voice", JStr (cps "off"))]
              [key "alerts"; key "inactivity_alert_hours"]) as (cfg & Hcfg & Hl).
  - vm_compute. reflexivity.
  - vm_compute. reflexivity.
  - exists cfg. split; [exact Hcfg |]. rewrite Hl. vm_compute. reflexivity.
Defined.

(** ** Merging a configuration into itself *)

Lemma json_dict_ind (P : json → Prop) :
  (∀ v, is_dict v = false → P v) →
  (∀ m, Forall (fun kv => P kv.2) m → P (JObj m)) →
  ∀ v, P v.
Proof.
  intros Hleaf Hobj. fix IH 1. intros [| b | n | s | items | m];
    try (apply Hleaf; reflexivity).
  apply Hobj. induction m as [| [k x] m IHm]; constructor; [apply IH | exact IHm].
Qed.

Lemma deep_merge_same_items (items : list (list N * json)) :
  ∀ base,
  Forall (fun kv => dict_get kv.1 base = Some kv.2
                    ∧ merged_value (Some kv.2) kv.2 = kv.2) items →
  _deep_merge base (JObj items) = base.
Proof.
  induction items as [| [k x] items IH]; intros base Hall; [reflexivity |].
  apply Forall_cons in Hall as [[Hget Hm] Hall]. cbn [fst snd] in *.
  rewrite deep_merge_cons, Hget, Hm, (dict_set_id k x base Hget). by apply IH.
Qed.

(** Merging a dictionary into itself gives the dictionary back, the
    nested ones included: loading a file that holds the very settings in
    force changes nothing. *)
Theorem deep_merge_self (base : list (list N * json)) :
  proper (JObj base) = true →
  _deep_merge base (JObj base) = base.
Proof.
  assert (Hgen : ∀ v, proper v = true → merged_value (Some v) v = v).
  { induction v as [v Hv | m IHm] using json_dict_ind; intros Hp.
    - by apply merged_value_leaf.
    - rewrite merged_value_dict. f_equal.
      apply proper_obj in Hp as [Hnd Hall].
      apply deep_merge_same_items. apply Forall_forall. intros [k x] Hin.
      rewrite Forall_forall in IHm, Hall. cbn [fst snd]. split.
      + by apply dict_get_elem.
      + apply (IHm (k, x) Hin), (Hall (k, x) Hin). }
  intros Hp. specialize (Hgen (JObj base) Hp).
  rewrite merged_value_dict in Hgen. by injection Hgen.
Qed.

Lemma deep_merge_self_witness :
  _deep_merge CONFIG_sample (JObj CONFIG_sample) = CONFIG_sample.
Proof. apply (deep_merge_self CONFIG_sample). vm_compute. reflexivity. Defined.

End SettingsProps.
